(** * Complaint backend: CSRF token store, field validation, sanitizer

    Shallow embedding of the two server programs of the repository:

    - [Part000]: src/unnamed/part_000, the submission endpoint with the
      [validators] table and the [sanitize] helper (no CSRF gate);
    - [Server]: src/server.js, the CSRF-gated endpoint with the in-memory
      [tokenStore], the token issuance route and the inline field checks.

    Modelling conventions.

    - A JavaScript string is the list of its UTF-16 code units ([jsstring]).
    - A request body field is a JSON primitive or [undefined] ([JSValue]);
      a [JNumber] stands for an integral Number below 2^53 in magnitude.
      Arrays, nested objects and fractional numbers are outside the model.
    - [tokenStore] (a JS [Map]) is a [gmap] from session identifier to
      token record.
    - One synchronous run of a handler reads the clock at one instant
      [now] (epoch milliseconds).  The mail relay answers later through
      the [sendMail] callback, which is a separate step on the store.
    - [crypto.randomBytes] draws from an entropy source passed as input.
    - [Date.parse] on strings is engine-defined and is a parameter. *)

From Stdlib Require Import ZArith NArith List Bool Ascii String Lia.
From stdpp Require Import base option list gmap fin_maps.

Local Open Scope Z_scope.

(** ** JavaScript strings *)

Definition cu := N.
Definition jsstring := list cu.

Definition lit (s : string) : jsstring :=
  (λ a, N_of_ascii a) <$> list_ascii_of_string s.

Arguments lit : simpl never.

Definition chr (a : ascii) : cu := N_of_ascii a.

(** WhiteSpace and LineTerminator code units: what [String.prototype.trim]
    strips and what the class [\s] matches. *)
Definition is_space (c : cu) : bool :=
  ((9 <=? c) && (c <=? 13) || (c =? 32) || (c =? 160) || (c =? 5760)
   || (8192 <=? c) && (c <=? 8202) || (c =? 8232) || (c =? 8233)
   || (c =? 8239) || (c =? 8287) || (c =? 12288) || (c =? 65279))%N.

Fixpoint trimStart (s : jsstring) : jsstring :=
  match s with
  | c :: t => if is_space c then trimStart t else s
  | [] => []
  end.

Definition trimEnd (s : jsstring) : jsstring := rev (trimStart (rev s)).

Definition trim (s : jsstring) : jsstring := trimEnd (trimStart s).

(** [s.slice(-n)]: the last [n] code units, the whole string when shorter. *)
Definition slice_last (n : nat) (s : jsstring) : jsstring :=
  drop (length s - n)%nat s.

(** ** Number to string, for integral values *)

Definition digit (d : N) : cu := (48 + d)%N.

Fixpoint digits_fuel (fuel : nat) (n : N) : jsstring :=
  match fuel with
  | O => [digit (n mod 10)]
  | S f => if (n <? 10)%N then [digit n]
           else digits_fuel f (n / 10) ++ [digit (n mod 10)]
  end.

Definition digits (n : N) : jsstring := digits_fuel (N.to_nat (N.log2 n)) n.

(** [Number.prototype.toString()] on an integral value. *)
Definition Number_toString (z : Z) : jsstring :=
  if z <? 0 then chr "-" :: digits (Z.to_N (- z)) else digits (Z.to_N z).

(** ** Values of request body fields *)

Inductive JSValue :=
| JUndefined
| JNull
| JBool (b : bool)
| JNumber (n : Z)
| JString (s : jsstring).

Inductive JSType := TUndefined | TObject | TBoolean | TNumber | TString.

Definition typeof (v : JSValue) : JSType :=
  match v with
  | JUndefined => TUndefined
  | JNull => TObject
  | JBool _ => TBoolean
  | JNumber _ => TNumber
  | JString _ => TString
  end.

Definition ToBoolean (v : JSValue) : bool :=
  match v with
  | JUndefined | JNull => false
  | JBool b => b
  | JNumber n => negb (n =? 0)
  | JString s => match s with [] => false | _ => true end
  end.

(** String conversion, as done by template literals and by
    [RegExp.prototype.test] on its argument. *)
Definition ToString (v : JSValue) : jsstring :=
  match v with
  | JUndefined => lit "undefined"
  | JNull => lit "null"
  | JBool true => lit "true"
  | JBool false => lit "false"
  | JNumber n => Number_toString n
  | JString s => s
  end.

(** [a || b] on values. *)
Definition js_or (a b : JSValue) : JSValue := if ToBoolean a then a else b.

(** ** Results of code that may throw *)

Inductive Result (A : Type) :=
| Ok (a : A)
| Throw.
Arguments Ok {A} a.
Arguments Throw {A}.

Definition rbind {A B} (r : Result A) (f : A → Result B) : Result B :=
  match r with Ok a => f a | Throw => Throw end.

(** ** Regular expressions

    The patterns of the sources use literals, character classes,
    greedy quantifiers on a single character or class, one alternation
    and the anchors.  The matcher is the backtracking matcher of the
    language: alternatives in order, quantifiers greedy, continuation
    called at each candidate end. *)
Module RegExp.

Inductive regex :=
| Eps
| Chr (p : cu → bool)
| Rep (p : cu → bool) (lo : nat) (hi : option nat)
| Seq (r1 r2 : regex)
| Alt (r1 r2 : regex)
| Bol
| Eol.

(** [p{lo,hi}] greedy at index [i] of the input, [s] the rest. *)
Fixpoint rep {R} (p : cu → bool) (lo : nat) (hi : option nat)
    (i : nat) (s : jsstring) (k : nat → jsstring → option R) : option R :=
  let stop := match lo with O => k i s | S _ => None end in
  match s with
  | c :: t =>
      if p c && negb (bool_decide (hi = Some O)) then
        match lo with
        | S lo' => rep p lo' (pred <$> hi) (S i) t k
        | O => match rep p O (pred <$> hi) (S i) t k with
               | Some e => Some e
               | None => k i s
               end
        end
      else stop
  | [] => stop
  end.

Fixpoint m {R} (r : regex) (i : nat) (s : jsstring)
    (k : nat → jsstring → option R) : option R :=
  match r with
  | Eps => k i s
  | Chr p => match s with
             | c :: t => if p c then k (S i) t else None
             | [] => None
             end
  | Rep p lo hi => rep p lo hi i s k
  | Seq r1 r2 => m r1 i s (λ j t, m r2 j t k)
  | Alt r1 r2 => match m r1 i s k with
                 | Some e => Some e
                 | None => m r2 i s k
                 end
  | Bol => match i with O => k i s | S _ => None end
  | Eol => match s with [] => k i s | _ :: _ => None end
  end.

(** A match starting exactly at index [i]: the input after the match. *)
Definition match_at (r : regex) (i : nat) (s : jsstring) : option jsstring :=
  m r i s (λ _ t, Some t).

(** Leftmost match at or after index [i]. *)
Fixpoint search (r : regex) (i : nat) (s : jsstring) : bool :=
  match match_at r i s with
  | Some _ => true
  | None => match s with
            | [] => false
            | _ :: t => search r (S i) t
            end
  end.

(** [r.test(s)] for a pattern without the g and y flags. *)
Definition test (r : regex) (s : jsstring) : bool := search r O s.

(** [s.replace(r, e)] with [e] the empty string, for a pattern with
    the g flag: every match, left to right, is removed; after an empty
    match the scan moves on by one code unit. *)
Fixpoint replace_go (fuel : nat) (r : regex) (i : nat) (s : jsstring)
    : jsstring :=
  match fuel with
  | O => s
  | S f =>
      match match_at r i s with
      | Some t =>
          let n := (length s - length t)%nat in
          match n, s with
          | S _, _ => replace_go f r (i + n) t
          | O, c :: s' => c :: replace_go f r (S i) s'
          | O, [] => []
          end
      | None =>
          match s with
          | c :: s' => c :: replace_go f r (S i) s'
          | [] => []
          end
      end
  end.

Definition replace_all (r : regex) (s : jsstring) : jsstring :=
  replace_go (S (length s)) r O s.

(** Character classes. *)
Definition one (c : ascii) : cu → bool := λ x, (x =? chr c)%N.
Definition range (a b : ascii) : cu → bool :=
  λ x, ((chr a <=? x) && (x <=? chr b))%N.
Definition either (p q : cu → bool) : cu → bool := λ x, p x || q x.
Definition except (p : cu → bool) : cu → bool := λ x, negb (p x).

Definition plus p := Rep p 1 None.
Definition opt p := Rep p 0 (Some 1%nat).

End RegExp.

(** ** Requests and responses *)

(** The keys of a complaint submission ([req.body]) and of the
    [errors] object of a 400 response. *)
Inductive Field :=
| username | email | gameId | platform
| issueType | description | dateOfIssue | phoneNumber.

Global Instance Field_eq_dec : EqDecision Field.
Proof. solve_decision. Defined.

(** [req.body]: a missing key reads [undefined]. *)
Definition Body := Field → JSValue.

(** [req.cookies] as left by the cookie parser: a cookie is absent or
    has a string value (JSON cookies are outside the model). *)
Record Cookies := { sessionId : option jsstring; csrfToken : option jsstring }.

(** A request: its cookies and its parsed JSON body, if any. *)
Record Request := { cookies : Cookies; body : option Body }.

(** The JSON envelope sent by [res.status(..).json(..)]. *)
Record Response := {
  status : Z;
  success : bool;
  message : option jsstring;
  errors : option (list (Field * jsstring));
  referenceNumber : option jsstring
}.

Record MailOptions := {
  from : JSValue;
  to : jsstring;
  subject : jsstring;
  text : jsstring
}.

(** What the process takes from its host: the string parser of [Date],
    and the environment variables read by the handlers. *)
Record Host := {
  Date_parse : jsstring → option Z;
  GMAIL_USER : JSValue;
  NODE_ENV_production : bool
}.

(** [new Date(value)]: the time value, [None] for an Invalid Date. *)
Definition Date_new (H : Host) (value : JSValue) : option Z :=
  match value with
  | JUndefined => None
  | JNull => Some 0
  | JBool b => Some (if b then 1 else 0)
  | JNumber n => if Z.abs n <=? 8640000000000000 then Some n else None
  | JString s => Date_parse H s
  end.

Definition nl : jsstring := [10%N].

(** [`PENA-${Date.now().toString().slice(-8)}`], the same line in both
    programs. *)
Definition refNumber (now : Z) : jsstring :=
  lit "PENA-" ++ slice_last 8 (Number_toString now).

(** The outcome of the synchronous part of a submission handler: a
    response, or a mail handed to the relay together with the reference
    number kept by the callback. *)
Inductive Outcome :=
| Respond (r : Response)
| SendMail (mailOptions : MailOptions) (ref : jsstring).

Definition error_response (code : Z) (msg : string) : Response :=
  {| status := code; success := false; message := Some (lit msg);
     errors := None; referenceNumber := None |}.

Definition success_response (ref : jsstring) : Response :=
  {| status := 200; success := true; message := None;
     errors := None; referenceNumber := Some ref |}.

Definition invalid_response (errs : list (Field * jsstring)) : Response :=
  {| status := 400; success := false; message := Some (lit "Data tidak valid");
     errors := Some errs; referenceNumber := None |}.

(** [try { .. } catch (error) { res.status(500).json(..) }] *)
Definition try_catch (r : Result Outcome) : Outcome :=
  match r with
  | Ok o => o
  | Throw => Respond (error_response 500 "Terjadi kesalahan pada server")
  end.

(** Destructuring [req.body] throws a TypeError when there is no body. *)
Definition destructure (b : option Body) : Result Body :=
  match b with Some f => Ok f | None => Throw end.

(** [if (cond) validationErrors.key = msg] *)
Definition set_if (cond : bool) (key : Field) (msg : string)
    : list (Field * jsstring) :=
  if cond then [(key, lit msg)] else [].

(** * src/unnamed/part_000 *)
Module Part000.
Import RegExp.

Definition word : cu → bool :=
  either (range "a" "z") (either (range "A" "Z")
    (either (range "0" "9") (one "_"))).

Definition not_space_at : cu → bool :=
  except (either is_space (one "@")).

(** [/^[a-zA-Z0-9_]+$/] *)
Definition re_username : regex := Seq Bol (Seq (plus word) Eol).

(** [/^[^\s@]+@[^\s@]+\.[^\s@]+$/] *)
Definition re_email : regex :=
  Seq Bol (Seq (plus not_space_at) (Seq (Chr (one "@"))
    (Seq (plus not_space_at) (Seq (Chr (one "."))
      (Seq (plus not_space_at) Eol))))).

(** [/^[a-zA-Z0-9-_]+$/] *)
Definition re_gameId : regex :=
  Seq Bol (Seq (plus (either word (one "-"))) Eol).

(** [/^\+?[0-9]{10,15}$/] *)
Definition re_phoneNumber : regex :=
  Seq Bol (Seq (opt (one "+"))
    (Seq (Rep (range "0" "9") 10 (Some 15%nat)) Eol)).

(** [/<\/?[^>]+(>|$)/g] *)
Definition re_tag : regex :=
  Seq (Chr (one "<")) (Seq (opt (one "/"))
    (Seq (plus (except (one ">"))) (Alt (Chr (one ">")) Eol))).

Definition validIssueTypes : list jsstring :=
  [ lit "Deposit/Penarikan Bermasalah"; lit "Kerusakan Game";
    lit "Masalah Akses Akun"; lit "Masalah Bonus/Promosi";
    lit "Kesalahan Proses Pembayaran"; lit "Logout Tiba-tiba";
    lit "Masalah Pembayaran Jackpot"; lit "Lainnya" ].

(** The [validators] table.  Each entry that starts with
    [typeof value === "string" &&] is a match on [JString], and so is
    the strict equality with a string literal in [platform]. *)
Module validators.

Definition username (value : JSValue) : bool :=
  match value with
  | JString s =>
      (3 <=? length (trim s))%nat && (length (trim s) <=? 50)%nat
      && test re_username s
  | _ => false
  end.

Definition email (value : JSValue) : bool :=
  match value with
  | JString s => test re_email s && (length s <=? 100)%nat
  | _ => false
  end.

Definition gameId (value : JSValue) : bool :=
  if negb (ToBoolean value) then true
  else match value with
       | JString s => (length (trim s) <=? 50)%nat && test re_gameId s
       | _ => false
       end.

Definition platform (value : JSValue) : bool :=
  match value with
  | JString s => bool_decide (s = lit "PENASLOT")
  | _ => false
  end.

Definition issueType (value : JSValue) : bool :=
  match value with
  | JString s => bool_decide (s ∈ validIssueTypes)
  | _ => false
  end.

Definition description (value : JSValue) : bool :=
  match value with
  | JString s =>
      (0 <? length (trim s))%nat && (length (trim s) <=? 2000)%nat
  | _ => false
  end.

Definition dateOfIssue (H : Host) (now : Z) (value : JSValue) : bool :=
  let date := Date_new H value in
  let today := now in
  match date with
  | Some t => t <=? today
  | None => false
  end.

Definition phoneNumber (value : JSValue) : bool :=
  match value with
  | JString s => test re_phoneNumber s
  | _ => false
  end.

End validators.

Definition sanitize (input : JSValue) : JSValue :=
  match input with
  | JString s => JString (trim (replace_all re_tag s))
  | _ => input
  end.

Section Handler.
Variable H : Host.

(** The block that fills [validationErrors], one [if] per field in
    the order of the source. *)
Definition validationErrors (now : Z) (b : Body)
    : list (Field * jsstring) :=
  set_if (negb (validators.username (b username)))
    username "Username tidak valid"
  ++ set_if (negb (validators.email (b email)))
       email "Email tidak valid"
  ++ set_if (negb (validators.platform (b platform)))
       platform "Platform tidak valid"
  ++ set_if (negb (validators.issueType (b issueType)))
       issueType "Jenis issue tidak valid"
  ++ set_if (negb (validators.description (b description)))
       description "Deskripsi tidak valid"
  ++ set_if (negb (validators.dateOfIssue H now (b dateOfIssue)))
       dateOfIssue "Tanggal masalah tidak valid"
  ++ set_if (negb (validators.phoneNumber (b phoneNumber)))
       phoneNumber "Nomor telepon tidak valid"
  ++ set_if (negb (validators.gameId (b gameId)))
       gameId "ID game tidak valid".

Definition sanitizedData (b : Body) : Body := λ f, sanitize (b f).

Definition mailOptions (now : Z) (b : Body) : MailOptions :=
  let d := sanitizedData b in
  {| from := GMAIL_USER H;
     to := lit "teampenaslot@gmail.com";
     subject := lit "PENASLOT Complaint: " ++ ToString (d issueType)
                ++ lit " - " ++ ToString (d username)
                ++ lit " - " ++ refNumber now;
     text := nl ++ lit "PENASLOT Customer Complaint" ++ nl ++ nl
             ++ lit "Nomor Referensi: " ++ refNumber now ++ nl
             ++ lit "Username: " ++ ToString (d username) ++ nl
             ++ lit "Email: " ++ ToString (d email) ++ nl
             ++ lit "Nomor Whatsapp: " ++ ToString (d phoneNumber) ++ nl
             ++ lit "Platform: " ++ ToString (d platform) ++ nl
             ++ lit "Jenis Kendala: " ++ ToString (d issueType) ++ nl
             ++ lit "Game ID: "
             ++ ToString (js_or (d gameId) (JString (lit "N/A"))) ++ nl
             ++ lit "Tanggal: " ++ ToString (d dateOfIssue) ++ nl ++ nl
             ++ lit "Description:" ++ nl
             ++ ToString (d description) ++ nl
             ++ lit "      " |}.

(** The body of [app.post("/send-complaint", ..)] up to the call of
    [transport.sendMail]. *)
Definition handler (req : Request) (now : Z) : Outcome :=
  try_catch (
    rbind (destructure (body req)) (λ b,
      let errs := validationErrors now b in
      if (0 <? length errs)%nat then Ok (Respond (invalid_response errs))
      else Ok (SendMail (mailOptions now b) (refNumber now)))).

(** The callback given to [transport.sendMail]. *)
Definition sendMail_callback (ref : jsstring) (error : bool) : Response :=
  if error then error_response 500 "Gagal mengirim email"
  else success_response ref.

(** One submission, the relay answering with [error] or without. *)
Definition send_complaint (req : Request) (now : Z) (error : bool)
    : Response :=
  match handler req now with
  | Respond r => r
  | SendMail _ ref => sendMail_callback ref error
  end.

End Handler.
End Part000.

(** * src/server.js *)
Module Server.
Import RegExp.

(** ** The token store *)

Record TokenData := { token : jsstring; expires : Z }.

Abbreviation TokenStore := (gmap jsstring TokenData).

(** Code that works on the process-wide [tokenStore]. *)
Definition St (A : Type) : Type := TokenStore → A * TokenStore.

Global Instance St_ret : MRet St := λ A a m, (a, m).

Global Instance St_bind : MBind St :=
  λ A B f c m, let '(a, m') := c m in f a m'.

Definition ret {A} (a : A) : St A := mret a.

Definition Map_get (key : jsstring) : St (option TokenData) :=
  λ m, (m !! key, m).

Definition Map_set (key : jsstring) (data : TokenData) : St unit :=
  λ m, (tt, <[key := data]> m).

Definition Map_delete (key : jsstring) : St unit :=
  λ m, (tt, delete key m).

Definition Map_entries : St (list (jsstring * TokenData)) :=
  λ m, (map_to_list m, m).

(** [for (const x of l) body(x)] *)
Fixpoint for_of {A} (l : list A) (body : A → St unit) : St unit :=
  match l with
  | [] => ret tt
  | x :: l' => body x;; for_of l' body
  end.

(** ** Randomness *)

(** [crypto.randomBytes(n)]: [n] bytes of the entropy source. *)
Definition randomBytes (n : nat) (entropy : nat → N) : list N :=
  (λ i, (entropy i mod 256)%N) <$> seq 0 n.

Definition hexdigit (d : N) : cu :=
  if (d <? 10)%N then (48 + d)%N else (87 + d)%N.

(** [buf.toString("hex")] *)
Definition toString_hex (buf : list N) : jsstring :=
  buf ≫= λ b, [hexdigit (b / 16); hexdigit (b mod 16)].

Definition generateSecureToken (entropy : nat → N) (now : Z) : TokenData :=
  {| token := toString_hex (randomBytes 32 entropy);
     expires := now + 30 * 60 * 1000 |}.

(** ** GET /get-csrf-token *)

Record SetCookie := {
  value : jsstring;
  httpOnly : bool;
  secure : bool;
  sameSite_strict : bool;
  maxAge : Z
}.

Record TokenResponse := {
  t_status : Z;
  t_success : bool;
  set_sessionId : SetCookie;
  set_csrfToken : SetCookie
}.

(** A cookie read through [||] or [!]: absent and empty are both falsy. *)
Definition truthy (c : option jsstring) : option jsstring :=
  match c with
  | Some (x :: s) => Some (x :: s)
  | _ => None
  end.

Section Routes.
Variable H : Host.

Definition cookie (v : jsstring) : SetCookie :=
  {| value := v; httpOnly := true; secure := NODE_ENV_production H;
     sameSite_strict := true; maxAge := 30 * 60 * 1000 |}.

(** The loop that deletes the expired entries.  It runs over the
    entries present when it starts; it deletes only the entry it is
    visiting, so the live iteration of a [Map] visits the same ones. *)
Definition sweep (now : Z) : St unit :=
  entries ← Map_entries;
  for_of entries (λ '(key, data),
    if expires data <? now then Map_delete key else ret tt).

(** [e_sid] and [e_tok] are the entropy of the two [randomBytes]
    calls; the first is drawn only when the cookie is falsy. *)
Definition get_csrf_token (req : Request) (e_sid e_tok : nat → N)
    (now : Z) : St TokenResponse :=
  let sessionId :=
    match truthy (sessionId (cookies req)) with
    | Some s => s
    | None => toString_hex (randomBytes 16 e_sid)
    end in
  let tokenData := generateSecureToken e_tok now in
  Map_set sessionId tokenData;;
  Map_get sessionId;;
  sweep now;;
  ret {| t_status := 200; t_success := true;
         set_sessionId := cookie sessionId;
         set_csrfToken := cookie (token tokenData) |}.

(** ** The CSRF middleware *)

Inductive Middleware :=
| Next
| Responded (r : Response).

Definition validateCsrfToken (req : Request) (now : Z) : St Middleware :=
  match truthy (sessionId (cookies req)), truthy (csrfToken (cookies req)) with
  | Some sessionId, Some csrfToken =>
      storedTokenData ← Map_get sessionId;
      match storedTokenData with
      | Some d =>
          if negb (bool_decide (token d = csrfToken)) || (expires d <? now)
          then ret (Responded
                 (error_response 403 "Token CSRF tidak valid atau kedaluwarsa."))
          else ret Next
      | None =>
          ret (Responded
            (error_response 403 "Token CSRF tidak valid atau kedaluwarsa."))
      end
  | _, _ =>
      ret (Responded
        (error_response 403 "Gagal memverifikasi permintaan. Coba lagi."))
  end.

(** ** POST /send-complaint *)

Definition not_space : cu → bool := except is_space.

(** [/^\S+@\S+\.\S+$/] *)
Definition re_email : regex :=
  Seq Bol (Seq (plus not_space) (Seq (Chr (one "@"))
    (Seq (plus not_space) (Seq (Chr (one "."))
      (Seq (plus not_space) Eol))))).

(** [/^\+?[0-9]{10,15}$/] *)
Definition re_phoneNumber : regex :=
  Seq Bol (Seq (opt (one "+"))
    (Seq (Rep (range "0" "9") 10 (Some 15%nat)) Eol)).

(** [v.length]: a string has a length, a number or a boolean has
    none, reading a property of [undefined] or [null] throws. *)
Definition get_length (v : JSValue) : Result (option Z) :=
  match v with
  | JString s => Ok (Some (Z.of_nat (length s)))
  | JNumber _ | JBool _ => Ok None
  | JUndefined | JNull => Throw
  end.

(** [x < n] and [x > n] where [x] is a length or [undefined]. *)
Definition lt (x : option Z) (n : Z) : bool :=
  match x with Some l => l <? n | None => false end.
Definition gt (x : option Z) (n : Z) : bool :=
  match x with Some l => n <? l | None => false end.

(** [a || b] where evaluating [b] may throw. *)
Definition or_else (a : bool) (b : Result bool) : Result bool :=
  if a then Ok true else b.

(** The condition of each [if] of the validation block. *)
Definition bad_username (v : JSValue) : Result bool :=
  or_else (negb (ToBoolean v))
    (rbind (get_length v) (λ l, or_else (lt l 3)
      (rbind (get_length v) (λ l', Ok (gt l' 50))))).

Definition bad_email (v : JSValue) : Result bool :=
  or_else (negb (ToBoolean v)) (Ok (negb (test re_email (ToString v)))).

Definition bad_issueType (v : JSValue) : Result bool :=
  Ok (negb (ToBoolean v)).

Definition bad_description (v : JSValue) : Result bool :=
  or_else (negb (ToBoolean v))
    (rbind (get_length v) (λ l, Ok (gt l 2000))).

Definition bad_dateOfIssue (now : Z) (v : JSValue) : Result bool :=
  or_else (negb (ToBoolean v))
    (Ok match Date_new H v with
        | Some t => now <? t
        | None => false
        end).

Definition bad_phoneNumber (v : JSValue) : Result bool :=
  or_else (negb (ToBoolean v))
    (Ok (negb (test re_phoneNumber (ToString v)))).

(** The block that fills [validationErrors]. *)
Definition validationErrors (now : Z) (b : Body)
    : Result (list (Field * jsstring)) :=
  rbind (bad_username (b username)) (λ c1,
  rbind (bad_email (b email)) (λ c2,
  rbind (bad_issueType (b issueType)) (λ c3,
  rbind (bad_description (b description)) (λ c4,
  rbind (bad_dateOfIssue now (b dateOfIssue)) (λ c5,
  rbind (bad_phoneNumber (b phoneNumber)) (λ c6,
  Ok (set_if c1 username "Username tidak valid"
      ++ set_if c2 email "Email tidak valid"
      ++ set_if c3 issueType "Jenis keluhan tidak valid"
      ++ set_if c4 description "Deskripsi tidak valid"
      ++ set_if c5 dateOfIssue "Tanggal tidak valid"
      ++ set_if c6 phoneNumber "Nomor telepon tidak valid"))))))).

Definition mailOptions (now : Z) (b : Body) : MailOptions :=
  {| from := GMAIL_USER H;
     to := lit "teampenaslot@gmail.com";
     subject := lit "PENASLOT Complaint: " ++ ToString (b issueType)
                ++ lit " - " ++ ToString (b username)
                ++ lit " - " ++ refNumber now;
     text := nl ++ lit "PENASLOT Customer Complaint" ++ nl ++ nl
             ++ lit "Nomor Referensi: " ++ refNumber now ++ nl
             ++ lit "Username: " ++ ToString (b username) ++ nl
             ++ lit "Email: " ++ ToString (b email) ++ nl
             ++ lit "Nomor Whatsapp: " ++ ToString (b phoneNumber) ++ nl
             ++ lit "Platform: " ++ ToString (b platform) ++ nl
             ++ lit "Jenis Kendala: " ++ ToString (b issueType) ++ nl
             ++ lit "Game ID: "
             ++ ToString (js_or (b gameId) (JString (lit "N/A"))) ++ nl
             ++ lit "Tanggal: " ++ ToString (b dateOfIssue) ++ nl ++ nl
             ++ lit "Description:" ++ nl
             ++ ToString (b description) ++ nl
             ++ lit "      " |}.

(** The route handler up to the call of [transport.sendMail].  It
    does not touch the store. *)
Definition handler (req : Request) (now : Z) : Outcome :=
  try_catch (
    rbind (destructure (body req)) (λ b,
    rbind (validationErrors now b) (λ errs,
      if (0 <? length errs)%nat then Ok (Respond (invalid_response errs))
      else Ok (SendMail (mailOptions now b) (refNumber now))))).

(** The callback given to [transport.sendMail]; [req] is the request
    captured by the closure. *)
Definition sendMail_callback (req : Request) (ref : jsstring)
    (error : bool) : St Response :=
  if error then ret (error_response 500 "Gagal mengirim email")
  else
    match truthy (sessionId (cookies req)) with
    | Some sessionId => Map_delete sessionId
    | None => ret tt
    end;;
    ret (success_response ref).

(** One request to the route, after the rate limiter has let it
    through: the middleware, the handler, and the callback run
    with the relay answering [error] before any other request. *)
Definition send_complaint (req : Request) (now : Z) (error : bool)
    : St Response :=
  mw ← validateCsrfToken req now;
  match mw with
  | Responded r => ret r
  | Next =>
      match handler req now with
      | Respond r => ret r
      | SendMail _ ref => sendMail_callback req ref error
      end
  end.

End Routes.
End Server.


(** * src/server.js: the CORS policy *)
Module Cors.

(** [s.split(",")]: the pieces between the commas, in order; a string
    without a comma is one piece. *)
Fixpoint split_comma (s : jsstring) : list jsstring :=
  match s with
  | [] => [[]]
  | c :: t =>
      if RegExp.one "," c then [] :: split_comma t
      else match split_comma t with
           | p :: ps => (c :: p) :: ps
           | [] => [[c]]
           end
  end.

(** [process.env.ALLOWED_ORIGINS ? process.env.ALLOWED_ORIGINS.split(",")
    : ["https://laporanpenaslot.info"]]; an unset variable and an empty
    one are both falsy. *)
Definition allowedOrigins (env : option jsstring) : list jsstring :=
  match Server.truthy env with
  | Some e => split_comma e
  | None => [lit "https://laporanpenaslot.info"]
  end.

(** What the [origin] function hands to its callback: [callback(null,
    true)] or [callback(new Error(..))]. *)
Inductive Decision :=
| Allow
| Deny (message : jsstring).

(** The [origin] function of the CORS options; [origin] is the Origin
    header of the request, if any. *)
Definition origin (env : option jsstring) (origin : option jsstring)
    : Decision :=
  match Server.truthy origin with
  | None => Allow
  | Some o =>
      if bool_decide (o ∈ allowedOrigins env) then Allow
      else Deny (lit "Not allowed by CORS")
  end.

End Cors.

(** * Vocabulary of the statements *)

(** ** The token store *)
Module StoreSpec.
Import Server.

(** The store as every run of the server leaves it: no record is
    filed under the empty session identifier, no record holds the
    empty token. *)
Definition store_wf (m : TokenStore) : Prop :=
  ∀ (k : jsstring) (d : TokenData), m !! k = Some d → k ≠ [] ∧ token d ≠ [].

(** The body of the sweeping loop. *)
Definition sweep_body (now : Z) : jsstring * TokenData → St unit :=
  λ '(key, data), if expires data <? now then Map_delete key else ret tt.

(** The middleware answered 403 with [success: false]. *)
Definition rejected_403 (mw : Middleware) : Prop :=
  ∃ r, mw = Responded r ∧ status r = 403 ∧ success r = false.

(** The cookies a browser sends back after a token response. *)
Definition cookies_of (r : TokenResponse) : Cookies :=
  {| sessionId := Some (value (set_sessionId r));
     csrfToken := Some (value (set_csrfToken r)) |}.

(** The steps of the server that run on the store. *)
Inductive Event :=
| GetCsrfToken (req : Request) (e_sid e_tok : nat → N) (now : Z)
| ValidateCsrfToken (req : Request) (now : Z)
| SendMailCallback (req : Request) (ref : jsstring) (error : bool).

Definition step (H : Host) (ev : Event) : St unit :=
  match ev with
  | GetCsrfToken req e_sid e_tok now =>
      get_csrf_token H req e_sid e_tok now;; ret tt
  | ValidateCsrfToken req now =>
      validateCsrfToken req now;; ret tt
  | SendMailCallback req ref error =>
      sendMail_callback req ref error;; ret tt
  end.

(** The session identifier that the token route files the record
    under. *)
Definition issued_sid (req : Request) (e_sid : nat → N) : jsstring :=
  match truthy (sessionId (cookies req)) with
  | Some s => s
  | None => toString_hex (randomBytes 16 e_sid)
  end.

(** The stores that the server can be in: the empty store of a fresh
    process, and what a step makes of a store it can be in. *)
Inductive reachable (H : Host) : TokenStore → Prop :=
| reachable_init : reachable H ∅
| reachable_step ev m : reachable H m → reachable H (step H ev m).2.

(** The reading of the validity rule in the data model of the
    specification: valid iff the current time is strictly before the
    expiry. *)
Definition valid_strict (d : TokenData) (now : Z) : Prop := now < expires d.

(** The rejection rule of the validation step with that reading. *)
Definition rejects_iff_strict (req : Request) (now : Z) (m : TokenStore)
    : Prop :=
  rejected_403 (validateCsrfToken req now m).1 ↔
    sessionId (cookies req) = None ∨ csrfToken (cookies req) = None ∨
    ∃ sid tok, sessionId (cookies req) = Some sid ∧
               csrfToken (cookies req) = Some tok ∧
               (m !! sid = None ∨
                ∃ d, m !! sid = Some d ∧
                     (token d ≠ tok ∨ ¬ valid_strict d now)).

End StoreSpec.

(** ** Field validation *)
Module FieldSpec.

(** The entry of the [validators] table of part_000 for a key. *)
Definition part000_valid (H : Host) (now : Z) (f : Field) (v : JSValue)
    : bool :=
  match f with
  | username => Part000.validators.username v
  | email => Part000.validators.email v
  | gameId => Part000.validators.gameId v
  | platform => Part000.validators.platform v
  | issueType => Part000.validators.issueType v
  | description => Part000.validators.description v
  | dateOfIssue => Part000.validators.dateOfIssue H now v
  | phoneNumber => Part000.validators.phoneNumber v
  end.

(** The condition that server.js tests for a key; it has no test for
    [platform] and [gameId]. *)
Definition server_check (H : Host) (now : Z) (f : Field) (v : JSValue)
    : Result bool :=
  match f with
  | username => Server.bad_username v
  | email => Server.bad_email v
  | issueType => Server.bad_issueType v
  | description => Server.bad_description v
  | dateOfIssue => Server.bad_dateOfIssue H now v
  | phoneNumber => Server.bad_phoneNumber v
  | platform | gameId => Ok false
  end.

Definition server_invalid (H : Host) (now : Z) (f : Field) (v : JSValue)
    : bool :=
  match server_check H now f v with
  | Ok c => c
  | Throw => false
  end.

(** An [errors] object that is exhaustive for the predicate [invalid]:
    one entry per invalid key, none for a valid key, every message
    non-empty. *)
Definition exhaustive (invalid : Field → bool)
    (errs : list (Field * jsstring)) : Prop :=
  NoDup errs.*1
  ∧ (∀ f, f ∈ errs.*1 ↔ invalid f = true)
  ∧ (∀ f msg, (f, msg) ∈ errs → msg ≠ []).

(** The block of [if]s over a table of keys and messages. *)
Definition collect (invalid : Field → bool) (table : list (Field * string))
    : list (Field * jsstring) :=
  table ≫= λ '(f, msg), set_if (invalid f) f msg.

Definition part000_table : list (Field * string) :=
  [ (username, "Username tidak valid"); (email, "Email tidak valid");
    (platform, "Platform tidak valid");
    (issueType, "Jenis issue tidak valid");
    (description, "Deskripsi tidak valid");
    (dateOfIssue, "Tanggal masalah tidak valid");
    (phoneNumber, "Nomor telepon tidak valid");
    (gameId, "ID game tidak valid") ]%string.

Definition server_table : list (Field * string) :=
  [ (username, "Username tidak valid"); (email, "Email tidak valid");
    (issueType, "Jenis keluhan tidak valid");
    (description, "Deskripsi tidak valid");
    (dateOfIssue, "Tanggal tidak valid");
    (phoneNumber, "Nomor telepon tidak valid") ]%string.

(** The [k] low decimal digits of [n], zero padded. *)
Fixpoint fixed_digits (k : nat) (n : N) : jsstring :=
  match k with
  | O => []
  | S k' => fixed_digits k' (n / 10) ++ [digit (n mod 10)]
  end.

(** The number written by a string of decimal digits. *)
Fixpoint decimal_from (acc : N) (s : jsstring) : option N :=
  match s with
  | [] => Some acc
  | c :: t => if ((48 <=? c) && (c <=? 57))%N
              then decimal_from (10 * acc + (c - 48)) t
              else None
  end.

Definition decimal (s : jsstring) : option N := decimal_from 0 s.

(** The mail body with every value of the request body, [gameId]
    included, put in as it is: the reading of the claim on the mail of
    server.js before amendment. *)
Definition verbatim_text (now : Z) (b : Body) : jsstring :=
  nl ++ lit "PENASLOT Customer Complaint" ++ nl ++ nl
  ++ lit "Nomor Referensi: " ++ refNumber now ++ nl
  ++ lit "Username: " ++ ToString (b username) ++ nl
  ++ lit "Email: " ++ ToString (b email) ++ nl
  ++ lit "Nomor Whatsapp: " ++ ToString (b phoneNumber) ++ nl
  ++ lit "Platform: " ++ ToString (b platform) ++ nl
  ++ lit "Jenis Kendala: " ++ ToString (b issueType) ++ nl
  ++ lit "Game ID: " ++ ToString (b gameId) ++ nl
  ++ lit "Tanggal: " ++ ToString (b dateOfIssue) ++ nl ++ nl
  ++ lit "Description:" ++ nl
  ++ ToString (b description) ++ nl
  ++ lit "      ".

(** The claim on the mail of server.js before amendment, at one
    request: the mail handed to the relay has that body. *)
Definition mail_verbatim (H : Host) (req : Request) (b : Body) (now : Z)
    : Prop :=
  ∀ mail ref, Server.handler H req now = SendMail mail ref →
              text mail = verbatim_text now b.

(** The same with the placeholder that the template puts for a falsy
    [gameId]. *)
Definition raw_text (now : Z) (b : Body) : jsstring :=
  nl ++ lit "PENASLOT Customer Complaint" ++ nl ++ nl
  ++ lit "Nomor Referensi: " ++ refNumber now ++ nl
  ++ lit "Username: " ++ ToString (b username) ++ nl
  ++ lit "Email: " ++ ToString (b email) ++ nl
  ++ lit "Nomor Whatsapp: " ++ ToString (b phoneNumber) ++ nl
  ++ lit "Platform: " ++ ToString (b platform) ++ nl
  ++ lit "Jenis Kendala: " ++ ToString (b issueType) ++ nl
  ++ lit "Game ID: "
  ++ (if ToBoolean (b gameId) then ToString (b gameId) else lit "N/A") ++ nl
  ++ lit "Tanggal: " ++ ToString (b dateOfIssue) ++ nl ++ nl
  ++ lit "Description:" ++ nl
  ++ ToString (b description) ++ nl
  ++ lit "      ".

Definition raw_subject (now : Z) (b : Body) : jsstring :=
  lit "PENASLOT Complaint: " ++ ToString (b issueType)
  ++ lit " - " ++ ToString (b username) ++ lit " - " ++ refNumber now.

End FieldSpec.

(** ** Text: the username rule and the sanitizer *)
Module TextSpec.

(** The charset of the username rule, in the words of the
    specification: [A-Za-z0-9_]. *)
Definition in_charset (c : cu) : Prop :=
  (65 ≤ c ≤ 90 ∨ 97 ≤ c ≤ 122 ∨ 48 ≤ c ≤ 57 ∨ c = 95)%N.

(** The username rule, in the words of the specification: a string,
    trimmed length in [3,50], characters in the charset. *)
Definition username_rule (v : JSValue) : Prop :=
  ∃ s, v = JString s
       ∧ (3 ≤ length (trim s) ≤ 50)%nat
       ∧ Forall in_charset s.

(** What a pattern matches, read off its syntax: [Matches r i s j u]
    when [r] matches at index [i], where the input is [s], up to index
    [j], where the input is [u]. *)
Inductive Matches : RegExp.regex → nat → jsstring → nat → jsstring → Prop :=
| Matches_Eps i s : Matches RegExp.Eps i s i s
| Matches_Chr p c i t :
    p c = true → Matches (RegExp.Chr p) i (c :: t) (S i) t
| Matches_Rep p lo hi i w u :
    forallb p w = true → (lo ≤ length w)%nat →
    (∀ h, hi = Some h → (length w ≤ h)%nat) →
    Matches (RegExp.Rep p lo hi) i (w ++ u) (i + length w) u
| Matches_Seq r1 r2 i s j t k u :
    Matches r1 i s j t → Matches r2 j t k u →
    Matches (RegExp.Seq r1 r2) i s k u
| Matches_Alt_l r1 r2 i s j u :
    Matches r1 i s j u → Matches (RegExp.Alt r1 r2) i s j u
| Matches_Alt_r r1 r2 i s j u :
    Matches r2 i s j u → Matches (RegExp.Alt r1 r2) i s j u
| Matches_Bol s : Matches RegExp.Bol 0 s 0 s
| Matches_Eol i : Matches RegExp.Eol i [] i [].

(** The continuation that accepts at the end of the input. *)
Definition at_end (i : nat) (t : jsstring) : option jsstring :=
  RegExp.m RegExp.Eol i t (λ _ u, Some u).

(** The continuation [(>|$)] of the tag pattern. *)
Definition tag_end (i : nat) (t : jsstring) : option jsstring :=
  RegExp.m (RegExp.Alt (RegExp.Chr (RegExp.one ">")) RegExp.Eol) i t
    (λ _ u, Some u).

(** The input after the first [>], empty when there is none. *)
Fixpoint after_gt (s : jsstring) : jsstring :=
  match s with
  | [] => []
  | c :: t => if RegExp.one ">" c then t else after_gt t
  end.

(** No [<] of the string is followed by a code unit other than [>]. *)
Fixpoint clean (s : jsstring) : bool :=
  match s with
  | c :: t =>
      match t with
      | d :: _ => negb (RegExp.one "<" c && negb (RegExp.one ">" d))
      | [] => true
      end && clean t
  | [] => true
  end.

(** A tag-like substring starts at the split [pre ++ t]: the pattern of
    [sanitize] matches there. *)
Definition tag_like_at (pre t : jsstring) : Prop :=
  is_Some (RegExp.match_at Part000.re_tag (length pre) t).

(** No surrounding whitespace. *)
Definition trimmed (s : jsstring) : Prop :=
  (∀ c t, s = c :: t → is_space c = false)
  ∧ (∀ c t, s = t ++ [c] → is_space c = false).

End TextSpec.

(** ** A sample host and sample requests *)
Module Sample.
Import Server.

Definition digit_val (c : cu) : option Z :=
  if ((48 <=? c) && (c <=? 57))%N then Some (Z.of_N c - 48) else None.

Fixpoint number (acc : Z) (ds : list cu) : option Z :=
  match ds with
  | [] => Some acc
  | c :: t => match digit_val c with
              | Some v => number (10 * acc + v) t
              | None => None
              end
  end.

Definition leap (y : Z) : bool :=
  (y mod 4 =? 0) && (negb (y mod 100 =? 0) || (y mod 400 =? 0)).

Definition days_in_month (y mo : Z) : Z :=
  if mo =? 2 then (if leap y then 29 else 28)
  else if (mo =? 4) || (mo =? 6) || (mo =? 9) || (mo =? 11) then 30
  else 31.

(** Days from 1970-01-01 to the civil date, proleptic Gregorian. *)
Definition days_from_civil (y mo d : Z) : Z :=
  let y' := if mo <=? 2 then y - 1 else y in
  let era := y' / 400 in
  let yoe := y' - era * 400 in
  let mp := if mo <=? 2 then mo + 9 else mo - 3 in
  let doy := (153 * mp + 2) / 5 + d - 1 in
  let doe := yoe * 365 + yoe / 4 - yoe / 100 + doy in
  era * 146097 + doe - 719468.

(** The date-only form [YYYY-MM-DD] of the Date Time String Format,
    read as UTC midnight; any other string is an Invalid Date here. *)
Definition parse_iso_date (s : jsstring) : option Z :=
  match s with
  | [y1; y2; y3; y4; h1; m1; m2; h2; d1; d2] =>
      if ((h1 =? 45) && (h2 =? 45))%N then
        match number 0 [y1; y2; y3; y4], number 0 [m1; m2],
              number 0 [d1; d2] with
        | Some y, Some mo, Some d =>
            if (1 <=? mo) && (mo <=? 12) && (1 <=? d)
               && (d <=? days_in_month y mo)
            then Some (days_from_civil y mo d * 86400000)
            else None
        | _, _, _ => None
        end
      else None
  | _ => None
  end.

Definition host : Host :=
  {| Date_parse := parse_iso_date;
     GMAIL_USER := JString (lit "relay@example.com");
     NODE_ENV_production := true |}.

(** 2024-11-03T06:47:00.123Z *)
Definition now : Z := 1730616420123.

(** A submission that meets every constraint of both programs. *)
Definition good : Body := λ f,
  match f with
  | username => JString (lit "budi_88")
  | email => JString (lit "budi@example.com")
  | gameId => JString (lit "G-1024")
  | platform => JString (lit "PENASLOT")
  | issueType => JString (lit "Kerusakan Game")
  | description => JString (lit "Permainan berhenti saat putaran bonus.")
  | dateOfIssue => JString (lit "2024-11-01")
  | phoneNumber => JString (lit "+6281234567890")
  end.

(** [b] with the value of key [f] replaced by [v]. *)
Definition with_field (b : Body) (f : Field) (v : JSValue) : Body :=
  λ g, if decide (g = f) then v else b g.

Definition sid : jsstring := lit "5f2c9a1e0b7d4c3a8e6f1a2b3c4d5e6f".
Definition tok : jsstring :=
  lit "9b1de2a47c03f85566aa10ffe2c4b7d8019a3c5e7f2b4d6a8c0e1f3a5b7c9d0e".

Definition jar : Cookies := {| sessionId := Some sid; csrfToken := Some tok |}.

Definition request (b : Body) : Request :=
  {| cookies := jar; body := Some b |}.

Definition no_cookies : Request :=
  {| cookies := {| sessionId := None; csrfToken := None |};
     body := Some good |}.

Definition entropy_a : nat → N := λ i, (37 * N.of_nat i + 11)%N.
Definition entropy_b : nat → N := λ i, (101 * N.of_nat i + 7)%N.

(** A first visit: the token route on an empty store, then a
    submission one minute later with the cookies it set. *)
Definition issued : TokenResponse * TokenStore :=
  get_csrf_token host no_cookies entropy_a entropy_b now ∅.

Definition submission : Request :=
  {| cookies := StoreSpec.cookies_of issued.1; body := Some good |}.

Definition posted : Response * TokenStore :=
  send_complaint host submission (now + 60000) false issued.2.

End Sample.

(** ** Tokens as hexadecimal strings *)
Module HexSpec.
Import Server.

(** A lowercase hexadecimal digit. *)
Definition is_hex (c : cu) : bool :=
  ((48 <=? c) && (c <=? 57) || (97 <=? c) && (c <=? 102))%N.

Definition unhexdigit (c : cu) : N :=
  if (c <=? 57)%N then (c - 48)%N else (c - 87)%N.

(** The bytes that a hexadecimal string writes, two digits a byte. *)
Fixpoint unhex (s : jsstring) : list N :=
  match s with
  | h :: l :: t => (16 * unhexdigit h + unhexdigit l)%N :: unhex t
  | _ => []
  end.

(** Every record of the store is filed under a non-empty session
    identifier and holds a token of 64 hexadecimal digits. *)
Definition store_inv (m : TokenStore) : Prop :=
  ∀ (k : jsstring) (d : TokenData), m !! k = Some d →
    k ≠ [] ∧ length (token d) = 64%nat ∧ forallb is_hex (token d) = true.

End HexSpec.

(** ** The formats that the patterns accept *)
Module FormatSpec.

Definition is_digit (c : cu) : Prop := (48 ≤ c ≤ 57)%N.

(** An optional [+], then 10 to 15 decimal digits. *)
Definition phone_rule (s : jsstring) : Prop :=
  ∃ ds, (s = ds ∨ s = chr "+" :: ds)
        ∧ (10 ≤ length ds ≤ 15)%nat ∧ Forall is_digit ds.

(** [local@domain.tld]: three non-empty parts of code units that are
    [ok], the first two separated by [@], the last two by a dot. *)
Definition email_shape (ok : cu → Prop) (s : jsstring) : Prop :=
  ∃ a b c, s = a ++ chr "@" :: b ++ chr "." :: c
           ∧ a ≠ [] ∧ b ≠ [] ∧ c ≠ []
           ∧ Forall ok a ∧ Forall ok b ∧ Forall ok c.

(** A letter, a digit, an underscore or a hyphen. *)
Definition gameId_char (c : cu) : Prop :=
  TextSpec.in_charset c ∨ c = chr "-".

End FormatSpec.

(** ** The list of allowed origins *)
Module CorsSpec.

(** [pieces.join(",")] *)
Fixpoint join_comma (pieces : list jsstring) : jsstring :=
  match pieces with
  | [] => []
  | p :: rest =>
      match rest with
      | [] => p
      | _ :: _ => p ++ chr "," :: join_comma rest
      end
  end.

Definition comma_free (x : jsstring) : Prop := chr "," ∉ x.

End CorsSpec.

(** ** The field constraints of the specification *)
Module RuleSpec.
Import TextSpec FormatSpec.

(** The constraints of the Validator (section 4.1 of the specification),
    one per field, in its words.  A constraint on a length, a charset
    or a shape is a constraint on a string.  Where the words leave the
    reading open, the reading is:
    - "a simple local@domain.tld shape": three non-empty parts without
      whitespace and without [@], separated by [@] and by a dot;
    - "optional; if present": no value is given when the field is
      missing, [null], empty or otherwise falsy;
    - "a fixed literal tag", "a fixed closed set of category labels":
      the tag [PENASLOT] and the eight labels of the deployment;
    - "parses as a valid calendar date": the host's [Date] makes a
      valid date of the value. *)

Definition email_rule (v : JSValue) : Prop :=
  ∃ s, v = JString s ∧ (length s ≤ 100)%nat
       ∧ email_shape (λ c, is_space c = false ∧ c ≠ chr "@") s.

Definition gameId_rule (v : JSValue) : Prop :=
  ToBoolean v = false
  ∨ ∃ s, v = JString s ∧ (length (trim s) ≤ 50)%nat ∧ Forall gameId_char s.

Definition platform_rule (v : JSValue) : Prop := v = JString (lit "PENASLOT").

Definition issueType_rule (v : JSValue) : Prop :=
  ∃ s, v = JString s ∧ s ∈ Part000.validIssueTypes.

Definition description_rule (v : JSValue) : Prop :=
  ∃ s, v = JString s ∧ (0 < length (trim s) ≤ 2000)%nat.

Definition dateOfIssue_rule (H : Host) (now : Z) (v : JSValue) : Prop :=
  ∃ t, Date_new H v = Some t ∧ t ≤ now.

Definition phoneNumber_rule (v : JSValue) : Prop :=
  ∃ s, v = JString s ∧ phone_rule s.

Definition field_rule (H : Host) (now : Z) (f : Field) (v : JSValue) : Prop :=
  match f with
  | username => username_rule v
  | email => email_rule v
  | gameId => gameId_rule v
  | platform => platform_rule v
  | issueType => issueType_rule v
  | description => description_rule v
  | dateOfIssue => dateOfIssue_rule H now v
  | phoneNumber => phoneNumber_rule v
  end.

(** An [errors] object that is exhaustive for the constraints: one
    entry for each field that breaks its constraint, none for a field
    that meets it, every message non-empty. *)
Definition exhaustive_for (valid : Field → Prop)
    (errs : list (Field * jsstring)) : Prop :=
  NoDup errs.*1
  ∧ (∀ f, f ∈ errs.*1 ↔ ¬ valid f)
  ∧ (∀ f msg, (f, msg) ∈ errs → msg ≠ []).

End RuleSpec.

(** ** Submissions on which server.js leaves the specification *)
Module Faults.

(** One minute after the token of the sample was issued. *)
Definition now : Z := Sample.now + 60000.

(** The sample submission with another platform. *)
Definition other_platform : Body :=
  Sample.with_field Sample.good platform (JString (lit "OTHER")).

(** A description of 1999 letters followed by two blanks: 1999 code
    units once trimmed, 2001 as it is. *)
Definition padded : jsstring := replicate 1999 (chr "a") ++ [chr " "; chr " "].

Definition padded_description : Body :=
  Sample.with_field Sample.good description (JString padded).

(** A request with the cookies of the sample token response. *)
Definition request (b : Body) : Request :=
  {| cookies := StoreSpec.cookies_of Sample.issued.1; body := Some b |}.

End Faults.

(** ** The mail of part_000 *)
Module MailSpec.

(** The submission as the mail of part_000 shows it when the other
    five fields are left as they are: the email, the date and the
    description sanitized. *)
Definition free_text_sanitized (b : Body) : Body :=
  λ f, match f with
       | email | dateOfIssue | description => Part000.sanitize (b f)
       | _ => b f
       end.

End MailSpec.

(** * Properties of the token store (src/server.js) *)

Section StRun.
Import Server.

Lemma bind_run {A B} (c : St A) (f : A → St B) (m : TokenStore) :
  (c ≫= f) m = f (c m).1 (c m).2.
Proof. unfold mbind, St_bind. destruct (c m). reflexivity. Qed.

Lemma for_of_cons {A} (x : A) (l : list A) (f : A → St unit)
    (m : TokenStore) :
  (for_of (x :: l) f m).2 = (for_of l f (f x m).2).2.
Proof. cbn [for_of]. rewrite bind_run. reflexivity. Qed.
End StRun.

Ltac st_run :=
  rewrite ?bind_run;
  unfold Server.Map_get, Server.Map_set, Server.Map_delete,
    Server.Map_entries, Server.ret, mret, Server.St_ret;
  cbn [fst snd].


Section TokenStoreFacts.
Import Server StoreSpec.

Implicit Types (m : TokenStore) (req : Request) (now : Z).

Lemma truthy_Some (c : option jsstring) (s : jsstring) :
  truthy c = Some s ↔ c = Some s ∧ s ≠ [].
Proof.
  destruct c as [[|x t]|]; simpl; split.
  - discriminate.
  - intros [[= <-] Hne]. contradiction.
  - intros [= <-]. split; [reflexivity | discriminate].
  - intros [[= <-] _]. reflexivity.
  - discriminate.
  - intros [? _]. discriminate.
Qed.

Lemma toString_hex_nonempty (n : nat) (e : nat → N) :
  toString_hex (randomBytes (S n) e) ≠ [].
Proof. unfold toString_hex, randomBytes. simpl. discriminate. Qed.

(** *** The sweep *)

Lemma sweep_body_store now k d m :
  (sweep_body now (k, d) m).2 = if expires d <? now then delete k m else m.
Proof. cbn. destruct (expires d <? now); reflexivity. Qed.

Lemma for_of_sweep_None now (l : list (jsstring * TokenData)) m k :
  m !! k = None → (for_of l (sweep_body now) m).2 !! k = None.
Proof.
  revert m. induction l as [|[k' d'] l IH]; intros m Hm; [exact Hm|].
  rewrite for_of_cons, sweep_body_store. apply IH.
  destruct (expires d' <? now); [|exact Hm].
  rewrite lookup_delete. case_decide; [reflexivity | exact Hm].
Qed.

Lemma for_of_sweep_gone now (l : list (jsstring * TokenData)) m k d :
  (k, d) ∈ l → expires d < now →
  (for_of l (sweep_body now) m).2 !! k = None.
Proof.
  revert m. induction l as [|[k' d'] l IH]; intros m Hin Hexp.
  - inversion Hin.
  - rewrite for_of_cons, sweep_body_store.
    apply elem_of_cons in Hin as [[= <- <-]|Hl].
    + destruct (Z.ltb_spec (expires d) now); [|lia].
      apply for_of_sweep_None, lookup_delete_eq.
    + apply IH; assumption.
Qed.

Lemma for_of_sweep_kept now (l : list (jsstring * TokenData)) m k :
  (∀ d, (k, d) ∈ l → ¬ expires d < now) →
  (for_of l (sweep_body now) m).2 !! k = m !! k.
Proof.
  revert m. induction l as [|[k' d'] l IH]; intros m Hk; [reflexivity|].
  rewrite for_of_cons, sweep_body_store.
  rewrite IH by (intros d Hd; apply Hk; right; exact Hd).
  destruct (Z.ltb_spec (expires d') now) as [Hlt|Hge]; [|reflexivity].
  apply lookup_delete_ne. intros ->. apply (Hk d'); [left | exact Hlt].
Qed.

Lemma sweep_unfold now m :
  sweep now m = for_of (map_to_list m) (sweep_body now) m.
Proof. reflexivity. Qed.

(** After the loop a record is there iff it was there and its expiry
    is not before [now]. *)
Lemma sweep_lookup now m k :
  (sweep now m).2 !! k =
    match m !! k with
    | Some d => if expires d <? now then None else Some d
    | None => None
    end.
Proof.
  rewrite sweep_unfold.
  destruct (m !! k) as [d|] eqn:Hk.
  - destruct (Z.ltb_spec (expires d) now) as [Hlt|Hge].
    + apply for_of_sweep_gone with d; [|exact Hlt].
      apply elem_of_map_to_list. exact Hk.
    + rewrite for_of_sweep_kept; [exact Hk|].
      intros d' Hd'. apply elem_of_map_to_list in Hd'.
      rewrite Hk in Hd'. injection Hd' as <-. lia.
  - rewrite for_of_sweep_kept; [exact Hk|].
    intros d' Hd'. apply elem_of_map_to_list in Hd'. congruence.
Qed.

(** *** The middleware *)

Lemma validateCsrfToken_frame req now m :
  (validateCsrfToken req now m).2 = m.
Proof.
  unfold validateCsrfToken.
  destruct (truthy (sessionId (cookies req))) as [sid|]; [|reflexivity].
  destruct (truthy (csrfToken (cookies req))) as [tok|]; [|reflexivity].
  st_run. destruct (m !! sid) as [d|]; [|reflexivity].
  destruct (negb _ || _); reflexivity.
Qed.

Lemma validateCsrfToken_outcomes req now m :
  (validateCsrfToken req now m).1 = Next ∨
  ∃ msg, (validateCsrfToken req now m).1
           = Responded (error_response 403 msg).
Proof.
  unfold validateCsrfToken.
  destruct (truthy (sessionId (cookies req))) as [sid|]; [|right; eauto].
  destruct (truthy (csrfToken (cookies req))) as [tok|]; [|right; eauto].
  st_run. destruct (m !! sid) as [d|]; [|right; eauto].
  destruct (negb _ || _); [right; eauto | left; reflexivity].
Qed.

Lemma validateCsrfToken_cases req now m :
  (validateCsrfToken req now m).1 = Next ∨
  rejected_403 (validateCsrfToken req now m).1.
Proof.
  destruct (validateCsrfToken_outcomes req now m) as [Hn|[msg Hr]];
    [left; exact Hn | right].
  rewrite Hr. eexists. split; [reflexivity|]. split; reflexivity.
Qed.

Lemma rejected_403_not_Next (mw : Middleware) :
  rejected_403 mw → mw ≠ Next.
Proof. intros (r & -> & _). discriminate. Qed.

(** The middleware lets a request through exactly when both cookies
    are non-empty, a record is filed under the session identifier,
    its token is the cookie's, and its expiry is not before [now]. *)
Lemma validateCsrfToken_Next req now m :
  (validateCsrfToken req now m).1 = Next ↔
  ∃ sid tok d,
    sessionId (cookies req) = Some sid ∧ sid ≠ [] ∧
    csrfToken (cookies req) = Some tok ∧ tok ≠ [] ∧
    m !! sid = Some d ∧ token d = tok ∧ now ≤ expires d.
Proof.
  unfold validateCsrfToken. split.
  - destruct (truthy (sessionId (cookies req))) as [sid|] eqn:Hs;
      [|discriminate].
    destruct (truthy (csrfToken (cookies req))) as [tok|] eqn:Ht;
      [|discriminate].
    apply truthy_Some in Hs as [Hs Hs'], Ht as [Ht Ht'].
    st_run. destruct (m !! sid) as [d|] eqn:Hd; [|discriminate].
    case_bool_decide as Htok; cbn; [|discriminate].
    destruct (Z.ltb_spec (expires d) now); [discriminate|].
    intros _. exists sid, tok, d. repeat split; assumption.
  - intros (sid & tok & d & Hs & Hs' & Ht & Ht' & Hd & Htok & Hexp).
    rewrite (proj2 (truthy_Some _ sid)), (proj2 (truthy_Some _ tok))
      by (split; assumption).
    st_run. rewrite Hd. rewrite bool_decide_eq_true_2 by exact Htok. cbn.
    destruct (Z.ltb_spec (expires d) now); [lia | reflexivity].
Qed.

End TokenStoreFacts.

(** ** Issuance *)

Section Issuance.
Import Server StoreSpec.
Variable H : Host.

Implicit Types (m : TokenStore) (req : Request) (now : Z).

Lemma get_csrf_token_run req e_sid e_tok now m :
  get_csrf_token H req e_sid e_tok now m =
    ({| t_status := 200; t_success := true;
        set_sessionId := cookie H (issued_sid req e_sid);
        set_csrfToken := cookie H (token (generateSecureToken e_tok now)) |},
     (sweep now (<[issued_sid req e_sid := generateSecureToken e_tok now]> m)).2).
Proof. unfold get_csrf_token. st_run. reflexivity. Qed.

Lemma issued_sid_nonempty req e_sid : issued_sid req e_sid ≠ [].
Proof.
  unfold issued_sid.
  destruct (truthy (sessionId (cookies req))) as [s|] eqn:Hs.
  - apply truthy_Some in Hs. tauto.
  - apply toString_hex_nonempty.
Qed.

Lemma get_csrf_token_sid req e_sid e_tok now m :
  value (set_sessionId (get_csrf_token H req e_sid e_tok now m).1)
    = issued_sid req e_sid.
Proof. rewrite get_csrf_token_run. reflexivity. Qed.

Lemma get_csrf_token_lookup_own req e_sid e_tok now m :
  (get_csrf_token H req e_sid e_tok now m).2 !! issued_sid req e_sid
    = Some (generateSecureToken e_tok now).
Proof.
  rewrite get_csrf_token_run. cbn [snd].
  rewrite sweep_lookup, lookup_insert_eq. cbn [generateSecureToken expires].
  destruct (Z.ltb_spec (now + 30 * 60 * 1000) now); [lia | reflexivity].
Qed.

Lemma store_wf_empty : store_wf ∅.
Proof. intros k d Hk. rewrite lookup_empty in Hk. discriminate. Qed.

Lemma store_wf_delete k m : store_wf m → store_wf (delete k m).
Proof.
  intros Hwf k' d Hl. apply lookup_delete_Some in Hl as [_ Hl].
  exact (Hwf _ _ Hl).
Qed.

(** The invariant is kept by the token route ... *)
Lemma store_wf_get_csrf_token req e_sid e_tok now m :
  store_wf m → store_wf (get_csrf_token H req e_sid e_tok now m).2.
Proof.
  intros Hwf k d. rewrite get_csrf_token_run. cbn [snd].
  rewrite sweep_lookup, lookup_insert.
  case_decide as Hk.
  - subst k. cbn [generateSecureToken expires].
    destruct (_ <? _); [discriminate|]. intros [= <-].
    split; [apply issued_sid_nonempty | apply toString_hex_nonempty].
  - destruct (m !! k) as [d'|] eqn:Hl; cbn; [|discriminate].
    destruct (_ <? _); [discriminate|]. intros [= <-].
    exact (Hwf _ _ Hl).
Qed.

Lemma sendMail_callback_store req ref error m :
  (sendMail_callback req ref error m).2 =
    match truthy (sessionId (cookies req)), error with
    | Some sid, false => delete sid m
    | _, _ => m
    end.
Proof.
  unfold sendMail_callback. destruct error.
  - destruct (truthy _); reflexivity.
  - st_run. destruct (truthy _); reflexivity.
Qed.

Lemma sendMail_callback_response req ref error m :
  (sendMail_callback req ref error m).1 =
    if error then error_response 500 "Gagal mengirim email"
    else success_response ref.
Proof.
  unfold sendMail_callback. destruct error; [reflexivity|].
  st_run. reflexivity.
Qed.

(** ... and by the submission route. *)
Lemma store_wf_send_complaint req now error m :
  store_wf m → store_wf (send_complaint H req now error m).2.
Proof.
  intros Hwf. unfold send_complaint. rewrite bind_run.
  rewrite validateCsrfToken_frame.
  destruct (validateCsrfToken req now m).1; [|exact Hwf].
  destruct (handler H req now); [exact Hwf|].
  rewrite sendMail_callback_store.
  destruct (truthy _), error; auto using store_wf_delete.
Qed.

(** Every store the server can be in is well formed. *)
Lemma reachable_store_wf m : reachable H m → store_wf m.
Proof.
  induction 1 as [|ev m _ IH]; [apply store_wf_empty|].
  destruct ev as [rq e_sid e_tok t | rq t | rq ref error]; unfold step;
    rewrite bind_run; cbn [Server.ret mret St_ret snd].
  - apply store_wf_get_csrf_token, IH.
  - rewrite validateCsrfToken_frame. exact IH.
  - rewrite sendMail_callback_store.
    destruct (truthy _), error; auto using store_wf_delete.
Qed.

(** What the synchronous part of the handler can come to. *)
Lemma handler_cases req now :
  (∃ r, handler H req now = Respond r ∧
        (status r = 400 ∨ status r = 500) ∧
        success r = false ∧ referenceNumber r = None) ∨
  (∃ b, body req = Some b ∧ validationErrors H now b = Ok [] ∧
        handler H req now = SendMail (mailOptions H now b) (refNumber now)).
Proof.
  unfold handler. destruct (body req) as [b|]; cbn [destructure rbind].
  - destruct (validationErrors H now b) as [[|e errs]|] eqn:Hv;
      cbn [rbind length Nat.ltb Nat.leb try_catch].
    + right. exists b. repeat split; assumption.
    + left. eexists. split; [reflexivity|]. cbn. auto.
    + left. eexists. split; [reflexivity|]. cbn. auto.
  - left. eexists. split; [reflexivity|]. cbn. auto.
Qed.

End Issuance.

(** ** The claims on the token store *)

Section TokenStoreClaims.
Import Server StoreSpec.
Variable H : Host.

Implicit Types (m : TokenStore) (req : Request) (now : Z).

(** C1, as amended.  On a store left by the server, the validation
    middleware answers 403 with [success: false] if and only if the
    sessionId cookie or the csrfToken cookie is absent, or no record is
    filed under the session identifier, or the stored token is not the
    csrfToken cookie, or the record has expired, where a record has
    expired when its expiry is strictly before the current time. *)
Theorem validateCsrfToken_rejects_iff req now m :
  store_wf m →
  rejected_403 (validateCsrfToken req now m).1 ↔
    sessionId (cookies req) = None ∨ csrfToken (cookies req) = None ∨
    ∃ sid tok, sessionId (cookies req) = Some sid ∧
               csrfToken (cookies req) = Some tok ∧
               (m !! sid = None ∨
                ∃ d, m !! sid = Some d ∧
                     (token d ≠ tok ∨ expires d < now)).
Proof.
  intros Hwf. split.
  - intros Hrej. apply rejected_403_not_Next in Hrej.
    rewrite validateCsrfToken_Next in Hrej.
    destruct (sessionId (cookies req)) as [sid|]; [|auto].
    destruct (csrfToken (cookies req)) as [tok|]; [|auto].
    right; right. exists sid, tok. do 2 (split; [reflexivity|]).
    destruct (m !! sid) as [d|] eqn:Hd; [|auto].
    right. exists d. split; [reflexivity|].
    destruct (decide (token d = tok)) as [Ht|Ht]; [|auto].
    destruct (Z.lt_ge_cases (expires d) now) as [Hlt|Hge]; [auto|].
    exfalso. apply Hrej. destruct (Hwf _ _ Hd) as [Hs Hne].
    exists sid, tok, d. repeat split; congruence || lia.
  - intros Hcase.
    destruct (validateCsrfToken_cases req now m) as [Hn|Hr]; [|exact Hr].
    exfalso. apply validateCsrfToken_Next in Hn
      as (sid & tok & d & Hs & _ & Ht & _ & Hd & Htok & Hexp).
    destruct Hcase as [Hc|[Hc|(sid' & tok' & Hs' & Ht' & Hc)]];
      try congruence.
    assert (sid' = sid) by congruence. assert (tok' = tok) by congruence.
    subst. destruct Hc as [Hc|(d' & Hd' & Hc)]; [congruence|].
    assert (d' = d) by congruence. subst.
    destruct Hc; [contradiction | lia].
Qed.

(** C8.  Token issuance files, under the session identifier of the
    request, a record with the token just drawn and the expiry of now
    plus 30 minutes, whatever was filed there before; and when the call
    completes the store holds no record whose expiry is before now
    (the other records that have not expired are kept as they were). *)
Theorem get_csrf_token_overwrites_and_sweeps req e_sid e_tok now m :
  (∀ s, sessionId (cookies req) = Some s → s ≠ [] →
        value (set_sessionId (get_csrf_token H req e_sid e_tok now m).1) = s)
  ∧ value (set_csrfToken (get_csrf_token H req e_sid e_tok now m).1)
      = toString_hex (randomBytes 32 e_tok)
  ∧ (get_csrf_token H req e_sid e_tok now m).2
      !! value (set_sessionId (get_csrf_token H req e_sid e_tok now m).1)
      = Some {| token := toString_hex (randomBytes 32 e_tok);
                expires := now + 1800000 |}
  ∧ (∀ (k : jsstring) d,
       (get_csrf_token H req e_sid e_tok now m).2 !! k = Some d →
       ¬ expires d < now)
  ∧ (∀ (k : jsstring) d,
       k ≠ value (set_sessionId (get_csrf_token H req e_sid e_tok now m).1) →
       ((get_csrf_token H req e_sid e_tok now m).2 !! k = Some d ↔
        m !! k = Some d ∧ ¬ expires d < now)).
Proof.
  rewrite get_csrf_token_run. cbn [fst snd set_sessionId set_csrfToken value cookie].
  split; [|split; [|split; [|split]]].
  - intros s Hs Hne. unfold issued_sid.
    rewrite (proj2 (truthy_Some _ s)); auto.
  - reflexivity.
  - rewrite sweep_lookup, lookup_insert_eq. cbn.
    destruct (Z.ltb_spec (now + 30 * 60 * 1000) now); [lia | reflexivity].
  - intros k d. rewrite sweep_lookup.
    destruct (_ !! k) as [d'|]; cbn; [|discriminate].
    destruct (Z.ltb_spec (expires d') now); [discriminate|].
    intros [= <-]. lia.
  - intros k d Hk. rewrite sweep_lookup, lookup_insert_ne by congruence.
    destruct (m !! k) as [d'|]; cbn;
      [|split; [discriminate | intros [? _]; discriminate]].
    destruct (Z.ltb_spec (expires d') now); split.
    + discriminate.
    + intros [[= <-] Hn]. contradiction.
    + intros [= <-]. split; [reflexivity | lia].
    + intros [? _]. assumption.
Qed.

(** C9.  The validation middleware leaves the token store as it found
    it, whether it lets the request through or answers 403; of the
    steps of the server, only issuance (insert or overwrite, then the
    sweep) and the callback of a successful send (the deletion of the
    session's record) change the store. *)
Theorem validateCsrfToken_read_only req now m :
  (validateCsrfToken req now m).2 = m
  ∧ ∀ ev, (step H ev m).2 = m
      ∨ (∃ rq e_sid e_tok t, ev = GetCsrfToken rq e_sid e_tok t ∧
           (step H ev m).2 =
             (sweep t (<[issued_sid rq e_sid := generateSecureToken e_tok t]> m)).2)
      ∨ (∃ rq ref sid, ev = SendMailCallback rq ref false ∧
           sessionId (cookies rq) = Some sid ∧
           (step H ev m).2 = delete sid m).
Proof.
  split; [apply validateCsrfToken_frame|].
  intros [rq e_sid e_tok t | rq t | rq ref error]; unfold step;
    rewrite bind_run; cbn [Server.ret mret St_ret snd].
  - right; left. exists rq, e_sid, e_tok, t. split; [reflexivity|].
    rewrite get_csrf_token_run. reflexivity.
  - left. apply validateCsrfToken_frame.
  - rewrite sendMail_callback_store.
    destruct (truthy (sessionId (cookies rq))) as [sid|] eqn:Hs; [|auto].
    destruct error; [auto|]. right; right.
    apply truthy_Some in Hs as [Hs _]. exists rq, ref, sid. auto.
Qed.

(** C3.  A request to the submission route either succeeds, with the
    session's record deleted from the store and the reference number
    returned with [success: true], or it fails with status 400, 403 or
    500 and [success: false], the store being exactly as it was. *)
Theorem send_complaint_atomic req now error m :
  (∃ sid, sessionId (cookies req) = Some sid ∧
          (send_complaint H req now error m).1
            = success_response (refNumber now) ∧
          (send_complaint H req now error m).2 = delete sid m ∧
          (send_complaint H req now error m).2 !! sid = None)
  ∨ ((status (send_complaint H req now error m).1 = 400 ∨
      status (send_complaint H req now error m).1 = 403 ∨
      status (send_complaint H req now error m).1 = 500) ∧
     success (send_complaint H req now error m).1 = false ∧
     referenceNumber (send_complaint H req now error m).1 = None ∧
     (send_complaint H req now error m).2 = m).
Proof.
  unfold send_complaint. rewrite bind_run, validateCsrfToken_frame.
  destruct (validateCsrfToken_outcomes req now m) as [Hn|[msg Hr]].
  - rewrite Hn.
    apply validateCsrfToken_Next in Hn
      as (sid & tok & d & Hs & Hne & _).
    destruct (handler_cases H req now)
      as [(r & -> & Hst & Hsu & Href)|(b & _ & _ & ->)].
    + right. cbn. intuition.
    + rewrite sendMail_callback_store, sendMail_callback_response.
      rewrite (proj2 (truthy_Some _ sid)) by auto.
      destruct error.
      * right. cbn. auto.
      * left. exists sid. rewrite lookup_delete_eq. auto.
  - rewrite Hr. right. cbn. auto.
Qed.

(** C2.  After issuance, a submission made with the cookies of the
    token response, within the 30 minutes and with fields that pass
    the checks, goes through the validation and, the relay having sent
    the mail, is answered 200; the session's record is then gone from the
    store, and every later validation with the same cookies is answered
    403, as is every later submission. *)
Theorem csrf_token_one_time_use
    req0 e_sid e_tok t0 m0 iss b req t1 post t2 error :
  iss = get_csrf_token H req0 e_sid e_tok t0 m0 →
  req = {| cookies := cookies_of iss.1; body := Some b |} →
  t1 ≤ t0 + 1800000 →
  validationErrors H t1 b = Ok [] →
  post = send_complaint H req t1 false iss.2 →
  (validateCsrfToken req t1 iss.2).1 = Next
  ∧ status post.1 = 200 ∧ success post.1 = true
  ∧ post.2 !! value (set_sessionId iss.1) = None
  ∧ rejected_403 (validateCsrfToken req t2 post.2).1
  ∧ status (send_complaint H req t2 error post.2).1 = 403.
Proof.
  intros -> -> Ht1 Hvalid ->.
  rewrite get_csrf_token_run. cbn [fst snd set_sessionId value cookie].
  set (sid := issued_sid req0 e_sid).
  set (td := generateSecureToken e_tok t0).
  set (m1 := (sweep t0 (<[sid := td]> m0)).2).
  set (req := {| cookies := _; body := _ |}).
  assert (Hsid : sid ≠ []) by apply issued_sid_nonempty.
  assert (Htok : token td ≠ []) by apply toString_hex_nonempty.
  assert (Hm1 : m1 !! sid = Some td).
  { unfold m1. rewrite sweep_lookup, lookup_insert_eq. cbn.
    destruct (Z.ltb_spec (t0 + 30 * 60 * 1000) t0); [lia | reflexivity]. }
  assert (Hnext : (validateCsrfToken req t1 m1).1 = Next).
  { apply validateCsrfToken_Next. exists sid, (token td), td.
    repeat match goal with |- _ ∧ _ => split end; auto. }
  assert (Hpost : send_complaint H req t1 false m1
                  = (success_response (refNumber t1), delete sid m1)).
  { unfold send_complaint. rewrite bind_run, validateCsrfToken_frame, Hnext.
    unfold handler. cbn [body req destructure rbind]. rewrite Hvalid.
    cbn [rbind length Nat.ltb Nat.leb try_catch].
    apply injective_projections.
    - rewrite sendMail_callback_response. reflexivity.
    - rewrite sendMail_callback_store. cbn [cookies req cookies_of sessionId
        set_sessionId value cookie].
      rewrite (proj2 (truthy_Some _ sid)) by auto. reflexivity. }
  rewrite Hpost. cbn [fst snd].
  assert (Hrej : ∀ t, rejected_403 (validateCsrfToken req t (delete sid m1)).1).
  { intros t.
    destruct (validateCsrfToken_cases req t (delete sid m1)) as [Hn|Hr];
      [|exact Hr].
    apply validateCsrfToken_Next in Hn as (s & k & d & Hs & _ & _ & _ & Hd & _).
    cbn in Hs. injection Hs as <-. rewrite lookup_delete_eq in Hd.
    discriminate. }
  split; [exact Hnext|]. do 2 (split; [reflexivity|]).
  split; [apply lookup_delete_eq|]. split; [apply Hrej|].
  unfold send_complaint. rewrite bind_run.
  destruct (Hrej t2) as (r & -> & Hst & _). exact Hst.
Qed.

End TokenStoreClaims.

(** *** Instances and the boundary of the expiry rule *)

Section TokenStoreInstances.
Import Server StoreSpec.

Lemma issued_reachable : reachable Sample.host Sample.issued.2.
Proof.
  change Sample.issued.2
    with (step Sample.host
            (GetCsrfToken Sample.no_cookies Sample.entropy_a Sample.entropy_b
               Sample.now) ∅).2.
  apply reachable_step, reachable_init.
Qed.

Lemma issued_lookup :
  Sample.issued.2 !! value (set_sessionId Sample.issued.1)
    = Some (generateSecureToken Sample.entropy_b Sample.now).
Proof.
  unfold Sample.issued. rewrite get_csrf_token_sid.
  apply get_csrf_token_lookup_own.
Qed.

Lemma validateCsrfToken_rejects_iff_witness :
  store_wf Sample.issued.2 ∧
  (rejected_403
     (validateCsrfToken Sample.submission (Sample.now + 1800001)
        Sample.issued.2).1 ↔
   sessionId (cookies Sample.submission) = None ∨
   csrfToken (cookies Sample.submission) = None ∨
   ∃ sid tok,
     sessionId (cookies Sample.submission) = Some sid ∧
     csrfToken (cookies Sample.submission) = Some tok ∧
     (Sample.issued.2 !! sid = None ∨
      ∃ d, Sample.issued.2 !! sid = Some d ∧
           (token d ≠ tok ∨ expires d < Sample.now + 1800001))).
Proof.
  assert (Hwf : store_wf Sample.issued.2)
    by exact (reachable_store_wf Sample.host _ issued_reachable).
  split; [exact Hwf|].
  exact (validateCsrfToken_rejects_iff Sample.submission
           (Sample.now + 1800001) Sample.issued.2 Hwf).
Defined.

(** A token is issued at [Sample.now] and the submission arrives at
    the very millisecond of its expiry, 30 minutes later.  By the strict
    reading the record is not valid any more, and the middleware lets
    the request through: the rejection rule with the strict reading
    fails there. *)
Lemma rejects_iff_strict_fails_at_expiry :
  ¬ rejects_iff_strict Sample.submission (Sample.now + 1800000)
      Sample.issued.2.
Proof.
  intros [_ Hback].
  apply (rejected_403_not_Next
           (validateCsrfToken Sample.submission (Sample.now + 1800000)
              Sample.issued.2).1).
  - apply Hback. right; right.
    exists (value (set_sessionId Sample.issued.1)),
           (value (set_csrfToken Sample.issued.1)).
    do 2 (split; [reflexivity|]). right.
    exists (generateSecureToken Sample.entropy_b Sample.now).
    split; [apply issued_lookup|]. right.
    unfold valid_strict. cbn [generateSecureToken expires]. lia.
  - apply validateCsrfToken_Next.
    exists (value (set_sessionId Sample.issued.1)),
           (value (set_csrfToken Sample.issued.1)),
           (generateSecureToken Sample.entropy_b Sample.now).
    split; [reflexivity|]. split; [vm_compute; discriminate|].
    split; [reflexivity|]. split; [vm_compute; discriminate|].
    split; [apply issued_lookup|]. split; [vm_compute; reflexivity|].
    cbn [generateSecureToken expires]. lia.
Qed.

Lemma csrf_token_one_time_use_witness :
  Sample.now + 60000 ≤ Sample.now + 1800000
  ∧ validationErrors Sample.host (Sample.now + 60000) Sample.good = Ok []
  ∧ (validateCsrfToken Sample.submission (Sample.now + 60000)
       Sample.issued.2).1 = Next
  ∧ status Sample.posted.1 = 200 ∧ success Sample.posted.1 = true
  ∧ Sample.posted.2 !! value (set_sessionId Sample.issued.1) = None
  ∧ rejected_403
      (validateCsrfToken Sample.submission (Sample.now + 120000)
         Sample.posted.2).1
  ∧ status (send_complaint Sample.host Sample.submission
              (Sample.now + 120000) false Sample.posted.2).1 = 403.
Proof.
  assert (H1 : Sample.now + 60000 ≤ Sample.now + 1800000) by lia.
  assert (H2 : validationErrors Sample.host (Sample.now + 60000) Sample.good
               = Ok []) by (vm_compute; reflexivity).
  split; [exact H1|]. split; [exact H2|].
  exact (csrf_token_one_time_use Sample.host Sample.no_cookies
           Sample.entropy_a Sample.entropy_b Sample.now ∅ Sample.issued
           Sample.good Sample.submission (Sample.now + 60000) Sample.posted
           (Sample.now + 120000) false
           eq_refl eq_refl H1 H2 eq_refl).
Defined.

End TokenStoreInstances.

(** * Field validation, reference number and mail (both programs) *)

Section FieldFacts.
Import FieldSpec.

Lemma lit_nonempty (a : ascii) (s : string) : lit (String a s) ≠ [].
Proof. unfold lit. cbn. discriminate. Qed.

Lemma collect_cons (inv : Field → bool) f msg table :
  collect inv ((f, msg) :: table) = set_if (inv f) f msg ++ collect inv table.
Proof. reflexivity. Qed.

Lemma collect_keys (inv : Field → bool) (table : list (Field * string)) :
  (collect inv table).*1 = filter (λ f, inv f = true) table.*1.
Proof.
  induction table as [|[f msg] table IH]; [reflexivity|].
  rewrite collect_cons, fmap_app, IH. cbn [fmap list_fmap fst].
  rewrite filter_cons. unfold set_if.
  destruct (inv f); case_decide; try congruence; reflexivity.
Qed.

Lemma collect_messages (inv : Field → bool) table f (msg' : jsstring) :
  (f, msg') ∈ collect inv table →
  ∃ msg, (f, msg) ∈ table ∧ msg' = lit msg.
Proof.
  induction table as [|[g msg] table IH]; [inversion 1|].
  rewrite collect_cons, elem_of_app. unfold set_if. intros [Hin|Hin].
  - destruct (inv g); [|inversion Hin].
    apply list_elem_of_singleton in Hin. injection Hin as -> ->.
    exists msg. split; [left | reflexivity].
  - destruct (IH Hin) as (msg0 & Hm & ->). exists msg0.
    split; [right; exact Hm | reflexivity].
Qed.

(** The block of [if]s is exhaustive for the keys of its table. *)
Lemma collect_exhaustive (inv : Field → bool) table :
  NoDup table.*1 →
  (∀ f msg, (f, msg) ∈ table → msg ≠ EmptyString) →
  (∀ f, inv f = true → f ∈ table.*1) →
  exhaustive inv (collect inv table).
Proof.
  intros Hnd Hmsg Hdom. split; [|split].
  - rewrite collect_keys. apply NoDup_filter, Hnd.
  - intros f. rewrite collect_keys, list_elem_of_filter. split.
    + intros [Hf _]. exact Hf.
    + intros Hf. split; [exact Hf | apply Hdom, Hf].
  - intros f msg' Hin.
    destruct (collect_messages _ _ _ _ Hin) as (msg & Hm & ->).
    specialize (Hmsg _ _ Hm). destruct msg; [contradiction|].
    apply lit_nonempty.
Qed.

(** With a single invalid key the [errors] object has that key alone. *)
Lemma exhaustive_single (inv : Field → bool) errs f :
  exhaustive inv errs → inv f = true → (∀ g, g ≠ f → inv g = false) →
  errs.*1 = [f].
Proof.
  intros (Hnd & Hkeys & _) Hf Hothers.
  assert (Hall : ∀ g, g ∈ errs.*1 → g = f).
  { intros g Hg. apply Hkeys in Hg. destruct (decide (g = f)) as [|Hne];
      [assumption|]. rewrite (Hothers g Hne) in Hg. discriminate. }
  assert (Hin : f ∈ errs.*1) by (apply Hkeys, Hf).
  destruct (errs.*1) as [|x [|y l]].
  - inversion Hin.
  - f_equal. apply Hall. left.
  - exfalso. apply NoDup_cons in Hnd as [Hx _]. apply Hx.
    rewrite (Hall x) by left. rewrite (Hall y) by (right; left). left.
Qed.

(** With no invalid key the [errors] object is empty. *)
Lemma exhaustive_none (inv : Field → bool) errs :
  exhaustive inv errs → (∀ f, inv f = false) → errs = [].
Proof.
  intros (_ & Hkeys & _) Hnone. destruct errs as [|[f msg] errs];
    [reflexivity|].
  assert (Hf : inv f = true) by (apply Hkeys; left).
  rewrite Hnone in Hf. discriminate.
Qed.

Lemma part000_table_NoDup : NoDup part000_table.*1.
Proof. apply (bool_decide_unpack _). reflexivity. Qed.

Lemma server_table_NoDup : NoDup server_table.*1.
Proof. apply (bool_decide_unpack _). reflexivity. Qed.

Lemma table_messages_nonempty table :
  table = part000_table ∨ table = server_table →
  ∀ f msg, (f, msg) ∈ table → msg ≠ EmptyString.
Proof.
  intros [-> | ->] f msg Hin; unfold part000_table, server_table in Hin;
    repeat (apply elem_of_cons in Hin as [[= -> ->]|Hin]; [discriminate|]);
    inversion Hin.
Qed.

Variable H : Host.

Lemma part000_validationErrors_collect now (b : Body) :
  Part000.validationErrors H now b =
    collect (λ f, negb (part000_valid H now f (b f))) part000_table.
Proof.
  unfold Part000.validationErrors, collect, part000_table.
  cbn [mbind list_bind part000_valid]. rewrite app_nil_r. reflexivity.
Qed.

Lemma server_check_total now f v :
  server_check H now f v = Ok (server_invalid H now f v).
Proof.
  unfold server_invalid.
  assert (Hc : ∃ c, server_check H now f v = Ok c);
    [|destruct Hc as [c ->]; reflexivity].
  destruct f, v as [| |[]|n|[|c s]]; try (eexists; reflexivity);
    cbv [server_check Server.bad_username Server.bad_email
         Server.bad_issueType Server.bad_description Server.bad_dateOfIssue
         Server.bad_phoneNumber Server.or_else ToBoolean negb rbind
         Server.get_length];
    repeat match goal with
           | |- context [if ?c then _ else _] => destruct c
           end;
    eexists; reflexivity.
Qed.

Lemma server_validationErrors_collect now (b : Body) :
  Server.validationErrors H now b =
    Ok (collect (λ f, server_invalid H now f (b f)) server_table).
Proof.
  unfold Server.validationErrors.
  change (Server.bad_username (b username))
    with (server_check H now username (b username)).
  change (Server.bad_email (b email))
    with (server_check H now email (b email)).
  change (Server.bad_issueType (b issueType))
    with (server_check H now issueType (b issueType)).
  change (Server.bad_description (b description))
    with (server_check H now description (b description)).
  change (Server.bad_dateOfIssue H now (b dateOfIssue))
    with (server_check H now dateOfIssue (b dateOfIssue)).
  change (Server.bad_phoneNumber (b phoneNumber))
    with (server_check H now phoneNumber (b phoneNumber)).
  rewrite !server_check_total. cbn [rbind].
  unfold collect, server_table. cbn [mbind list_bind].
  rewrite app_nil_r. reflexivity.
Qed.

Lemma server_invalid_in_table now f v :
  server_invalid H now f v = true → f ∈ server_table.*1.
Proof.
  destruct f; cbn; try discriminate; intros _;
    apply (bool_decide_unpack _); reflexivity.
Qed.

Lemma part000_all_in_table f : f ∈ part000_table.*1.
Proof. destruct f; apply (bool_decide_unpack _); reflexivity. Qed.

Lemma part000_exhaustive now (b : Body) :
  exhaustive (λ f, negb (part000_valid H now f (b f)))
    (Part000.validationErrors H now b).
Proof.
  rewrite part000_validationErrors_collect. apply collect_exhaustive.
  - apply part000_table_NoDup.
  - apply table_messages_nonempty. left. reflexivity.
  - intros f _. apply part000_all_in_table.
Qed.

Lemma server_exhaustive now (b : Body) :
  exhaustive (λ f, server_invalid H now f (b f))
    (collect (λ f, server_invalid H now f (b f)) server_table).
Proof.
  apply collect_exhaustive.
  - apply server_table_NoDup.
  - apply table_messages_nonempty. right. reflexivity.
  - intros f. apply server_invalid_in_table.
Qed.

(** A submission that meets every constraint passes the block. *)
Lemma part000_all_valid now (b : Body) :
  (∀ f, part000_valid H now f (b f) = true) →
  Part000.validationErrors H now b = [].
Proof.
  intros Hv. apply (exhaustive_none _ _ (part000_exhaustive now b)).
  intros f. rewrite Hv. reflexivity.
Qed.

Lemma server_all_valid now (b : Body) :
  (∀ f, server_invalid H now f (b f) = false) →
  Server.validationErrors H now b = Ok [].
Proof.
  intros Hv. rewrite server_validationErrors_collect. f_equal.
  exact (exhaustive_none _ _ (server_exhaustive now b) Hv).
Qed.

End FieldFacts.

(** ** The reference number *)

Section ReferenceNumber.
Import FieldSpec.
Local Open Scope N_scope.

Lemma length_fixed_digits (k : nat) (n : N) : length (fixed_digits k n) = k.
Proof.
  revert n. induction k as [|k IH]; intros n; [reflexivity|].
  cbn [fixed_digits]. rewrite length_app, IH. cbn. lia.
Qed.

Lemma decimal_from_snoc (acc : N) (s : jsstring) (d : N) :
  d < 10 →
  decimal_from acc (s ++ [digit d]) =
    (λ v, 10 * v + d) <$> decimal_from acc s.
Proof.
  intros Hd. revert acc. induction s as [|c s IH]; intros acc.
  - cbn. unfold digit.
    replace ((48 <=? 48 + d) && (48 + d <=? 57)) with true
      by (symmetry; apply andb_true_intro; split;
          apply N.leb_le; lia).
    cbn. do 2 f_equal. lia.
  - cbn [app decimal_from]. destruct (_ && _); [apply IH | reflexivity].
Qed.

(** The digits written by [fixed_digits k n] read back as
    [n mod 10^k]. *)
Lemma decimal_fixed_digits (k : nat) (n : N) :
  decimal (fixed_digits k n) = Some (n mod 10 ^ N.of_nat k).
Proof.
  unfold decimal. revert n. induction k as [|k IH]; intros n.
  - cbn. rewrite N.mod_1_r. reflexivity.
  - cbn [fixed_digits].
    rewrite decimal_from_snoc by (apply N.mod_lt; lia).
    rewrite IH. cbn [fmap option_fmap option_map]. f_equal.
    rewrite Nat2N.inj_succ, N.pow_succ_r'.
    rewrite (N.Div0.mod_mul_r n 10 (10 ^ N.of_nat k)). lia.
Qed.

Lemma digits_fuel_step (f : nat) (n : N) :
  10 <= n → N.log2 n <= N.of_nat f →
  ∃ f', digits_fuel f n = digits_fuel f' (n / 10) ++ [digit (n mod 10)]
        ∧ N.log2 (n / 10) <= N.of_nat f'.
Proof.
  intros Hn Hf. destruct f as [|f'].
  - exfalso. assert (N.log2 8 <= N.log2 n) by (apply N.log2_le_mono; lia).
    change (N.log2 8) with 3 in *. lia.
  - exists f'. cbn [digits_fuel].
    destruct (N.ltb_spec n 10); [lia|]. split; [reflexivity|].
    assert (N.log2 (n / 10) <= N.log2 (n / 2))
      by (apply N.log2_le_mono, N.div_le_compat_l; lia).
    assert (N.log2 (n / 2) = N.log2 n - 1).
    { rewrite <- N.div2_div, N.div2_spec. apply N.log2_shiftr. }
    lia.
Qed.

Lemma digits_fuel_last (f : nat) (n : N) :
  N.log2 n <= N.of_nat f →
  ∃ pre, digits_fuel f n = pre ++ [digit (n mod 10)].
Proof.
  intros Hf. destruct (N.ltb_spec n 10) as [Hlt|Hge].
  - exists []. destruct f; cbn [digits_fuel].
    + rewrite N.mod_small by assumption. reflexivity.
    + destruct (N.ltb_spec n 10); [|lia].
      rewrite N.mod_small by assumption. reflexivity.
  - destruct (digits_fuel_step f n Hge Hf) as (f' & -> & _). eauto.
Qed.

Lemma decimal_from_digit (n : N) :
  n < 10 → decimal_from 0 [digit n] = Some n.
Proof.
  intros Hn. change [digit n] with ([] ++ [digit n]).
  rewrite decimal_from_snoc by exact Hn. reflexivity.
Qed.

(** The digits written for [n] read back as [n]: the fuel of [digits]
    is enough. *)
Lemma decimal_digits_fuel (f : nat) : ∀ n : N,
  N.log2 n <= N.of_nat f → decimal (digits_fuel f n) = Some n.
Proof.
  unfold decimal. induction f as [|f IH]; intros n Hf.
  - assert (n < 2) by (destruct (N.lt_ge_cases n 2) as [|Hge]; [assumption|];
      apply N.log2_le_mono in Hge; change (N.log2 2) with 1 in Hge; lia).
    cbn [digits_fuel]. rewrite N.mod_small by lia.
    apply decimal_from_digit. lia.
  - destruct (N.ltb_spec n 10) as [Hlt|Hge].
    + cbn [digits_fuel]. destruct (N.ltb_spec n 10); [|lia].
      apply decimal_from_digit. lia.
    + destruct (digits_fuel_step (S f) n Hge Hf) as (f' & Heq & Hf').
      cbn [digits_fuel] in Heq |- *. destruct (N.ltb_spec n 10); [lia|].
      rewrite decimal_from_snoc by (apply N.mod_lt; lia).
      rewrite IH.
      * cbn [fmap option_fmap option_map]. f_equal.
        rewrite (N.div_mod n 10) at 3 by lia. reflexivity.
      * assert (N.log2 (n / 10) <= N.log2 (n / 2))
          by (apply N.log2_le_mono, N.div_le_compat_l; lia).
        assert (N.log2 (n / 2) = N.log2 n - 1).
        { rewrite <- N.div2_div, N.div2_spec. apply N.log2_shiftr. }
        assert (3 <= N.log2 n)
          by (change 3 with (N.log2 8); apply N.log2_le_mono; lia).
        lia.
Qed.

Lemma decimal_digits (n : N) : decimal (digits n) = Some n.
Proof. apply decimal_digits_fuel. rewrite N2Nat.id. reflexivity. Qed.

(** A number with at least [k] digits is written with [fixed_digits k]
    at its end. *)
Lemma digits_fuel_suffix (k : nat) : ∀ (f : nat) (n : N),
  N.log2 n <= N.of_nat f → 10 ^ N.of_nat k <= 10 * n →
  ∃ pre, digits_fuel f n = pre ++ fixed_digits k n.
Proof.
  induction k as [|k IH]; intros f n Hf Hk.
  - exists (digits_fuel f n). cbn. rewrite app_nil_r. reflexivity.
  - rewrite Nat2N.inj_succ, N.pow_succ_r' in Hk.
    assert (Hn : 10 ^ N.of_nat k <= n) by lia. clear Hk.
    cbn [fixed_digits]. destruct k as [|k'].
    + cbn [fixed_digits app]. apply digits_fuel_last, Hf.
    + assert (Hge : 10 <= n).
      { rewrite Nat2N.inj_succ, N.pow_succ_r' in Hn.
        assert (1 <= 10 ^ N.of_nat k') by (apply N.lt_pred_le, N.neq_0_lt_0,
          N.pow_nonzero; lia). lia. }
      destruct (digits_fuel_step f n Hge Hf) as (f' & -> & Hf').
      destruct (IH f' (n / 10) Hf') as [pre Hpre].
      * rewrite Nat2N.inj_succ, N.pow_succ_r' in Hn |- *.
        apply N.mul_le_mono_l.
        apply N.div_le_lower_bound; lia.
      * exists pre. rewrite Hpre, app_assoc. reflexivity.
Qed.

Lemma slice_last_app (k : nat) (pre s : jsstring) :
  length s = k → slice_last k (pre ++ s) = s.
Proof.
  intros Hs. unfold slice_last. rewrite length_app, Hs.
  replace (length pre + k - k)%nat with (length pre) by lia.
  apply drop_app_length.
Qed.

(** From 1970-01-01T02:46:40Z on, the timestamp has at least eight
    digits and the reference number ends with its last eight. *)
Lemma refNumber_last8 (now : Z) :
  (10000000 ≤ now)%Z →
  refNumber now = lit "PENA-" ++ fixed_digits 8 (Z.to_N now).
Proof.
  intros Hnow. unfold refNumber, Number_toString, digits. f_equal.
  destruct (Z.ltb_spec now 0); [lia|].
  destruct (digits_fuel_suffix 8 (N.to_nat (N.log2 (Z.to_N now))) (Z.to_N now))
    as [pre ->].
  - rewrite N2Nat.id. reflexivity.
  - change (10 ^ N.of_nat 8) with 100000000. lia.
  - apply slice_last_app, length_fixed_digits.
Qed.

End ReferenceNumber.


(** ** The outgoing mail of server.js *)

Section ServerMail.
Import FieldSpec.
Variable H : Host.

(** C10, as amended.  In server.js no sanitization is applied: for
    every submission that passes validation, the mail handed to the
    relay has the subject and the body of the template filled with the
    values of the request body as they are, neither trimmed nor
    stripped of tags, except that a falsy [gameId] (absent or empty) is
    put in as [N/A]. *)
Theorem server_mail_embeds_raw_values (req : Request) (b : Body) (now : Z) :
  body req = Some b →
  Server.validationErrors H now b = Ok [] →
  ∃ mail, Server.handler H req now = SendMail mail (refNumber now)
    ∧ subject mail = raw_subject now b
    ∧ text mail = raw_text now b
    ∧ (∀ s, b gameId = JString s → s ≠ [] → text mail = verbatim_text now b).
Proof.
  intros Hb Hv. exists (Server.mailOptions H now b).
  unfold Server.handler. rewrite Hb. cbn [destructure rbind]. rewrite Hv.
  cbn [rbind length Nat.ltb Nat.leb try_catch].
  split; [reflexivity|]. split; [reflexivity|].
  assert (Ht : text (Server.mailOptions H now b) = raw_text now b).
  { unfold Server.mailOptions, raw_text, js_or. cbn [text].
    destruct (ToBoolean (b gameId)); reflexivity. }
  split; [exact Ht|].
  intros s Hs Hne. rewrite Ht. unfold raw_text, verbatim_text.
  rewrite Hs. destruct s; [contradiction|]. reflexivity.
Qed.

End ServerMail.

Section FieldInstances.
Import FieldSpec StoreSpec.

Lemma server_mail_embeds_raw_values_witness :
  body (Sample.request Sample.good) = Some Sample.good
  ∧ Server.validationErrors Sample.host Sample.now Sample.good = Ok []
  ∧ ∃ mail,
      Server.handler Sample.host (Sample.request Sample.good) Sample.now
        = SendMail mail (refNumber Sample.now)
      ∧ subject mail = raw_subject Sample.now Sample.good
      ∧ text mail = raw_text Sample.now Sample.good
      ∧ (∀ s, Sample.good gameId = JString s → s ≠ [] →
              text mail = verbatim_text Sample.now Sample.good).
Proof.
  assert (H1 : body (Sample.request Sample.good) = Some Sample.good)
    by reflexivity.
  assert (H2 : Server.validationErrors Sample.host Sample.now Sample.good
               = Ok []) by (vm_compute; reflexivity).
  split; [exact H1|]. split; [exact H2|].
  exact (server_mail_embeds_raw_values Sample.host
           (Sample.request Sample.good) Sample.good Sample.now H1 H2).
Defined.

(** A submission with an empty [gameId] passes the checks of server.js
    and its mail reads [Game ID: N/A]: the body is not the template
    filled with the eight values as they are. *)
Lemma server_mail_not_verbatim_for_empty_gameId :
  Server.validationErrors Sample.host Sample.now
    (Sample.with_field Sample.good gameId (JString [])) = Ok []
  ∧ ¬ mail_verbatim Sample.host
        (Sample.request (Sample.with_field Sample.good gameId (JString [])))
        (Sample.with_field Sample.good gameId (JString [])) Sample.now.
Proof.
  split; [vm_compute; reflexivity|].
  intros Hv.
  specialize (Hv (Server.mailOptions Sample.host Sample.now
                    (Sample.with_field Sample.good gameId (JString [])))
                 (refNumber Sample.now)).
  assert (Hh : Server.handler Sample.host
                 (Sample.request
                    (Sample.with_field Sample.good gameId (JString [])))
                 Sample.now
               = SendMail
                   (Server.mailOptions Sample.host Sample.now
                      (Sample.with_field Sample.good gameId (JString [])))
                   (refNumber Sample.now))
    by (vm_compute; reflexivity).
  specialize (Hv Hh). apply (f_equal length) in Hv. vm_compute in Hv.
  discriminate.
Qed.

(** The four single faults named by the specification, in each
    program: a username of length 2, an email without [@], a date of
    issue in the future, a phone number of 9 digits. *)
Example part000_single_faults :
  (Part000.validationErrors Sample.host Sample.now
     (Sample.with_field Sample.good username (JString (lit "ab")))).*1
    = [username]
  ∧ (Part000.validationErrors Sample.host Sample.now
       (Sample.with_field Sample.good email
          (JString (lit "budi.example.com")))).*1
    = [email]
  ∧ (Part000.validationErrors Sample.host Sample.now
       (Sample.with_field Sample.good dateOfIssue
          (JString (lit "2024-11-04")))).*1
    = [dateOfIssue]
  ∧ (Part000.validationErrors Sample.host Sample.now
       (Sample.with_field Sample.good phoneNumber
          (JString (lit "081234567")))).*1
    = [phoneNumber].
Proof. repeat split; vm_compute; reflexivity. Qed.

Example server_single_faults :
  Server.validationErrors Sample.host Sample.now
    (Sample.with_field Sample.good username (JString (lit "ab")))
    = Ok [(username, lit "Username tidak valid")]
  ∧ Server.validationErrors Sample.host Sample.now
      (Sample.with_field Sample.good email
         (JString (lit "budi.example.com")))
    = Ok [(email, lit "Email tidak valid")]
  ∧ Server.validationErrors Sample.host Sample.now
      (Sample.with_field Sample.good dateOfIssue
         (JString (lit "2024-11-04")))
    = Ok [(dateOfIssue, lit "Tanggal tidak valid")]
  ∧ Server.validationErrors Sample.host Sample.now
      (Sample.with_field Sample.good phoneNumber
         (JString (lit "081234567")))
    = Ok [(phoneNumber, lit "Nomor telepon tidak valid")].
Proof. repeat split; vm_compute; reflexivity. Qed.

End FieldInstances.

(** * Regular expressions and text (src/unnamed/part_000) *)

Section RegExpFacts.
Import RegExp TextSpec.

(** *** The matcher consumes input from the left *)

Lemma rep_suffix {R} (p : cu → bool) (s : jsstring) :
  ∀ lo hi i (k : nat → jsstring → option R) e,
    rep p lo hi i s k = Some e →
    ∃ j u, u `suffix_of` s ∧ k j u = Some e.
Proof.
  induction s as [|c t IH]; intros lo hi i k e.
  - cbn [rep]. destruct lo; [|discriminate]. intros Hk.
    exists i, []. split; [reflexivity | exact Hk].
  - cbn [rep]. destruct (p c && negb (bool_decide (hi = Some O))).
    + destruct lo as [|lo'].
      * destruct (rep p 0 (pred <$> hi) (S i) t k) as [e'|] eqn:Hr.
        -- intros [= <-]. destruct (IH _ _ _ _ _ Hr) as (j & u & Hu & Hk).
           exists j, u. split; [apply suffix_cons_r, Hu | exact Hk].
        -- intros Hk. exists i, (c :: t). split; [reflexivity | exact Hk].
      * intros Hr. destruct (IH _ _ _ _ _ Hr) as (j & u & Hu & Hk).
        exists j, u. split; [apply suffix_cons_r, Hu | exact Hk].
    + destruct lo; [|discriminate]. intros Hk.
      exists i, (c :: t). split; [reflexivity | exact Hk].
Qed.

Lemma m_suffix {R} (r : regex) :
  ∀ i s (k : nat → jsstring → option R) e,
    m r i s k = Some e →
    ∃ j u, u `suffix_of` s ∧ k j u = Some e.
Proof.
  induction r as [|p|p lo hi|r1 IH1 r2 IH2|r1 IH1 r2 IH2| |];
    intros i s k e; cbn [m].
  - intros Hk. exists i, s. split; [reflexivity | exact Hk].
  - destruct s as [|c t]; [discriminate|].
    destruct (p c); [|discriminate]. intros Hk.
    exists (S i), t. split; [apply suffix_cons_r; reflexivity | exact Hk].
  - apply rep_suffix.
  - intros Hr. destruct (IH1 _ _ _ _ Hr) as (j & u & Hu & Hr2).
    destruct (IH2 _ _ _ _ Hr2) as (j' & u' & Hu' & Hk).
    exists j', u'. split; [etrans; eassumption | exact Hk].
  - destruct (m r1 i s k) as [e'|] eqn:Hr1.
    + intros [= <-]. exact (IH1 _ _ _ _ Hr1).
    + apply IH2.
  - destruct i; [|discriminate]. intros Hk.
    exists O, s. split; [reflexivity | exact Hk].
  - destruct s; [|discriminate]. intros Hk.
    exists i, []. split; [reflexivity | exact Hk].
Qed.

(** What a match leaves is a suffix of the input. *)
Lemma match_at_suffix (r : regex) i s t :
  match_at r i s = Some t → t `suffix_of` s.
Proof.
  intros Hm. destruct (m_suffix r i s _ t Hm) as (j & u & Hu & [= <-]).
  exact Hu.
Qed.

(** The global replacement does not depend on its fuel once the fuel
    exceeds the length of the input: it runs to the end of the input. *)
Lemma replace_go_fuel (r : regex) (f1 : nat) :
  ∀ f2 i s, (length s < f1)%nat → (length s < f2)%nat →
    replace_go f1 r i s = replace_go f2 r i s.
Proof.
  induction f1 as [|f1 IH]; intros f2 i s H1 H2; [lia|].
  destruct f2 as [|f2]; [lia|]. cbn [replace_go].
  destruct (match_at r i s) as [t|] eqn:Hm.
  - apply match_at_suffix, suffix_length in Hm.
    destruct (length s - length t)%nat eqn:Hn.
    + destruct s as [|c s']; [reflexivity|]. f_equal.
      apply IH; cbn [length] in *; lia.
    + apply IH; lia.
  - destruct s as [|c s']; [reflexivity|]. f_equal.
    apply IH; cbn [length] in *; lia.
Qed.

Lemma replace_all_fuel (r : regex) (f : nat) (s : jsstring) :
  (length s < f)%nat → replace_go f r O s = replace_all r s.
Proof. intros Hf. apply replace_go_fuel; [exact Hf | lia]. Qed.

(** *** The matcher finds a match iff the pattern has one *)

Lemma rep_is_Some {R} (p : cu → bool) (s : jsstring) :
  ∀ lo hi i (k : nat → jsstring → option R),
    is_Some (rep p lo hi i s k) ↔
    ∃ w u, s = w ++ u ∧ forallb p w = true ∧ (lo ≤ length w)%nat
           ∧ (∀ h, hi = Some h → (length w ≤ h)%nat)
           ∧ is_Some (k (i + length w)%nat u).
Proof.
  induction s as [|c t IH]; intros lo hi i k.
  - cbn [rep]. split.
    + destruct lo; [|intros [? ?]; discriminate]. intros Hk.
      exists [], []. cbn [length]. rewrite Nat.add_0_r.
      repeat split; auto; intros; lia.
    + intros (w & u & Hs & _ & Hlo & _ & Hk).
      symmetry in Hs. apply app_eq_nil in Hs as [-> ->].
      cbn [length] in *. rewrite Nat.add_0_r in Hk.
      destruct lo; [exact Hk | lia].
  - cbn [rep]. destruct (p c) eqn:Hc; cbn [andb].
    + case_bool_decide as Hhi; cbn [negb].
      * (* the upper bound is reached *)
        split.
        -- destruct lo; [|intros [? ?]; discriminate]. intros Hk.
           exists [], (c :: t). cbn [length]. rewrite Nat.add_0_r.
           repeat split; auto; intros; lia.
        -- intros (w & u & Hs & _ & Hlo & Hb & Hk).
           specialize (Hb _ Hhi). destruct w; [|cbn in Hb; lia].
           cbn [length app] in *. rewrite Nat.add_0_r in Hk. subst u.
           destruct lo; [exact Hk | lia].
      * assert (Hb : ∀ n h, hi = Some h → (n ≤ Nat.pred h)%nat →
                            (S n ≤ h)%nat).
        { intros n h -> Hle. destruct h; [congruence | cbn in Hle; lia]. }
        destruct lo as [|lo'].
        -- split.
           ++ destruct (rep p 0 (pred <$> hi) (S i) t k) as [e|] eqn:Hr.
              ** intros _. assert (Hs : is_Some (rep p 0 (pred <$> hi) (S i) t k))
                   by (rewrite Hr; eauto).
                 apply IH in Hs as (w & u & -> & Hw & _ & Hbw & Hk).
                 exists (c :: w), u. cbn [forallb length app].
                 rewrite Hc, Hw, <- Nat.add_succ_comm.
                 repeat split; auto; [lia|].
                 intros h Hh. apply Hb; [exact Hh|].
                 apply Hbw. rewrite Hh. reflexivity.
              ** intros Hk. exists [], (c :: t). cbn [length].
                 rewrite Nat.add_0_r. repeat split; auto; intros; lia.
           ++ intros (w & u & Hs & Hw & _ & Hbw & Hk).
              destruct w as [|c' w].
              ** cbn [app length] in *. subst u. rewrite Nat.add_0_r in Hk.
                 destruct (rep p 0 (pred <$> hi) (S i) t k); [eauto | exact Hk].
              ** injection Hs as <- ->. cbn [forallb length] in *.
                 apply andb_true_iff in Hw as [_ Hw].
                 assert (Hs : is_Some (rep p 0 (pred <$> hi) (S i) (w ++ u) k)).
                 { apply IH. exists w, u. rewrite Nat.add_succ_comm.
                   repeat split; auto; [lia|].
                   intros h Hh. destruct hi as [h'|]; [|discriminate].
                   injection Hh as <-. specialize (Hbw h' eq_refl). lia. }
                 destruct Hs as [e ->]. eauto.
        -- rewrite IH. split.
           ++ intros (w & u & -> & Hw & Hlo & Hbw & Hk).
              exists (c :: w), u. cbn [forallb length app].
              rewrite Hc, Hw, <- Nat.add_succ_comm.
              repeat split; auto; [lia|].
              intros h Hh. apply Hb; [exact Hh|].
              apply Hbw. rewrite Hh. reflexivity.
           ++ intros (w & u & Hs & Hw & Hlo & Hbw & Hk).
              destruct w as [|c' w]; [cbn in Hlo; lia|].
              injection Hs as <- ->. cbn [forallb length] in *.
              apply andb_true_iff in Hw as [_ Hw].
              exists w, u. rewrite Nat.add_succ_comm.
              repeat split; auto; [lia|].
              intros h Hh. destruct hi as [h'|]; [|discriminate].
              injection Hh as <-. specialize (Hbw h' eq_refl). lia.
    + split.
      * destruct lo; [|intros [? ?]; discriminate]. intros Hk.
        exists [], (c :: t). cbn [length]. rewrite Nat.add_0_r.
        repeat split; auto; intros; lia.
      * intros (w & u & Hs & Hw & Hlo & _ & Hk).
        destruct w as [|c' w].
        -- cbn [app length] in *. subst u. rewrite Nat.add_0_r in Hk.
           destruct lo; [exact Hk | lia].
        -- injection Hs as <- ->. cbn [forallb] in Hw.
           rewrite Hc in Hw. discriminate.
Qed.

(** The matcher succeeds with continuation [k] iff the pattern has a
    match after which [k] succeeds. *)
Lemma m_is_Some {R} (r : regex) :
  ∀ i s (k : nat → jsstring → option R),
    is_Some (m r i s k) ↔
    ∃ j u, Matches r i s j u ∧ is_Some (k j u).
Proof.
  induction r as [|p|p lo hi|r1 IH1 r2 IH2|r1 IH1 r2 IH2| |];
    intros i s k; cbn [m].
  - split; [intros Hk; exists i, s; split; [constructor | exact Hk]|].
    intros (j & u & Hm & Hk). inversion Hm; subst. exact Hk.
  - split.
    + destruct s as [|c t]; [intros [? ?]; discriminate|].
      destruct (p c) eqn:Hc; [|intros [? ?]; discriminate]. intros Hk.
      exists (S i), t. split; [constructor; exact Hc | exact Hk].
    + intros (j & u & Hm & Hk). inversion Hm; subst.
      match goal with Hp : p _ = true |- _ => rewrite Hp end. exact Hk.
  - rewrite rep_is_Some. split.
    + intros (w & u & -> & Hw & Hlo & Hb & Hk).
      exists (i + length w)%nat, u. split; [constructor; assumption | exact Hk].
    + intros (j & u & Hm & Hk). inversion Hm; subst. eauto 10.
  - rewrite IH1. split.
    + intros (j & t & H1 & H2). apply IH2 in H2 as (j' & u & H2 & Hk).
      exists j', u. split; [econstructor; eassumption | exact Hk].
    + intros (j' & u & Hm & Hk). inversion Hm; subst.
      eexists _, _. split; [eassumption|]. apply IH2. eauto.
  - split.
    + destruct (m r1 i s k) as [e|] eqn:H1.
      * intros _. assert (Hs : is_Some (m r1 i s k)) by (rewrite H1; eauto).
        apply IH1 in Hs as (j & u & Hm & Hk).
        exists j, u. split; [apply Matches_Alt_l, Hm | exact Hk].
      * intros Hs. apply IH2 in Hs as (j & u & Hm & Hk).
        exists j, u. split; [apply Matches_Alt_r, Hm | exact Hk].
    + intros (j & u & Hm & Hk). inversion Hm; subst.
      * assert (Hs : is_Some (m r1 i s k)) by (apply IH1; eauto).
        destruct Hs as [e ->]. eauto.
      * destruct (m r1 i s k); [eauto|]. apply IH2. eauto.
  - split.
    + destruct i; [|intros [? ?]; discriminate]. intros Hk.
      exists O, s. split; [constructor | exact Hk].
    + intros (j & u & Hm & Hk). inversion Hm; subst. exact Hk.
  - split.
    + destruct s; [|intros [? ?]; discriminate]. intros Hk.
      exists i, []. split; [constructor | exact Hk].
    + intros (j & u & Hm & Hk). inversion Hm; subst. exact Hk.
Qed.

(** An anchored pattern matches at index 0 only. *)
Lemma search_Bol (r : regex) (i : nat) (s : jsstring) :
  search (Seq Bol r) (S i) s = false.
Proof.
  revert i. induction s as [|c s IH]; intros i; [reflexivity|].
  cbn [search match_at m]. apply IH.
Qed.

Lemma test_Bol (r : regex) (s : jsstring) :
  test (Seq Bol r) s = bool_decide (is_Some (match_at r O s)).
Proof.
  unfold test. destruct s as [|c s]; cbn [search].
  - change (match_at (Seq Bol r) 0 []) with (match_at r 0 []).
    destruct (match_at r 0 []) as [e|];
      [rewrite bool_decide_eq_true_2 by eauto; reflexivity|].
    rewrite bool_decide_eq_false_2 by (intros [? ?]; discriminate).
    reflexivity.
  - change (match_at (Seq Bol r) 0 (c :: s)) with (match_at r 0 (c :: s)).
    destruct (match_at r 0 (c :: s)) as [e|];
      [rewrite bool_decide_eq_true_2 by eauto; reflexivity|].
    rewrite search_Bol.
    rewrite bool_decide_eq_false_2 by (intros [? ?]; discriminate).
    reflexivity.
Qed.

(** [p*] up to the end of the input. *)
Lemma rep_star_end (p : cu → bool) (i : nat) (s : jsstring) :
  rep p 0 None i s at_end = if forallb p s then Some [] else None.
Proof.
  revert i. induction s as [|c s IH]; intros i; [reflexivity|].
  cbn [rep forallb]. destruct (p c); cbn [andb negb fmap option_fmap option_map].
  - rewrite bool_decide_eq_false_2 by discriminate. cbn [negb].
    rewrite IH. destruct (forallb p s); reflexivity.
  - reflexivity.
Qed.

(** [p+] up to the end of the input. *)
Lemma rep_plus_end (p : cu → bool) (i : nat) (s : jsstring) :
  rep p 1 None i s at_end =
    match s with
    | [] => None
    | _ :: _ => if forallb p s then Some [] else None
    end.
Proof.
  destruct s as [|c s]; [reflexivity|].
  cbn [rep forallb]. destruct (p c); cbn [andb negb fmap option_fmap option_map].
  - rewrite bool_decide_eq_false_2 by discriminate. cbn [negb].
    apply rep_star_end.
  - reflexivity.
Qed.

(** [/^p+$/.test(s)]: [s] is not empty and all of it is in the class. *)
Lemma test_anchored_plus (p : cu → bool) (s : jsstring) :
  test (Seq Bol (Seq (plus p) Eol)) s =
    match s with [] => false | _ :: _ => forallb p s end.
Proof.
  rewrite test_Bol. unfold match_at, plus.
  change (m (Seq (Rep p 1 None) Eol) 0 s (λ _ t, Some t))
    with (rep p 1 None 0 s at_end).
  rewrite rep_plus_end. destruct s as [|c s].
  - apply bool_decide_eq_false_2. intros [? ?]; discriminate.
  - destruct (forallb p (c :: s)).
    + apply bool_decide_eq_true_2. eauto.
    + apply bool_decide_eq_false_2. intros [? ?]; discriminate.
Qed.

End RegExpFacts.

(** ** The username rule *)

Section Username.
Import RegExp TextSpec FieldSpec.

Lemma word_in_charset (c : cu) : Part000.word c = true ↔ in_charset c.
Proof.
  unfold Part000.word, either, range, one, in_charset.
  change (chr "a") with 97%N. change (chr "z") with 122%N.
  change (chr "A") with 65%N. change (chr "Z") with 90%N.
  change (chr "0") with 48%N. change (chr "9") with 57%N.
  change (chr "_") with 95%N.
  rewrite !orb_true_iff, !andb_true_iff, !N.leb_le, N.eqb_eq. lia.
Qed.

Lemma forallb_word (s : jsstring) :
  forallb Part000.word s = true ↔ Forall in_charset s.
Proof.
  induction s as [|c s IH]; cbn [forallb].
  - split; [constructor | reflexivity].
  - rewrite andb_true_iff, Forall_cons, IH, word_in_charset. reflexivity.
Qed.

(** In part_000 the validator accepts exactly the values of the rule. *)
Lemma validators_username_iff (v : JSValue) :
  Part000.validators.username v = true ↔ username_rule v.
Proof.
  unfold username_rule. split.
  - destruct v as [| | | |s]; try discriminate. cbn [Part000.validators.username].
    unfold Part000.re_username. rewrite test_anchored_plus.
    rewrite !andb_true_iff, !Nat.leb_le. intros [[Hlo Hhi] Hre].
    exists s. split; [reflexivity|]. split; [lia|].
    apply forallb_word. destruct s; [discriminate | exact Hre].
  - intros (s & -> & [Hlo Hhi] & Hall). cbn [Part000.validators.username].
    unfold Part000.re_username. rewrite test_anchored_plus.
    rewrite !andb_true_iff, !Nat.leb_le. split; [lia|].
    destruct s as [|c s]; [cbn in Hlo; lia|]. apply forallb_word, Hall.
Qed.

(** C6.  In part_000 the username validator accepts a value if and only
    if it is a string whose trimmed length is between 3 and 50 and whose
    characters are all in [A-Za-z0-9_], and a value it rejects gets a
    username error.  The check of server.js does not: the username
    [budi 88], which has a space, is outside the rule, and server.js
    finds nothing wrong with it. *)
Theorem username_rule_missed_by_server :
  (∀ v, Part000.validators.username v = true ↔ username_rule v)
  ∧ (∀ H now (b : Body), ¬ username_rule (b username) →
       ∃ msg, (username, msg) ∈ Part000.validationErrors H now b)
  ∧ ¬ username_rule (JString (lit "budi 88"))
  ∧ Server.bad_username (JString (lit "budi 88")) = Ok false
  ∧ Server.validationErrors Sample.host Sample.now
      (Sample.with_field Sample.good username (JString (lit "budi 88")))
      = Ok [].
Proof.
  split; [exact validators_username_iff|]. split; [|split; [|split]].
  - intros H now b Hrule.
    exists (lit "Username tidak valid").
    unfold Part000.validationErrors.
    destruct (Part000.validators.username (b username)) eqn:Hu.
    + apply validators_username_iff in Hu. contradiction.
    + cbn [negb set_if]. left.
  - rewrite <- validators_username_iff. vm_compute. discriminate.
  - vm_compute. reflexivity.
  - vm_compute. reflexivity.
Qed.

End Username.

(** ** The sanitizer *)

Section Trim.
Import TextSpec.

Lemma trimStart_suffix (s : jsstring) : ∃ w, s = w ++ trimStart s.
Proof.
  induction s as [|c s [w IH]]; [exists []; reflexivity|].
  cbn [trimStart]. destruct (is_space c).
  - exists (c :: w). cbn. f_equal. exact IH.
  - exists []. reflexivity.
Qed.

Lemma trimEnd_prefix (s : jsstring) : ∃ w, s = trimEnd s ++ w.
Proof.
  unfold trimEnd. destruct (trimStart_suffix (rev s)) as [w Hw].
  exists (rev w). rewrite <- rev_app_distr, <- Hw, rev_involutive.
  reflexivity.
Qed.

Lemma trimStart_head (s : jsstring) c t :
  trimStart s = c :: t → is_space c = false.
Proof.
  induction s as [|x s IH]; [discriminate|]. cbn [trimStart].
  destruct (is_space x) eqn:Hx; [exact IH|]. intros [= <- _]. exact Hx.
Qed.

Lemma trimStart_id (s : jsstring) :
  (∀ c t, s = c :: t → is_space c = false) → trimStart s = s.
Proof.
  destruct s as [|c s]; [reflexivity|]. intros Hh. cbn [trimStart].
  rewrite (Hh c s eq_refl). reflexivity.
Qed.

Lemma trimStart_snoc (a : jsstring) (c : cu) :
  is_space c = false → trimStart (a ++ [c]) = trimStart a ++ [c].
Proof.
  intros Hc. induction a as [|x a IH]; cbn [app trimStart].
  - rewrite Hc. reflexivity.
  - destruct (is_space x); [exact IH | reflexivity].
Qed.

Lemma trimEnd_cons (c : cu) (t : jsstring) :
  is_space c = false → trimEnd (c :: t) = c :: trimEnd t.
Proof.
  intros Hc. unfold trimEnd. cbn [rev].
  rewrite trimStart_snoc by exact Hc. rewrite rev_app_distr. reflexivity.
Qed.

Lemma trimEnd_last (s : jsstring) c t :
  trimEnd s = t ++ [c] → is_space c = false.
Proof.
  unfold trimEnd. intros Heq. apply (f_equal (@rev cu)) in Heq.
  rewrite rev_involutive, rev_app_distr in Heq. cbn in Heq.
  exact (trimStart_head _ _ _ Heq).
Qed.

Lemma trimEnd_id (s : jsstring) :
  (∀ c t, s = t ++ [c] → is_space c = false) → trimEnd s = s.
Proof.
  intros Hl. unfold trimEnd. rewrite trimStart_id; [apply rev_involutive|].
  intros c t Heq. apply (Hl c (rev t)).
  rewrite <- (rev_involutive s), Heq. reflexivity.
Qed.

Lemma trim_trimmed (s : jsstring) : trimmed (trim s).
Proof.
  unfold trim. split.
  - destruct (trimStart s) as [|x y] eqn:Hy; [discriminate|].
    pose proof (trimStart_head _ _ _ Hy) as Hx.
    rewrite trimEnd_cons by exact Hx. intros c t [= <- _]. exact Hx.
  - intros c t. apply trimEnd_last.
Qed.

Lemma trimmed_trim (s : jsstring) : trimmed s → trim s = s.
Proof.
  intros [Hh Hl]. unfold trim. rewrite trimStart_id by exact Hh.
  apply trimEnd_id, Hl.
Qed.

Lemma trim_idempotent (s : jsstring) : trim (trim s) = trim s.
Proof. apply trimmed_trim, trim_trimmed. Qed.

(** *** Strings without a tag opening *)

Lemma clean_cons (c : cu) (s : jsstring) :
  clean (c :: s) = true ↔
  (∀ d t, s = d :: t → RegExp.one "<" c && negb (RegExp.one ">" d) = false)
  ∧ clean s = true.
Proof.
  cbn [clean]. rewrite andb_true_iff. destruct s as [|d t].
  - split; [intros [_ Hc]; split; [discriminate | exact Hc]|].
    intros [_ Hc]. split; [reflexivity | exact Hc].
  - rewrite negb_true_iff. split; intros [Hd Hc]; split; try exact Hc.
    + intros d' t' [= <- <-]. exact Hd.
    + apply (Hd d t eq_refl).
Qed.

Lemma clean_app_r (a b : jsstring) : clean (a ++ b) = true → clean b = true.
Proof.
  induction a as [|c a IH]; [trivial|]. cbn [app].
  rewrite clean_cons. intros [_ Hc]. exact (IH Hc).
Qed.

Lemma clean_app_l (a b : jsstring) : clean (a ++ b) = true → clean a = true.
Proof.
  induction a as [|c a IH]; [reflexivity|]. cbn [app].
  rewrite !clean_cons. intros [Hd Hc]. split; [|exact (IH Hc)].
  intros d t ->. apply (Hd d (t ++ b)). reflexivity.
Qed.

Lemma clean_trim (s : jsstring) : clean s = true → clean (trim s) = true.
Proof.
  intros Hc. unfold trim.
  destruct (trimStart_suffix s) as [w Hw].
  destruct (trimEnd_prefix (trimStart s)) as [w' Hw'].
  rewrite Hw in Hc. apply clean_app_r in Hc.
  rewrite Hw' in Hc. exact (clean_app_l _ _ Hc).
Qed.

End Trim.

Section Sanitizer.
Import RegExp TextSpec.

Lemma rep_max0 {R} (p : cu → bool) i s (k : nat → jsstring → option R) :
  rep p 0 (Some O) i s k = k i s.
Proof.
  destruct s as [|c s]; [reflexivity|]. cbn [rep].
  rewrite bool_decide_eq_true_2 by reflexivity.
  rewrite andb_false_r. reflexivity.
Qed.

(** [p?] followed by [k]. *)
Lemma rep_opt {R} (p : cu → bool) i s (k : nat → jsstring → option R) :
  rep p 0 (Some 1%nat) i s k =
    match s with
    | c :: t =>
        if p c then match k (S i) t with
                    | Some e => Some e
                    | None => k i s
                    end
        else k i s
    | [] => k i s
    end.
Proof.
  destruct s as [|c s]; [reflexivity|]. cbn [rep].
  rewrite bool_decide_eq_false_2 by discriminate.
  destruct (p c); cbn [andb negb]; [|reflexivity].
  cbn [fmap option_fmap option_map Nat.pred]. rewrite rep_max0. reflexivity.
Qed.

(** [[^>]*(>|$)] runs through the first [>], or to the end. *)
Lemma rep_notgt_star (i : nat) (u : jsstring) :
  rep (except (one ">")) 0 None i u tag_end = Some (after_gt u).
Proof.
  revert i. induction u as [|c u IH]; intros i; [reflexivity|].
  cbn [rep after_gt]. unfold except at 1.
  destruct (one ">" c) eqn:Hc; cbn [negb andb].
  - unfold tag_end. cbn [m]. rewrite Hc. reflexivity.
  - rewrite bool_decide_eq_false_2 by discriminate. cbn [negb].
    cbn [fmap option_fmap option_map]. rewrite IH. reflexivity.
Qed.

Lemma rep_notgt_plus (i : nat) (u : jsstring) :
  rep (except (one ">")) 1 None i u tag_end =
    match u with
    | c :: _ => if one ">" c then None else Some (after_gt u)
    | [] => None
    end.
Proof.
  destruct u as [|c u]; [reflexivity|].
  cbn [rep after_gt]. unfold except at 1.
  destruct (one ">" c) eqn:Hc; cbn [negb andb]; [reflexivity|].
  rewrite bool_decide_eq_false_2 by discriminate. cbn [negb].
  cbn [fmap option_fmap option_map]. apply rep_notgt_star.
Qed.

Lemma slash_not_gt (d : cu) : one "/" d = true → one ">" d = false.
Proof.
  unfold one. change (chr "/") with 47%N. change (chr ">") with 62%N.
  rewrite N.eqb_eq, N.eqb_neq. lia.
Qed.

(** Where the tag pattern matches and what it leaves: at a [<] that is
    followed by a code unit other than [>], through the next [>] or to
    the end of the input. *)
Lemma match_at_re_tag (i : nat) (s : jsstring) :
  match_at Part000.re_tag i s =
    match s with
    | c :: d :: t =>
        if one "<" c && negb (one ">" d) then Some (after_gt (d :: t))
        else None
    | _ => None
    end.
Proof.
  destruct s as [|c [|d t]]; [reflexivity | |].
  - change (match_at Part000.re_tag i [c])
      with (if one "<" c
            then rep (one "/") 0 (Some 1%nat) (S i) []
                   (λ j u, rep (except (one ">")) 1 None j u tag_end)
            else None).
    destruct (one "<" c); reflexivity.
  - change (match_at Part000.re_tag i (c :: d :: t))
      with (if one "<" c
            then rep (one "/") 0 (Some 1%nat) (S i) (d :: t)
                   (λ j u, rep (except (one ">")) 1 None j u tag_end)
            else None).
    destruct (one "<" c); [|reflexivity]. cbn [andb].
    rewrite rep_opt, !rep_notgt_plus.
    destruct (one "/" d) eqn:Hd.
    + rewrite (slash_not_gt d Hd). cbn [after_gt negb].
      rewrite (slash_not_gt d Hd).
      destruct t as [|c' t']; [reflexivity|].
      destruct (one ">" c'); reflexivity.
    + destruct (one ">" d); reflexivity.
Qed.

Lemma after_gt_length (u : jsstring) : (length (after_gt u) ≤ length u)%nat.
Proof.
  induction u as [|c u IH]; [reflexivity|]. cbn [after_gt length].
  destruct (one ">" c); lia.
Qed.

(** One step of the global replacement with the tag pattern. *)
Lemma replace_go_tag (f i : nat) (s : jsstring) :
  replace_go (S f) Part000.re_tag i s =
    match s with
    | [] => []
    | c :: s' =>
        match s' with
        | d :: _ =>
            if one "<" c && negb (one ">" d)
            then replace_go f Part000.re_tag
                   (i + (length s - length (after_gt s'))) (after_gt s')
            else c :: replace_go f Part000.re_tag (S i) s'
        | [] => c :: replace_go f Part000.re_tag (S i) s'
        end
    end.
Proof.
  cbn [replace_go]. rewrite match_at_re_tag.
  destruct s as [|c [|d t]]; [reflexivity | reflexivity |].
  destruct (one "<" c && negb (one ">" d)); [|reflexivity].
  pose proof (after_gt_length (d :: t)) as Hl.
  destruct (length (c :: d :: t) - length (after_gt (d :: t)))%nat eqn:Hn.
  - cbn [length] in *. lia.
  - reflexivity.
Qed.

Lemma replace_go_nil (f i : nat) : replace_go f Part000.re_tag i [] = [].
Proof. destruct f; [reflexivity | apply replace_go_tag]. Qed.

(** A [>] at the head of the input stays at the head of the output. *)
Lemma replace_go_head_gt (f i : nat) (d : cu) (t : jsstring) :
  one ">" d = true →
  ∃ o, replace_go f Part000.re_tag i (d :: t) = d :: o.
Proof.
  intros Hd. destruct f; [eauto|]. rewrite replace_go_tag.
  assert (Hlt : one "<" d = false).
  { revert Hd. unfold one. change (chr "<") with 60%N.
    change (chr ">") with 62%N. rewrite N.eqb_eq, N.eqb_neq. lia. }
  rewrite Hlt. destruct t; eauto.
Qed.

(** With enough fuel the output of the replacement has no tag opening
    left. *)
Lemma replace_go_clean (f : nat) : ∀ (i : nat) (s : jsstring),
  (length s < f)%nat → clean (replace_go f Part000.re_tag i s) = true.
Proof.
  induction f as [|f IH]; intros i s Hf; [lia|].
  rewrite replace_go_tag. destruct s as [|c [|d t]]; [reflexivity | |].
  - rewrite replace_go_nil. reflexivity.
  - cbn [length] in Hf.
    destruct (one "<" c && negb (one ">" d)) eqn:Htag.
    + apply IH. pose proof (after_gt_length (d :: t)). cbn [length] in *. lia.
    + apply clean_cons. split; [|apply IH; cbn [length]; lia].
      intros d' t' Hout.
      apply andb_false_iff in Htag as [Hc|Hd]; [rewrite Hc; reflexivity|].
      apply negb_false_iff in Hd.
      destruct (replace_go_head_gt f (S i) d t Hd) as [o Ho].
      rewrite Ho in Hout. injection Hout as <- _.
      rewrite Hd. apply andb_false_r.
Qed.

(** A string with no tag opening is left as it is. *)
Lemma replace_go_clean_id (f : nat) : ∀ (i : nat) (s : jsstring),
  clean s = true → replace_go f Part000.re_tag i s = s.
Proof.
  induction f as [|f IH]; intros i s Hc; [reflexivity|].
  rewrite replace_go_tag. destruct s as [|c [|d t]]; [reflexivity | |].
  - rewrite replace_go_nil. reflexivity.
  - apply clean_cons in Hc as [Hd Hc].
    rewrite (Hd d t eq_refl). f_equal. apply IH, Hc.
Qed.

Lemma sanitize_string_clean (s : jsstring) :
  clean (trim (replace_all Part000.re_tag s)) = true.
Proof.
  apply clean_trim. unfold replace_all. apply replace_go_clean. lia.
Qed.

Lemma clean_no_tag (o pre t : jsstring) :
  clean o = true → o = pre ++ t → ¬ tag_like_at pre t.
Proof.
  intros Hc -> [e He]. apply clean_app_r in Hc.
  rewrite match_at_re_tag in He.
  destruct t as [|c [|d t]]; try discriminate.
  apply clean_cons in Hc as [Hd _]. rewrite (Hd d t eq_refl) in He.
  discriminate.
Qed.

Lemma no_tag_clean (s : jsstring) :
  (∀ pre t, s = pre ++ t → ¬ tag_like_at pre t) → clean s = true.
Proof.
  induction s as [|c s IH]; intros Hno; [reflexivity|].
  apply clean_cons. split.
  - intros d t ->. specialize (Hno [] (c :: d :: t) eq_refl).
    unfold tag_like_at in Hno. rewrite match_at_re_tag in Hno.
    destruct (one "<" c && negb (one ">" d)); [|reflexivity].
    exfalso. apply Hno. eauto.
  - apply IH. intros pre t ->. unfold tag_like_at.
    specialize (Hno (c :: pre) t eq_refl). unfold tag_like_at in Hno.
    rewrite match_at_re_tag in Hno |- *. exact Hno.
Qed.

(** C5.  The sanitizer is idempotent; its output on a string has no
    tag-like substring left (no place where the pattern [<...>] or an
    unterminated [<...] matches) and no surrounding whitespace, and a
    string that has neither is returned as it is; the string
    [<script>alert(1)</script>] comes out as [alert(1)]; and an input
    that is not a string is returned as it is. *)
Theorem sanitize_idempotent :
  (∀ v, Part000.sanitize (Part000.sanitize v) = Part000.sanitize v)
  ∧ (∀ s o, Part000.sanitize (JString s) = JString o →
        (∀ pre t, o = pre ++ t → ¬ tag_like_at pre t) ∧ trimmed o)
  ∧ (∀ s, (∀ pre t, s = pre ++ t → ¬ tag_like_at pre t) → trimmed s →
          Part000.sanitize (JString s) = JString s)
  ∧ Part000.sanitize (JString (lit "<script>alert(1)</script>"))
      = JString (lit "alert(1)")
  ∧ Part000.sanitize (JString (lit "  see <b>this</b> <a href=x"))
      = JString (lit "see this")
  ∧ (∀ v, typeof v ≠ TString → Part000.sanitize v = v).
Proof.
  split; [|split; [|split; [|split; [|split]]]].
  - intros [| | | |s]; try reflexivity. cbn [Part000.sanitize]. f_equal.
    unfold replace_all at 1.
    rewrite replace_go_clean_id by apply sanitize_string_clean.
    apply trim_idempotent.
  - intros s o [= <-]. split.
    + intros pre t. apply clean_no_tag, sanitize_string_clean.
    + apply trim_trimmed.
  - intros s Hno Htr. cbn [Part000.sanitize]. f_equal. unfold replace_all.
    rewrite replace_go_clean_id by apply no_tag_clean, Hno.
    apply trimmed_trim, Htr.
  - vm_compute. reflexivity.
  - vm_compute. reflexivity.
  - intros [| | | |s] Ht; try reflexivity. contradiction.
Qed.

End Sanitizer.

(** * Further properties of the token store (src/server.js) *)

Section TokenFormat.
Import Server StoreSpec HexSpec.
Variable H : Host.

Implicit Types (m : TokenStore) (req : Request) (now : Z).

Lemma length_randomBytes n (e : nat → N) : length (randomBytes n e) = n.
Proof. unfold randomBytes. rewrite length_fmap. apply length_seq. Qed.

Lemma randomBytes_lt n (e : nat → N) :
  Forall (λ b, (b < 256)%N) (randomBytes n e).
Proof.
  unfold randomBytes. apply Forall_fmap, Forall_forall. intros i _. cbn.
  apply N.mod_lt. discriminate.
Qed.

Lemma length_toString_hex (buf : list N) :
  length (toString_hex buf) = (2 * length buf)%nat.
Proof.
  unfold toString_hex. induction buf as [|b buf IH]; [reflexivity|].
  cbn [mbind list_bind length app]. cbn [mbind] in IH. rewrite IH. lia.
Qed.

Lemma is_hex_hexdigit (d : N) : (d < 16)%N → is_hex (hexdigit d) = true.
Proof.
  intros Hd. unfold is_hex, hexdigit.
  destruct (N.ltb_spec d 10).
  - apply orb_true_intro. left. apply andb_true_intro.
    split; apply N.leb_le; lia.
  - apply orb_true_intro. right. apply andb_true_intro.
    split; apply N.leb_le; lia.
Qed.

Lemma unhexdigit_hexdigit (d : N) : (d < 16)%N → unhexdigit (hexdigit d) = d.
Proof.
  intros Hd. unfold unhexdigit, hexdigit.
  destruct (N.ltb_spec d 10).
  - destruct (N.leb_spec (48 + d) 57); lia.
  - destruct (N.leb_spec (87 + d) 57); lia.
Qed.

Lemma is_hex_toString_hex (buf : list N) :
  Forall (λ b, (b < 256)%N) buf → forallb is_hex (toString_hex buf) = true.
Proof.
  unfold toString_hex. induction 1 as [|b buf Hb _ IH]; [reflexivity|].
  cbn [mbind list_bind app forallb]. cbn [mbind] in IH. rewrite IH.
  rewrite !is_hex_hexdigit; [reflexivity| |].
  - apply N.mod_lt. discriminate.
  - apply N.Div0.div_lt_upper_bound. lia.
Qed.

Lemma unhex_toString_hex (buf : list N) :
  Forall (λ b, (b < 256)%N) buf → unhex (toString_hex buf) = buf.
Proof.
  unfold toString_hex. induction 1 as [|b buf Hb _ IH]; [reflexivity|].
  cbn [mbind list_bind app unhex]. cbn [mbind] in IH. rewrite IH.
  rewrite !unhexdigit_hexdigit.
  - f_equal. rewrite N.mul_comm. symmetry. rewrite N.add_comm, N.mul_comm.
    rewrite N.add_comm. apply N.div_mod. discriminate.
  - apply N.mod_lt. discriminate.
  - apply N.Div0.div_lt_upper_bound. lia.
Qed.

Lemma token_format (e : nat → N) now :
  length (token (generateSecureToken e now)) = 64%nat
  ∧ forallb is_hex (token (generateSecureToken e now)) = true.
Proof.
  cbn [generateSecureToken token]. split.
  - rewrite length_toString_hex, length_randomBytes. reflexivity.
  - apply is_hex_toString_hex, randomBytes_lt.
Qed.

(** X1.  The csrfToken cookie set by the token route is a string of 64
    lowercase hexadecimal digits; the sessionId cookie repeats the
    cookie of the request when that one is not empty, and is a string
    of 32 lowercase hexadecimal digits otherwise. *)
Theorem get_csrf_token_cookie_format req e_sid e_tok now m :
  length (value (set_csrfToken (get_csrf_token H req e_sid e_tok now m).1))
    = 64%nat
  ∧ forallb is_hex
      (value (set_csrfToken (get_csrf_token H req e_sid e_tok now m).1))
    = true
  ∧ match sessionId (cookies req) with
    | Some (c :: s) =>
        value (set_sessionId (get_csrf_token H req e_sid e_tok now m).1)
          = c :: s
    | _ =>
        length
          (value (set_sessionId (get_csrf_token H req e_sid e_tok now m).1))
          = 32%nat
        ∧ forallb is_hex
            (value (set_sessionId (get_csrf_token H req e_sid e_tok now m).1))
          = true
    end.
Proof.
  rewrite get_csrf_token_run. cbn [fst set_csrfToken set_sessionId cookie value].
  split; [apply token_format|]. split; [apply token_format|].
  unfold issued_sid.
  assert (Hfresh : length (toString_hex (randomBytes 16 e_sid)) = 32%nat
                   ∧ forallb is_hex (toString_hex (randomBytes 16 e_sid)) = true).
  { split.
    - rewrite length_toString_hex, length_randomBytes. reflexivity.
    - apply is_hex_toString_hex, randomBytes_lt. }
  destruct (sessionId (cookies req)) as [[|c s]|]; cbn [truthy];
    [exact Hfresh | reflexivity | exact Hfresh].
Qed.

(** X2.  A token is the hexadecimal writing of the 32 random bytes it
    was drawn from: decoding the token gives the bytes back, so two
    tokens are equal only when the bytes drawn were. *)
Theorem generateSecureToken_decodes (e1 e2 : nat → N) (t1 t2 : Z) :
  unhex (token (generateSecureToken e1 t1)) = randomBytes 32 e1
  ∧ (token (generateSecureToken e1 t1) = token (generateSecureToken e2 t2)
     ↔ randomBytes 32 e1 = randomBytes 32 e2).
Proof.
  cbn [generateSecureToken token].
  assert (Hdec : ∀ e, unhex (toString_hex (randomBytes 32 e))
                      = randomBytes 32 e)
    by (intros e; apply unhex_toString_hex, randomBytes_lt).
  split; [apply Hdec|]. split.
  - intros Heq. rewrite <- (Hdec e1), <- (Hdec e2), Heq. reflexivity.
  - intros ->. reflexivity.
Qed.

Lemma store_inv_get_csrf_token req e_sid e_tok now m :
  store_inv m → store_inv (get_csrf_token H req e_sid e_tok now m).2.
Proof.
  intros Hinv k d. rewrite get_csrf_token_run. cbn [snd].
  rewrite sweep_lookup, lookup_insert.
  case_decide as Hk.
  - subst k. destruct (_ <? _); [discriminate|]. intros [= <-].
    split; [apply issued_sid_nonempty | apply token_format].
  - destruct (m !! k) as [d'|] eqn:Hl; cbn; [|discriminate].
    destruct (_ <? _); [discriminate|]. intros [= <-].
    exact (Hinv _ _ Hl).
Qed.

Lemma store_inv_delete k m : store_inv m → store_inv (delete k m).
Proof.
  intros Hinv k' d Hl. apply lookup_delete_Some in Hl as [_ Hl].
  exact (Hinv _ _ Hl).
Qed.

(** X3.  In every store the server can be in, starting from the empty
    store of a fresh process, each record is filed under a non-empty
    session identifier and holds a token of 64 lowercase hexadecimal
    digits. *)
Theorem reachable_store_inv m : reachable H m → store_inv m.
Proof.
  induction 1 as [|ev m _ IH].
  - intros k d Hk. rewrite lookup_empty in Hk. discriminate.
  - destruct ev as [rq e_sid e_tok t | rq t | rq ref error]; unfold step;
      rewrite bind_run; cbn [Server.ret mret St_ret snd].
    + apply store_inv_get_csrf_token, IH.
    + rewrite validateCsrfToken_frame. exact IH.
    + rewrite sendMail_callback_store.
      destruct (truthy _), error; auto using store_inv_delete.
Qed.

End TokenFormat.

Section TokenLifeCycle.
Import Server StoreSpec HexSpec.
Variable H : Host.

Implicit Types (m : TokenStore) (req : Request) (now : Z).

Lemma truthy_None (c : option jsstring) :
  truthy c = None ↔ c = None ∨ c = Some [].
Proof.
  destruct c as [[|x t]|]; cbn; split; auto; try discriminate.
  intros [?|?]; discriminate.
Qed.

(** The middleware on a request whose two cookies are not empty. *)
Lemma validateCsrfToken_eval req now m (sid tok : jsstring) :
  truthy (sessionId (cookies req)) = Some sid →
  truthy (csrfToken (cookies req)) = Some tok →
  (validateCsrfToken req now m).1 =
    match m !! sid with
    | Some d =>
        if negb (bool_decide (token d = tok)) || (expires d <? now)
        then Responded
               (error_response 403 "Token CSRF tidak valid atau kedaluwarsa.")
        else Next
    | None =>
        Responded
          (error_response 403 "Token CSRF tidak valid atau kedaluwarsa.")
    end.
Proof.
  intros Hs Ht. unfold validateCsrfToken. rewrite Hs, Ht. st_run.
  destruct (m !! sid) as [d|]; [|reflexivity].
  destruct (negb _ || _); reflexivity.
Qed.

(** The outcome of the middleware depends on the store only through
    the record of the request's own session. *)
Lemma validateCsrfToken_ext req now m1 m2 :
  (∀ sid : jsstring, truthy (sessionId (cookies req)) = Some sid →
     m1 !! sid = m2 !! sid) →
  (validateCsrfToken req now m1).1 = (validateCsrfToken req now m2).1.
Proof.
  intros Hsame. unfold validateCsrfToken.
  destruct (truthy (sessionId (cookies req))) as [sid|]; [|reflexivity].
  destruct (truthy (csrfToken (cookies req))) as [tok|]; [|reflexivity].
  st_run. rewrite (Hsame sid eq_refl).
  destruct (m2 !! sid) as [d|]; [|reflexivity].
  destruct (negb _ || _); reflexivity.
Qed.

(** One request to the submission route, step by step. *)
Lemma send_complaint_run req now error m :
  send_complaint H req now error m =
    match (validateCsrfToken req now m).1 with
    | Responded r => (r, m)
    | Next =>
        match handler H req now with
        | Respond r => (r, m)
        | SendMail _ ref =>
            if error then (error_response 500 "Gagal mengirim email", m)
            else (success_response ref,
                  match truthy (sessionId (cookies req)) with
                  | Some sid => delete sid m
                  | None => m
                  end)
        end
    end.
Proof.
  unfold send_complaint. rewrite bind_run, validateCsrfToken_frame.
  destruct (validateCsrfToken req now m).1; [|reflexivity].
  destruct (handler H req now) as [r|mo ref]; [reflexivity|].
  rewrite (surjective_pairing (sendMail_callback req ref error m)).
  rewrite sendMail_callback_store, sendMail_callback_response.
  destruct error; [|reflexivity].
  destruct (truthy _); reflexivity.
Qed.

Lemma handler_valid req now b :
  body req = Some b → validationErrors H now b = Ok [] →
  handler H req now = SendMail (mailOptions H now b) (refNumber now).
Proof.
  intros Hb Hv. unfold handler. rewrite Hb. cbn [destructure rbind].
  rewrite Hv. reflexivity.
Qed.

(** The middleware lets the cookies of a token response through
    until the expiry. *)
Lemma validateCsrfToken_issued req0 e_sid e_tok t0 m b t1 :
  t1 ≤ t0 + 1800000 →
  (validateCsrfToken
     {| cookies := cookies_of (get_csrf_token H req0 e_sid e_tok t0 m).1;
        body := b |} t1
     (get_csrf_token H req0 e_sid e_tok t0 m).2).1 = Next.
Proof.
  intros Ht. apply validateCsrfToken_Next.
  cbn [cookies cookies_of sessionId csrfToken]. rewrite get_csrf_token_sid.
  exists (issued_sid req0 e_sid), (token (generateSecureToken e_tok t0)),
         (generateSecureToken e_tok t0).
  split; [reflexivity|]. split; [apply issued_sid_nonempty|].
  split; [rewrite get_csrf_token_run; reflexivity|].
  split; [apply toString_hex_nonempty|].
  split; [apply get_csrf_token_lookup_own|].
  split; [reflexivity|]. cbn [generateSecureToken expires]. lia.
Qed.

(** X4.  A token is good for 30 minutes, the last millisecond
    included: the middleware lets through a request that carries the
    two cookies of a token response issued at [t0] exactly when the
    request arrives at a time [t1 <= t0 + 1800000], whatever the store
    held before the issuance. *)
Theorem issued_token_lifetime req0 e_sid e_tok t0 m b t1 :
  (validateCsrfToken
     {| cookies := cookies_of (get_csrf_token H req0 e_sid e_tok t0 m).1;
        body := b |} t1
     (get_csrf_token H req0 e_sid e_tok t0 m).2).1 = Next
  ↔ t1 ≤ t0 + 1800000.
Proof.
  split; [|apply validateCsrfToken_issued].
  rewrite validateCsrfToken_Next. cbn [cookies cookies_of sessionId csrfToken].
  rewrite get_csrf_token_sid.
  intros (sid & tok & d & [= <-] & _ & _ & _ & Hd & _ & Hexp).
  rewrite get_csrf_token_lookup_own in Hd. injection Hd as <-.
  cbn [generateSecureToken expires] in Hexp. lia.
Qed.

(** X5.  The two messages of the middleware tell the two kinds of
    rejection apart.  It answers "Gagal memverifikasi permintaan. Coba
    lagi." exactly when one of the two cookies is absent or empty, and
    "Token CSRF tidak valid atau kedaluwarsa." exactly when both
    cookies are there and no record is filed under the session
    identifier, or the stored token is not the cookie's, or the expiry
    of the record is before the current time. *)
Theorem validateCsrfToken_messages req now m :
  ((validateCsrfToken req now m).1
     = Responded
         (error_response 403 "Gagal memverifikasi permintaan. Coba lagi.")
   ↔ sessionId (cookies req) = None ∨ sessionId (cookies req) = Some []
     ∨ csrfToken (cookies req) = None ∨ csrfToken (cookies req) = Some [])
  ∧ ((validateCsrfToken req now m).1
       = Responded
           (error_response 403 "Token CSRF tidak valid atau kedaluwarsa.")
     ↔ ∃ sid tok d,
         sessionId (cookies req) = Some sid ∧ sid ≠ [] ∧
         csrfToken (cookies req) = Some tok ∧ tok ≠ [] ∧
         (m !! sid = None ∨
          m !! sid = Some d ∧ (token d ≠ tok ∨ expires d < now))).
Proof.
  assert (Hmsg : lit "Token CSRF tidak valid atau kedaluwarsa."
                 ≠ lit "Gagal memverifikasi permintaan. Coba lagi.")
    by (vm_compute; discriminate).
  destruct (truthy (sessionId (cookies req))) as [sid|] eqn:Hs.
  - destruct (truthy (csrfToken (cookies req))) as [tok|] eqn:Ht.
    + rewrite (validateCsrfToken_eval req now m sid tok Hs Ht).
      apply truthy_Some in Hs as [Hs Hs'], Ht as [Ht Ht'].
      rewrite Hs, Ht. split.
      * split.
        -- unfold error_response.
           destruct (m !! sid) as [d|]; [destruct (negb _ || _)|];
             intros Heq; congruence.
        -- intros [?|[[= ?]|[?|[= ?]]]]; congruence.
      * destruct (m !! sid) as [d|] eqn:Hd.
        -- case_bool_decide as Htok; cbn [negb orb].
           ++ destruct (Z.ltb_spec (expires d) now) as [Hlt|Hge]; split.
              ** intros _. exists sid, tok, d. repeat split; auto.
              ** reflexivity.
              ** discriminate.
              ** intros (? & ? & d' & [= <-] & _ & [= <-] & _
                         & [Hn|[Hd' Hbad]]); [congruence|].
                 assert (d' = d) by congruence. subst d'.
                 destruct Hbad; [contradiction | lia].
           ++ split; [|reflexivity].
              intros _. exists sid, tok, d. repeat split; auto.
        -- split; [|reflexivity].
           intros _. exists sid, tok, {| token := []; expires := 0 |}.
           repeat split; auto.
    + apply truthy_None in Ht.
      assert (Hv : (validateCsrfToken req now m).1
                   = Responded
                       (error_response 403
                          "Gagal memverifikasi permintaan. Coba lagi.")).
      { unfold validateCsrfToken. rewrite Hs.
        destruct (truthy (csrfToken (cookies req))) eqn:Ht'; [|reflexivity].
        apply truthy_Some in Ht'. destruct Ht, Ht'; congruence. }
      rewrite Hv. split.
      * split; [intros _; tauto | reflexivity].
      * split.
        -- unfold error_response. intros Heq. congruence.
        -- intros (? & tok & _ & _ & _ & Ht1 & Ht2 & _).
           destruct Ht; congruence.
  - apply truthy_None in Hs.
    assert (Hv : (validateCsrfToken req now m).1
                 = Responded
                     (error_response 403
                        "Gagal memverifikasi permintaan. Coba lagi.")).
    { unfold validateCsrfToken.
      destruct (truthy (sessionId (cookies req))) eqn:Hs'; [|reflexivity].
      apply truthy_Some in Hs'. destruct Hs, Hs'; congruence. }
    rewrite Hv. split.
    + split; [intros _; tauto | reflexivity].
    + split.
      * unfold error_response. intros Heq. congruence.
      * intros (sid & ? & _ & Hs1 & Hs2 & _). destruct Hs; congruence.
Qed.

End TokenLifeCycle.

Section TokenSessions.
Import Server StoreSpec HexSpec.
Variable H : Host.

Implicit Types (m : TokenStore) (req : Request) (now : Z).

(** What issuance leaves under a key. *)
Lemma get_csrf_token_lookup req e_sid e_tok now m (k : jsstring) :
  (get_csrf_token H req e_sid e_tok now m).2 !! k =
    if decide (issued_sid req e_sid = k)
    then Some (generateSecureToken e_tok now)
    else match m !! k with
         | Some d => if expires d <? now then None else Some d
         | None => None
         end.
Proof.
  rewrite get_csrf_token_run. cbn [snd].
  rewrite sweep_lookup, lookup_insert. case_decide; [|reflexivity].
  cbn [generateSecureToken expires].
  destruct (Z.ltb_spec (now + 30 * 60 * 1000) now); [lia | reflexivity].
Qed.

(** X6.  Asking for a token again replaces the token of the session:
    once the token route has run a second time for the session of an
    earlier token response, with other random bytes, the middleware
    answers 403 to a request that carries the cookies of the earlier
    response, at any time. *)
Theorem get_csrf_token_rotates
    req0 e_sid e_tok t0 m iss0 req1 e_sid' e_tok' t1 iss1 b t2 :
  iss0 = get_csrf_token H req0 e_sid e_tok t0 m →
  sessionId (cookies req1) = Some (value (set_sessionId iss0.1)) →
  randomBytes 32 e_tok' ≠ randomBytes 32 e_tok →
  iss1 = get_csrf_token H req1 e_sid' e_tok' t1 iss0.2 →
  value (set_sessionId iss1.1) = value (set_sessionId iss0.1)
  ∧ rejected_403
      (validateCsrfToken {| cookies := cookies_of iss0.1; body := b |} t2
         iss1.2).1.
Proof.
  intros -> Hs Hbytes ->. rewrite !get_csrf_token_sid in *.
  assert (Hsid : issued_sid req1 e_sid' = issued_sid req0 e_sid).
  { unfold issued_sid at 1. rewrite Hs.
    rewrite (proj2 (truthy_Some _ (issued_sid req0 e_sid)));
      [reflexivity|].
    split; [reflexivity | apply issued_sid_nonempty]. }
  split; [exact Hsid|].
  destruct (validateCsrfToken_cases
              {| cookies := cookies_of (get_csrf_token H req0 e_sid e_tok t0 m).1;
                 body := b |} t2
              (get_csrf_token H req1 e_sid' e_tok' t1
                 (get_csrf_token H req0 e_sid e_tok t0 m).2).2) as [Hn|Hr];
    [exfalso | exact Hr].
  apply validateCsrfToken_Next in Hn
    as (sid & tok & d & Hs1 & _ & Ht1 & _ & Hd & Htok & _).
  cbn [cookies cookies_of sessionId csrfToken] in Hs1, Ht1.
  rewrite get_csrf_token_sid in Hs1. injection Hs1 as <-.
  rewrite get_csrf_token_run in Ht1. cbn in Ht1. injection Ht1 as <-.
  rewrite <- Hsid, get_csrf_token_lookup_own in Hd. injection Hd as <-.
  apply Hbytes. cbn [generateSecureToken token] in Htok.
  rewrite <- (unhex_toString_hex (randomBytes 32 e_tok')),
          <- (unhex_toString_hex (randomBytes 32 e_tok))
    by apply randomBytes_lt.
  rewrite Htok. reflexivity.
Qed.

(** X7.  Sessions do not interfere.  What the middleware answers to a
    request at a time [t'] is the same after the token route has run,
    at a time [t <= t'], for another session, and the same after a
    submission of another session, whatever its outcome. *)
Theorem validateCsrfToken_other_session
    req (sid : jsstring) other e_sid e_tok t t' error m :
  sessionId (cookies req) = Some sid →
  issued_sid other e_sid ≠ sid →
  t ≤ t' →
  (validateCsrfToken req t' (get_csrf_token H other e_sid e_tok t m).2).1
    = (validateCsrfToken req t' m).1
  ∧ (validateCsrfToken req t' (send_complaint H other t error m).2).1
    = (validateCsrfToken req t' m).1.
Proof.
  intros Hs Hother Htime. split.
  - destruct (truthy (sessionId (cookies req))) as [s|] eqn:Hts;
      [|unfold validateCsrfToken; rewrite Hts; reflexivity].
    destruct (truthy (csrfToken (cookies req))) as [tok|] eqn:Htt;
      [|unfold validateCsrfToken; rewrite Hts, Htt; reflexivity].
    rewrite !(validateCsrfToken_eval req t' _ s tok Hts Htt).
    apply truthy_Some in Hts as [Hts _].
    assert (s = sid) by congruence. subst s.
    rewrite get_csrf_token_lookup.
    destruct (decide (issued_sid other e_sid = sid)); [contradiction|].
    destruct (m !! sid) as [d|]; [|reflexivity].
    destruct (Z.ltb_spec (expires d) t) as [Hlt|Hge]; [|reflexivity].
    destruct (Z.ltb_spec (expires d) t') as [_|Hge']; [|lia].
    rewrite orb_true_r. reflexivity.
  - apply validateCsrfToken_ext. intros s Hts.
    apply truthy_Some in Hts as [Hts _].
    assert (s = sid) by congruence. subst s.
    rewrite send_complaint_run.
    destruct (validateCsrfToken other t m).1; [|reflexivity].
    destruct (handler H other t); [reflexivity|].
    destruct error; [reflexivity|]. cbn [snd].
    destruct (truthy (sessionId (cookies other))) as [s'|] eqn:Ho;
      [|reflexivity].
    apply lookup_delete_ne. intros ->. apply Hother.
    unfold issued_sid. rewrite Ho. reflexivity.
Qed.

(** X8.  The token route adds at most one record to the store, the one
    of the session it serves: every record of the store it leaves is
    that one or was there before, and the store has grown by one record
    at most. *)
Theorem get_csrf_token_growth req e_sid e_tok now m :
  (∀ (k : jsstring) d,
     (get_csrf_token H req e_sid e_tok now m).2 !! k = Some d →
     k = value (set_sessionId (get_csrf_token H req e_sid e_tok now m).1)
     ∨ m !! k = Some d)
  ∧ (size (get_csrf_token H req e_sid e_tok now m).2 ≤ S (size m))%nat.
Proof.
  split.
  - intros k d. rewrite get_csrf_token_sid, get_csrf_token_lookup.
    case_decide as Hk; [auto|].
    destruct (m !! k) as [d'|]; [|discriminate].
    destruct (_ <? _); [discriminate|]. auto.
  - transitivity
      (size (<[issued_sid req e_sid := generateSecureToken e_tok now]> m)).
    + apply map_subseteq_size, map_subseteq_spec. intros k d.
      rewrite get_csrf_token_run. cbn [snd]. rewrite sweep_lookup.
      destruct (_ !! k) as [d'|]; [|discriminate].
      destruct (_ <? _); [discriminate|]. auto.
    + destruct (m !! issued_sid req e_sid) eqn:Hl.
      * rewrite map_size_insert_Some by eauto. lia.
      * rewrite map_size_insert_None by exact Hl. lia.
Qed.

(** X9.  A submission that fails does not use the token up.  After a
    token response, a submission with its cookies that is answered
    anything but 200 leaves the token good: a later submission with the
    same cookies, made within the 30 minutes with fields that pass the
    checks and sent by the relay, is answered 200 with its reference
    number, and the record of the session is deleted only then. *)
Theorem failed_submission_keeps_token
    req0 e_sid e_tok t0 m0 iss b1 t1 error post b2 t2 :
  iss = get_csrf_token H req0 e_sid e_tok t0 m0 →
  post = send_complaint H {| cookies := cookies_of iss.1; body := b1 |}
           t1 error iss.2 →
  status post.1 ≠ 200 →
  t2 ≤ t0 + 1800000 →
  validationErrors H t2 b2 = Ok [] →
  post.2 = iss.2
  ∧ send_complaint H {| cookies := cookies_of iss.1; body := Some b2 |}
      t2 false post.2
    = (success_response (refNumber t2),
       delete (value (set_sessionId iss.1)) iss.2).
Proof.
  intros -> -> Hfail Htime Hvalid.
  set (iss := get_csrf_token H req0 e_sid e_tok t0 m0) in *.
  assert (Hkeep : (send_complaint H
                     {| cookies := cookies_of iss.1; body := b1 |}
                     t1 error iss.2).2 = iss.2).
  { revert Hfail. rewrite send_complaint_run.
    destruct (validateCsrfToken _ t1 iss.2).1; [|reflexivity].
    destruct (handler H _ t1); [reflexivity|].
    destruct error; [reflexivity|]. cbn. congruence. }
  split; [exact Hkeep|]. rewrite Hkeep, send_complaint_run.
  unfold iss. rewrite (validateCsrfToken_issued H _ _ _ _ _ _ _ Htime).
  rewrite (handler_valid H
             {| cookies := cookies_of (get_csrf_token H req0 e_sid e_tok t0 m0).1;
                body := Some b2 |} t2 b2 eq_refl Hvalid).
  cbn [cookies cookies_of sessionId].
  assert (Hne : value (set_sessionId
                          (get_csrf_token H req0 e_sid e_tok t0 m0).1) ≠ [])
    by (rewrite get_csrf_token_sid; apply issued_sid_nonempty).
  rewrite (proj2 (truthy_Some _ _) (conj eq_refl Hne)). reflexivity.
Qed.

End TokenSessions.

(** * The order of the checks of a submission *)

Section Decisions.
Import StoreSpec FieldSpec.
Variable H : Host.

Lemma exhaustive_nil (inv : Field → bool) (errs : list (Field * jsstring)) :
  exhaustive inv errs → (errs = [] ↔ ∀ f, inv f = false).
Proof.
  intros (_ & Hkeys & _). split.
  - intros -> f. destruct (inv f) eqn:Hf; [|reflexivity].
    apply Hkeys in Hf. inversion Hf.
  - intros Hall. destruct errs as [|[f msg] errs]; [reflexivity|].
    assert (Hf : inv f = true) by (apply Hkeys; left).
    rewrite Hall in Hf. discriminate.
Qed.

Lemma server_handler_run req now :
  Server.handler H req now =
    match body req with
    | None => Respond (error_response 500 "Terjadi kesalahan pada server")
    | Some b =>
        match collect (λ f, server_invalid H now f (b f)) server_table with
        | [] => SendMail (Server.mailOptions H now b) (refNumber now)
        | e :: errs => Respond (invalid_response (e :: errs))
        end
    end.
Proof.
  unfold Server.handler. destruct (body req) as [b|]; [|reflexivity].
  cbn [destructure rbind]. rewrite server_validationErrors_collect.
  cbn [rbind]. destruct (collect _ _); reflexivity.
Qed.

Lemma part000_handler_run req now :
  Part000.handler H req now =
    match body req with
    | None => Respond (error_response 500 "Terjadi kesalahan pada server")
    | Some b =>
        match Part000.validationErrors H now b with
        | [] => SendMail (Part000.mailOptions H now b) (refNumber now)
        | e :: errs => Respond (invalid_response (e :: errs))
        end
    end.
Proof.
  unfold Part000.handler. destruct (body req) as [b|]; [|reflexivity].
  cbn [destructure rbind]. destruct (Part000.validationErrors H now b);
    reflexivity.
Qed.

Ltac settle :=
  repeat match goal with
         | |- _ ∧ _ => split
         | |- _ ↔ _ => split
         end;
  intros;
  repeat match goal with
         | Hx : _ ∧ _ |- _ => destruct Hx
         | Hx : _ ∨ _ |- _ => destruct Hx
         | Hx : ∃ _, _ |- _ => destruct Hx
         end;
  try discriminate; try congruence;
  repeat match goal with
         | Hx : Some _ = Some _ |- _ => injection Hx as Hx; subst
         end;
  try match goal with
      | Hall : ∀ f, _ = _, Hf : _ = _ |- _ =>
          rewrite Hall in Hf; discriminate
      end;
  eauto 10.

(** X10.  The submission route of server.js checks the token first,
    the fields next, and calls the relay last.  It answers 403 exactly
    when the middleware does not let the request through; 400 exactly
    when the middleware lets it through and some field fails its check;
    500 exactly when the middleware lets it through and either the
    request has no body, or every field passes and the relay fails;
    200 exactly when the middleware lets it through, every field
    passes and the relay sends the mail. *)
Theorem send_complaint_status req now error m :
  (status (Server.send_complaint H req now error m).1 = 403
   ↔ (Server.validateCsrfToken req now m).1 ≠ Server.Next)
  ∧ (status (Server.send_complaint H req now error m).1 = 400
     ↔ (Server.validateCsrfToken req now m).1 = Server.Next
       ∧ ∃ b f, body req = Some b ∧ server_invalid H now f (b f) = true)
  ∧ (status (Server.send_complaint H req now error m).1 = 500
     ↔ (Server.validateCsrfToken req now m).1 = Server.Next
       ∧ (body req = None
          ∨ ∃ b, body req = Some b
                 ∧ (∀ f, server_invalid H now f (b f) = false)
                 ∧ error = true))
  ∧ (status (Server.send_complaint H req now error m).1 = 200
     ↔ (Server.validateCsrfToken req now m).1 = Server.Next
       ∧ ∃ b, body req = Some b
              ∧ (∀ f, server_invalid H now f (b f) = false)
              ∧ error = false).
Proof.
  rewrite send_complaint_run.
  destruct (validateCsrfToken_outcomes req now m) as [->|[msg ->]].
  - rewrite server_handler_run. destruct (body req) as [b|].
    + pose proof (exhaustive_nil _ _ (server_exhaustive H now b)) as Hnil.
      destruct (collect _ server_table) as [|e errs] eqn:Hc.
      * assert (Hall : ∀ f, server_invalid H now f (b f) = false)
          by (apply Hnil; reflexivity).
        clear Hnil Hc.
        destruct error; cbn [fst status error_response success_response];
          settle.
      * assert (Hsome : ∃ f, server_invalid H now f (b f) = true).
        { destruct (server_exhaustive H now b) as (_ & Hkeys & _).
          exists e.1. apply Hkeys. rewrite Hc. left. }
        destruct Hsome as [f Hf]. clear Hnil Hc.
        cbn [fst status invalid_response]. settle.
    + cbn [fst status error_response]. settle.
  - cbn [fst status error_response]. settle.
Qed.

(** X11.  The program of part_000 has no token check: it answers 400
    exactly when the request has a body and some entry of the
    [validators] table rejects its field; 500 exactly when the request
    has no body, or every entry accepts and the relay fails; 200 exactly
    when every entry accepts and the relay sends the mail; and the
    response carries a reference number exactly when it is a 200. *)
Theorem part000_send_complaint_status req now error :
  (status (Part000.send_complaint H req now error) = 400
   ↔ ∃ b f, body req = Some b ∧ part000_valid H now f (b f) = false)
  ∧ (status (Part000.send_complaint H req now error) = 500
     ↔ body req = None
       ∨ ∃ b, body req = Some b
              ∧ (∀ f, part000_valid H now f (b f) = true)
              ∧ error = true)
  ∧ (status (Part000.send_complaint H req now error) = 200
     ↔ ∃ b, body req = Some b
            ∧ (∀ f, part000_valid H now f (b f) = true)
            ∧ error = false)
  ∧ (referenceNumber (Part000.send_complaint H req now error)
       = Some (refNumber now)
     ↔ status (Part000.send_complaint H req now error) = 200)
  ∧ (referenceNumber (Part000.send_complaint H req now error) = None
     ↔ status (Part000.send_complaint H req now error) ≠ 200).
Proof.
  unfold Part000.send_complaint. rewrite part000_handler_run.
  destruct (body req) as [b|].
  - pose proof (exhaustive_nil _ _ (part000_exhaustive H now b)) as Hnil.
    destruct (Part000.validationErrors H now b) as [|e errs] eqn:Hc.
    + assert (Hall : ∀ f, part000_valid H now f (b f) = true).
      { intros f. apply negb_false_iff. revert f. apply Hnil. reflexivity. }
      clear Hnil Hc.
      destruct error;
        cbn [Part000.sendMail_callback status referenceNumber
             error_response success_response];
        settle.
    + assert (Hsome : ∃ f, part000_valid H now f (b f) = false).
      { destruct (part000_exhaustive H now b) as (_ & Hkeys & _).
        exists e.1. apply negb_true_iff, Hkeys. rewrite Hc. left. }
      destruct Hsome as [f Hf]. clear Hnil Hc.
      cbn [status referenceNumber invalid_response]. settle.
  - cbn [status referenceNumber error_response]. settle.
Qed.

End Decisions.

(** * What the validators accept *)

Section Formats.
Import RegExp TextSpec FormatSpec.

(** A pattern anchored at the start passes [test] iff it has a match
    at index 0. *)
Lemma test_Bol_Matches (r : regex) (s : jsstring) :
  test (Seq Bol r) s = true ↔ ∃ j u, Matches r 0 s j u.
Proof.
  rewrite test_Bol, bool_decide_eq_true. unfold match_at.
  rewrite m_is_Some. split.
  - intros (j & u & Hm & _). eauto.
  - intros (j & u & Hm). exists j, u. split; [exact Hm | eauto].
Qed.

Lemma forallb_Forall_iff (p : cu → bool) (P : cu → Prop) (w : jsstring) :
  (∀ c, p c = true ↔ P c) → (forallb p w = true ↔ Forall P w).
Proof.
  intros Hp. induction w as [|c w IH]; cbn [forallb].
  - split; [constructor | reflexivity].
  - rewrite andb_true_iff, Forall_cons, IH, Hp. reflexivity.
Qed.

Lemma range_digit (c : cu) : range "0" "9" c = true ↔ is_digit c.
Proof.
  unfold range, is_digit. change (chr "0") with 48%N.
  change (chr "9") with 57%N. rewrite andb_true_iff, !N.leb_le. reflexivity.
Qed.

Lemma one_eq (a : ascii) (c : cu) : one a c = true ↔ c = chr a.
Proof. unfold one. apply N.eqb_eq. Qed.

Lemma phone_pattern (s : jsstring) :
  (∃ j u, Matches (Seq (opt (one "+"))
                     (Seq (Rep (range "0" "9") 10 (Some 15%nat)) Eol))
            0 s j u)
  ↔ phone_rule s.
Proof.
  unfold opt, phone_rule. split.
  - intros (j & u & Hm).
    inversion Hm as [| | |? ? ? ? ? ? ? ? H1 H2| | | |]; subst; clear Hm.
    inversion H2 as [| | |? ? ? ? ? ? ? ? H3 H4| | | |]; subst; clear H2.
    inversion H4; subst; clear H4.
    inversion H3 as [| |? ? ? ? ds ? Hds Hlo Hhi| | | | |]; subst; clear H3.
    inversion H1 as [| |? ? ? ? w ? Hw _ Hhi'| | | | |]; subst; clear H1.
    exists ds. rewrite app_nil_r.
    split; [|split; [split; [exact Hlo | apply Hhi; reflexivity]
                    | apply (forallb_Forall_iff _ _ _ range_digit), Hds]].
    specialize (Hhi' _ eq_refl).
    destruct w as [|c [|? ?]]; [left; reflexivity | right | cbn in Hhi'; lia].
    cbn [forallb] in Hw. rewrite andb_true_r in Hw.
    apply one_eq in Hw. subst c. reflexivity.
  - intros (ds & Hs & [Hlo Hhi] & Hds).
    apply (forallb_Forall_iff _ _ _ range_digit) in Hds.
    assert (Hrest : ∀ i, Matches (Seq (Rep (range "0" "9") 10 (Some 15%nat)) Eol)
                           i (ds ++ []) (i + length ds) []).
    { intros i. eapply Matches_Seq; [|apply Matches_Eol].
      apply Matches_Rep; [exact Hds | exact Hlo |].
      intros h [= <-]. exact Hhi. }
    rewrite app_nil_r in Hrest.
    destruct Hs as [->| ->].
    + exists (0 + length ds)%nat, []. eapply Matches_Seq; [|apply Hrest].
      apply (Matches_Rep (one "+") 0 (Some 1%nat) 0 [] ds);
        [reflexivity | lia | intros h [= <-]; cbn; lia].
    + exists (1 + length ds)%nat, []. eapply Matches_Seq; [|apply Hrest].
      apply (Matches_Rep (one "+") 0 (Some 1%nat) 0 [chr "+"] ds);
        [reflexivity | cbn; lia | intros h [= <-]; cbn; lia].
Qed.

(** X12.  The phone number check.  In part_000 a value passes exactly
    when it is a string made of an optional [+] and 10 to 15 decimal
    digits.  In server.js the pattern is the same but it is applied to
    the value converted to a string, so a value passes exactly when
    it is truthy and its string conversion has that form: a number of
    10 to 15 digits passes as well. *)
Theorem phoneNumber_accepts (v : JSValue) :
  (Part000.validators.phoneNumber v = true
   ↔ ∃ s, v = JString s ∧ phone_rule s)
  ∧ (Server.bad_phoneNumber v = Ok false
     ↔ ToBoolean v = true ∧ phone_rule (ToString v)).
Proof.
  split.
  - destruct v as [| | | |s]; cbn [Part000.validators.phoneNumber];
      try (split; [discriminate | intros (s & [=] & _)]).
    unfold Part000.re_phoneNumber. rewrite test_Bol_Matches, phone_pattern.
    split; [eauto | intros (s' & [= <-] & Hr); exact Hr].
  - unfold Server.bad_phoneNumber, Server.or_else.
    destruct (ToBoolean v); cbn [negb];
      [|split; [discriminate | intros [? _]; discriminate]].
    rewrite <- phone_pattern, <- test_Bol_Matches.
    fold Server.re_phoneNumber.
    destruct (test Server.re_phoneNumber (ToString v)); cbn [negb].
    + split; [auto | reflexivity].
    + split; [discriminate | intros [_ ?]; discriminate].
Qed.

Ltac invert_matches :=
  repeat match goal with
         | Hm : Matches (Seq _ _) _ _ _ _ |- _ => inversion Hm; subst; clear Hm
         | Hm : Matches (Chr _) _ _ _ _ |- _ => inversion Hm; subst; clear Hm
         | Hm : Matches Eol _ _ _ _ |- _ => inversion Hm; subst; clear Hm
         | Hm : Matches (Rep _ _ _) _ _ _ _ |- _ =>
             inversion Hm; subst; clear Hm
         end.

Lemma email_pattern (p : cu → bool) (P : cu → Prop) (s : jsstring) :
  (∀ c, p c = true ↔ P c) →
  (∃ j u, Matches (Seq (plus p) (Seq (Chr (one "@"))
                    (Seq (plus p) (Seq (Chr (one "."))
                      (Seq (plus p) Eol))))) 0 s j u)
  ↔ email_shape P s.
Proof.
  intros Hp. unfold plus, email_shape. split.
  - intros (j & u & Hm). invert_matches.
    repeat match goal with
           | Hc : one _ _ = true |- _ => apply one_eq in Hc; subst
           | Hw : forallb p _ = true |- _ =>
               apply (forallb_Forall_iff _ _ _ Hp) in Hw
           end.
    match goal with
    | |- ∃ a b c, ?a' ++ _ :: ?b' ++ _ :: ?c' ++ [] = _ ∧ _ =>
        exists a', b', c'
    end.
    rewrite app_nil_r. split; [reflexivity|].
    repeat split; try assumption;
      intros ->; cbn [length] in *; lia.
  - intros (a & b & c & -> & Ha & Hb & Hc & Pa & Pb & Pc).
    apply (forallb_Forall_iff _ _ _ Hp) in Pa, Pb, Pc.
    assert (Hlen : ∀ w : jsstring, w ≠ [] → (1 ≤ length w)%nat)
      by (intros [|? ?] Hw; [contradiction | cbn; lia]).
    rewrite <- (app_nil_r c).
    do 2 eexists.
    eapply Matches_Seq;
      [apply Matches_Rep; [exact Pa | auto | discriminate]|].
    eapply Matches_Seq; [apply Matches_Chr; reflexivity|].
    eapply Matches_Seq;
      [apply Matches_Rep; [exact Pb | auto | discriminate]|].
    eapply Matches_Seq; [apply Matches_Chr; reflexivity|].
    eapply Matches_Seq;
      [apply Matches_Rep; [exact Pc | auto | discriminate]|].
    apply Matches_Eol.
Qed.

Lemma not_space_at_iff (c : cu) :
  Part000.not_space_at c = true ↔ is_space c = false ∧ c ≠ chr "@".
Proof.
  unfold Part000.not_space_at, except, either.
  rewrite negb_true_iff, orb_false_iff.
  rewrite <- (not_true_iff_false (one "@" c)), one_eq. reflexivity.
Qed.

Lemma not_space_iff (c : cu) :
  Server.not_space c = true ↔ is_space c = false.
Proof. unfold Server.not_space, except. apply negb_true_iff. Qed.

(** X13.  The email check.  In part_000 a value passes exactly when
    it is a string of at most 100 code units of the form
    [local@domain.tld], the three parts non-empty and free of
    whitespace and of [@]: an accepted address has one [@] only.  In
    server.js the parts need only be free of whitespace, and the length
    is not bounded. *)
Theorem email_accepts (v : JSValue) :
  (Part000.validators.email v = true
   ↔ ∃ s, v = JString s ∧ (length s ≤ 100)%nat
          ∧ email_shape (λ c, is_space c = false ∧ c ≠ chr "@") s)
  ∧ (Server.bad_email v = Ok false
     ↔ ToBoolean v = true
       ∧ email_shape (λ c, is_space c = false) (ToString v)).
Proof.
  split.
  - destruct v as [| | | |s]; cbn [Part000.validators.email];
      try (split; [discriminate | intros (s & [=] & _)]).
    unfold Part000.re_email.
    rewrite andb_true_iff, Nat.leb_le, test_Bol_Matches.
    rewrite (email_pattern _ _ s not_space_at_iff).
    split; [intros [? ?]; eauto | intros (s' & [= <-] & ? & ?); auto].
  - unfold Server.bad_email, Server.or_else.
    destruct (ToBoolean v); cbn [negb];
      [|split; [discriminate | intros [? _]; discriminate]].
    rewrite <- (email_pattern _ _ _ not_space_iff), <- test_Bol_Matches.
    fold Server.re_email.
    destruct (test Server.re_email (ToString v)); cbn [negb].
    + split; [auto | reflexivity].
    + split; [discriminate | intros [_ ?]; discriminate].
Qed.

End Formats.

Section FieldChecks.
Import RegExp TextSpec FormatSpec FieldSpec.
Variable H : Host.

Lemma trim_no_space (s : jsstring) :
  Forall (λ c, is_space c = false) s → trim s = s.
Proof.
  intros Hs. apply trimmed_trim. split.
  - intros c t ->. apply Forall_cons in Hs. tauto.
  - intros c t ->. apply Forall_app in Hs as [_ Hc].
    apply Forall_cons in Hc. tauto.
Qed.

Lemma gameId_char_not_space (c : cu) : gameId_char c → is_space c = false.
Proof.
  intros Hc. apply not_true_iff_false. intros Hsp.
  unfold is_space in Hsp.
  rewrite !orb_true_iff, !andb_true_iff, !N.leb_le, !N.eqb_eq in Hsp.
  unfold gameId_char, in_charset in Hc. change (chr "-") with 45%N in Hc.
  lia.
Qed.

Lemma gameId_class (c : cu) :
  either Part000.word (one "-") c = true ↔ gameId_char c.
Proof.
  unfold either at 1, gameId_char.
  rewrite orb_true_iff, word_in_charset, one_eq. reflexivity.
Qed.

(** A game identifier that is a string and passes has the charset. *)
Lemma gameId_string_chars (s : jsstring) :
  Part000.validators.gameId (JString s) = true → Forall gameId_char s.
Proof.
  destruct s as [|c s]; [constructor|].
  unfold Part000.validators.gameId. cbn [ToBoolean negb].
  unfold Part000.re_gameId. rewrite test_anchored_plus, andb_true_iff.
  intros [_ Hre]. apply (forallb_Forall_iff _ _ _ gameId_class), Hre.
Qed.

(** X14.  The game identifier is optional in part_000: a value passes
    exactly when it is falsy (absent, [null], [false], [0], the empty
    string), or a string of 1 to 50 letters, digits, underscores and
    hyphens; such a string has no whitespace, so that the length
    measured after trimming is the length of the string. *)
Theorem gameId_accepts (v : JSValue) :
  Part000.validators.gameId v = true
  ↔ ToBoolean v = false
    ∨ ∃ s, v = JString s ∧ (1 ≤ length s ≤ 50)%nat
           ∧ Forall gameId_char s.
Proof.
  unfold Part000.validators.gameId.
  destruct (ToBoolean v) eqn:Hb; cbn [negb]; [|split; auto].
  destruct v as [| | | |s];
    try (split; [discriminate | intros [?|(s & [=] & _)]; discriminate]).
  unfold Part000.re_gameId. rewrite test_anchored_plus, andb_true_iff.
  rewrite Nat.leb_le. split.
  - intros [Hlen Hre]. right. exists s. split; [reflexivity|].
    destruct s as [|c s]; [discriminate|].
    apply (forallb_Forall_iff _ _ _ gameId_class) in Hre.
    rewrite trim_no_space in Hlen
      by (eapply Forall_impl; [exact Hre | apply gameId_char_not_space]).
    split; [cbn [length] in *; lia | exact Hre].
  - intros [?|(s' & [= <-] & [Hlo Hhi] & Hs)]; [discriminate|].
    rewrite trim_no_space
      by (eapply Forall_impl; [exact Hs | apply gameId_char_not_space]).
    split; [exact Hhi|].
    destruct s as [|c s]; [cbn in Hlo; lia|].
    apply (forallb_Forall_iff _ _ _ gameId_class), Hs.
Qed.

Lemma trimStart_nil (s : jsstring) :
  trimStart s = [] ↔ Forall (λ c, is_space c = true) s.
Proof.
  induction s as [|c s IH]; cbn [trimStart].
  - split; [constructor | reflexivity].
  - rewrite Forall_cons. destruct (is_space c).
    + rewrite IH. tauto.
    + split; [discriminate | intros [? _]; discriminate].
Qed.

Lemma trim_nil (s : jsstring) :
  trim s = [] ↔ Forall (λ c, is_space c = true) s.
Proof.
  rewrite <- trimStart_nil. unfold trim.
  destruct (trimStart s) as [|c t] eqn:Hs; [split; reflexivity|].
  rewrite (trimEnd_cons c t (trimStart_head s c t Hs)).
  split; discriminate.
Qed.

Lemma all_space_or_not (s : jsstring) :
  Forall (λ c, is_space c = true) s ∨ ∃ c, c ∈ s ∧ is_space c = false.
Proof.
  induction s as [|c s [IH|(d & Hd & Hsp)]].
  - left. constructor.
  - destruct (is_space c) eqn:Hc.
    + left. constructor; assumption.
    + right. exists c. split; [left | exact Hc].
  - right. exists d. split; [right; exact Hd | exact Hsp].
Qed.

(** X15.  The description check of part_000 measures the trimmed
    string: a value passes exactly when it is a string with a code unit
    that is not whitespace and whose length, once the surrounding
    whitespace is taken off, is at most 2000.  A string of whitespace
    alone is rejected. *)
Theorem description_accepts (v : JSValue) :
  Part000.validators.description v = true
  ↔ ∃ s, v = JString s
         ∧ (∃ c, c ∈ s ∧ is_space c = false)
         ∧ (length (trim s) ≤ 2000)%nat.
Proof.
  destruct v as [| | | |s]; cbn [Part000.validators.description];
    try (split; [discriminate | intros (s & [=] & _)]).
  rewrite andb_true_iff, Nat.ltb_lt, Nat.leb_le.
  assert (Hpos : (0 < length (trim s))%nat
                 ↔ ∃ c, c ∈ s ∧ is_space c = false).
  { split.
    - intros Hlen. destruct (all_space_or_not s) as [Hall|He]; [|exact He].
      apply trim_nil in Hall. rewrite Hall in Hlen. cbn in Hlen. lia.
    - intros (c & Hc & Hsp).
      destruct (trim s) as [|? ?] eqn:Ht; [|cbn; lia].
      apply trim_nil in Ht. rewrite Forall_forall in Ht.
      rewrite (Ht c Hc) in Hsp. discriminate. }
  rewrite Hpos. split.
  - intros [? ?]. eauto.
  - intros (s' & [= <-] & ? & ?). auto.
Qed.

(** X16.  The checks of server.js on the username, the issue type and
    the description look at truthiness and at the [length] property
    only.  A value passes the username check exactly when it is truthy
    and, if it is a string, has 3 to 50 code units, untrimmed; the issue
    type check exactly when it is truthy; the description check exactly
    when it is truthy and, if it is a string, has at most 2000 code
    units.  A number other than 0 and [true] pass the three of them, and
    none of the three throws. *)
Theorem server_checks_accept (v : JSValue) :
  (Server.bad_username v = Ok false
   ↔ ToBoolean v = true
     ∧ ∀ s, v = JString s → (3 ≤ length s ≤ 50)%nat)
  ∧ (Server.bad_issueType v = Ok false ↔ ToBoolean v = true)
  ∧ (Server.bad_description v = Ok false
     ↔ ToBoolean v = true
       ∧ ∀ s, v = JString s → (length s ≤ 2000)%nat)
  ∧ Server.bad_username v ≠ Throw
  ∧ Server.bad_issueType v ≠ Throw
  ∧ Server.bad_description v ≠ Throw.
Proof.
  assert (Hstr : ∀ s, (∀ s', JString s = JString s' → (3 ≤ length s' ≤ 50)%nat)
                      ↔ (3 ≤ length s ≤ 50)%nat).
  { intros s. split; [intros Hs; apply Hs; reflexivity|].
    intros Hs s' [= <-]. exact Hs. }
  assert (Hstr' : ∀ s, (∀ s', JString s = JString s' → (length s' ≤ 2000)%nat)
                       ↔ (length s ≤ 2000)%nat).
  { intros s. split; [intros Hs; apply Hs; reflexivity|].
    intros Hs s' [= <-]. exact Hs. }
  unfold Server.bad_username, Server.bad_issueType, Server.bad_description,
    Server.or_else.
  destruct v as [| |[]|n|[|c s]];
    cbn [ToBoolean negb Server.get_length rbind Server.lt Server.gt
         Server.or_else].
  7: {
    rewrite Hstr, Hstr'.
    destruct (Z.ltb_spec (Z.of_nat (length (c :: s))) 3);
      [|destruct (Z.ltb_spec 50 (Z.of_nat (length (c :: s))))];
      destruct (Z.ltb_spec 2000 (Z.of_nat (length (c :: s))));
      repeat match goal with |- _ ∧ _ => split end;
      try discriminate;
      try (split; [discriminate | intros [_ ?]; lia]);
      try (split; [intros _; split; [reflexivity | lia] | reflexivity]);
      try (split; [intros _; reflexivity | reflexivity]). }
  all: try (destruct (n =? 0); cbn [negb]);
    repeat match goal with |- _ ∧ _ => split end;
    try discriminate;
    try (split; [discriminate | intros [? _]; discriminate]);
    try (split; [discriminate | discriminate]);
    try (split; [intros _; split; [reflexivity | intros ? [=]]
                | reflexivity]);
    try (split; [intros _; reflexivity | reflexivity]).
Qed.

End FieldChecks.

Section TwoPrograms.
Import RegExp TextSpec FormatSpec FieldSpec.
Variable H : Host.

(** X17.  The two programs read the date differently.  part_000
    accepts a value exactly when [new Date(value)] is a valid date that
    is not after the current time; server.js rejects a value exactly
    when it is falsy or [new Date(value)] is after the current time.
    So a non-empty string that is no date at all is rejected by
    part_000 and passes the check of server.js, and [null] is rejected
    by server.js and passes the check of part_000 (as the first
    millisecond of 1970). *)
Theorem dateOfIssue_checks_differ (now : Z) (v : JSValue) :
  (Part000.validators.dateOfIssue H now v = true
   ↔ ∃ t, Date_new H v = Some t ∧ t ≤ now)
  ∧ (Server.bad_dateOfIssue H now v = Ok false
     ↔ ToBoolean v = true ∧ ∀ t, Date_new H v = Some t → t ≤ now)
  ∧ (∀ c s, v = JString (c :: s) → Date_parse H (c :: s) = None →
       Part000.validators.dateOfIssue H now v = false
       ∧ Server.bad_dateOfIssue H now v = Ok false)
  ∧ (v = JNull → 0 ≤ now →
       Part000.validators.dateOfIssue H now v = true
       ∧ Server.bad_dateOfIssue H now v = Ok true).
Proof.
  unfold Part000.validators.dateOfIssue, Server.bad_dateOfIssue,
    Server.or_else.
  split; [|split; [|split]].
  - destruct (Date_new H v) as [t|].
    + rewrite Z.leb_le. split; [eauto | intros (t' & [= <-] & ?); auto].
    + split; [discriminate | intros (? & [=] & _)].
  - destruct (ToBoolean v); cbn [negb];
      [|split; [discriminate | intros [? _]; discriminate]].
    destruct (Date_new H v) as [t|].
    + destruct (Z.ltb_spec now t); split; try discriminate; auto.
      * intros [_ Ht]. specialize (Ht _ eq_refl). lia.
      * intros _. split; [reflexivity|]. intros ? [= <-]. assumption.
    + split; [|reflexivity]. intros _. split; [reflexivity | discriminate].
  - intros c s -> Hp. cbn [Date_new ToBoolean negb]. rewrite Hp. auto.
  - intros -> Hnow. cbn [Date_new ToBoolean negb].
    split; [apply Z.leb_le; exact Hnow | reflexivity].
Qed.

Lemma in_charset_not_space (c : cu) : in_charset c → is_space c = false.
Proof. intros Hc. apply gameId_char_not_space. left. exact Hc. Qed.

Lemma email_shape_weaken (P Q : cu → Prop) (s : jsstring) :
  (∀ c, P c → Q c) → email_shape P s → email_shape Q s.
Proof.
  intros HPQ (a & b & c & Hs & Ha & Hb & Hc & Pa & Pb & Pc).
  exists a, b, c. repeat split; try assumption;
    eapply Forall_impl; eauto.
Qed.

Lemma issueType_nonempty (s : jsstring) :
  s ∈ Part000.validIssueTypes → s ≠ [].
Proof.
  unfold Part000.validIssueTypes. rewrite !elem_of_cons, elem_of_nil.
  intros Hs ->.
  repeat (destruct Hs as [Hs|Hs]; [vm_compute in Hs; discriminate|]).
  exact Hs.
Qed.

(** X18.  server.js accepts what part_000 accepts, two cases apart.
    When every entry of the [validators] table of part_000 accepts its
    field, the description has at most 2000 code units before trimming
    and the date is truthy, the validation block of server.js files no
    error. *)
Theorem part000_valid_passes_server (now : Z) (b : Body) :
  (∀ f, part000_valid H now f (b f) = true) →
  (∀ s, b description = JString s → (length s ≤ 2000)%nat) →
  ToBoolean (b dateOfIssue) = true →
  Server.validationErrors H now b = Ok [].
Proof.
  intros Hv Hdesc Hdate. apply server_all_valid. intros f.
  pose proof (Hv f) as Hf. unfold server_invalid.
  destruct f; cbn [part000_valid server_check] in *; try reflexivity.
  - (* username *)
    destruct (b username) as [| | | |s]; try discriminate.
    cbn [Part000.validators.username] in Hf.
    unfold Part000.re_username in Hf. rewrite test_anchored_plus in Hf.
    rewrite !andb_true_iff, !Nat.leb_le in Hf. destruct Hf as [[Hlo Hhi] Hre].
    destruct s as [|c s]; [discriminate|].
    apply forallb_word in Hre.
    rewrite trim_no_space in Hlo, Hhi
      by (eapply Forall_impl; [exact Hre | apply in_charset_not_space]).
    unfold Server.bad_username, Server.or_else.
    cbn [ToBoolean negb Server.get_length rbind Server.lt Server.gt].
    destruct (Z.ltb_spec (Z.of_nat (length (c :: s))) 3); [lia|].
    cbn [Server.or_else].
    destruct (Z.ltb_spec 50 (Z.of_nat (length (c :: s)))); [lia|].
    reflexivity.
  - (* email *)
    destruct (b email) as [| | | |s]; try discriminate.
    cbn [Part000.validators.email] in Hf.
    apply andb_true_iff in Hf as [Hre _].
    unfold Part000.re_email in Hre.
    apply test_Bol_Matches, (email_pattern _ _ s not_space_at_iff) in Hre.
    apply (email_shape_weaken _ (λ c, is_space c = false)) in Hre;
      [|tauto].
    assert (Hs : s ≠ []).
    { destruct Hre as ([|? ?] & ? & ? & -> & Ha & _); [contradiction|].
      discriminate. }
    apply (email_pattern _ _ s not_space_iff), test_Bol_Matches in Hre.
    fold Server.re_email in Hre.
    unfold Server.bad_email, Server.or_else. cbn [ToString].
    destruct s; [contradiction|]. cbn [ToBoolean negb].
    rewrite Hre. reflexivity.
  - (* issueType *)
    destruct (b issueType) as [| | | |s]; try discriminate.
    cbn [Part000.validators.issueType] in Hf.
    apply bool_decide_eq_true, issueType_nonempty in Hf.
    destruct s; [contradiction | reflexivity].
  - (* description *)
    destruct (b description) as [| | | |s] eqn:Hd; try discriminate.
    cbn [Part000.validators.description] in Hf.
    apply andb_true_iff in Hf as [Hpos _]. apply Nat.ltb_lt in Hpos.
    specialize (Hdesc s eq_refl).
    destruct s as [|c s]; [cbn in Hpos; lia|].
    unfold Server.bad_description, Server.or_else.
    cbn [ToBoolean negb Server.get_length rbind Server.gt].
    destruct (Z.ltb_spec 2000 (Z.of_nat (length (c :: s)))); [lia|].
    reflexivity.
  - (* dateOfIssue *)
    unfold Server.bad_dateOfIssue, Server.or_else. rewrite Hdate.
    cbn [negb]. unfold Part000.validators.dateOfIssue in Hf.
    destruct (Date_new H (b dateOfIssue)) as [t|]; [|discriminate].
    apply Z.leb_le in Hf. destruct (Z.ltb_spec now t); [lia | reflexivity].
  - (* phoneNumber *)
    destruct (b phoneNumber) as [| | | |s]; try discriminate.
    cbn [Part000.validators.phoneNumber] in Hf.
    change Part000.re_phoneNumber with Server.re_phoneNumber in Hf.
    unfold Server.bad_phoneNumber, Server.or_else. cbn [ToString].
    destruct s as [|c s]; [vm_compute in Hf; discriminate|].
    cbn [ToBoolean negb]. rewrite Hf. reflexivity.
Qed.

End TwoPrograms.

(** * Further properties of the sanitizer (src/unnamed/part_000) *)

Section SanitizerMore.
Import RegExp TextSpec FormatSpec FieldSpec.

Lemma after_gt_sublist (s : jsstring) : after_gt s `sublist_of` s.
Proof.
  induction s as [|c s IH]; [reflexivity|]. cbn [after_gt].
  destruct (one ">" c); [apply sublist_cons; reflexivity|].
  apply sublist_cons, IH.
Qed.

Lemma replace_go_sublist (f : nat) : ∀ (i : nat) (s : jsstring),
  replace_go f Part000.re_tag i s `sublist_of` s.
Proof.
  induction f as [|f IH]; intros i s; [reflexivity|].
  rewrite replace_go_tag. destruct s as [|c [|d t]].
  - reflexivity.
  - apply sublist_skip, IH.
  - destruct (one "<" c && negb (one ">" d)).
    + apply sublist_cons. etransitivity; [apply IH | apply after_gt_sublist].
    + apply sublist_skip, IH.
Qed.

Lemma trim_sublist (s : jsstring) : trim s `sublist_of` s.
Proof.
  unfold trim.
  destruct (trimEnd_prefix (trimStart s)) as [w Hw].
  destruct (trimStart_suffix s) as [w' Hw'].
  rewrite Hw' at 2. apply sublist_inserts_l.
  rewrite Hw at 2. apply sublist_inserts_r. reflexivity.
Qed.

(** X19.  The sanitizer only takes code units away: its result on a
    string is the string with some code units dropped, the others in
    their order, and it is never longer than the string. *)
Theorem sanitize_only_removes (s o : jsstring) :
  Part000.sanitize (JString s) = JString o →
  o `sublist_of` s ∧ (length o ≤ length s)%nat.
Proof.
  cbn [Part000.sanitize]. intros [= <-].
  assert (Hsub : trim (replace_all Part000.re_tag s) `sublist_of` s).
  { etransitivity; [apply trim_sublist | apply replace_go_sublist]. }
  split; [exact Hsub | apply sublist_length, Hsub].
Qed.

Lemma clean_no_lt (s : jsstring) :
  Forall (λ c, c ≠ chr "<") s → clean s = true.
Proof.
  induction 1 as [|c s Hc _ IH]; [reflexivity|].
  apply clean_cons. split; [|exact IH].
  intros d t _. apply andb_false_iff. left.
  apply not_true_iff_false. rewrite one_eq. exact Hc.
Qed.

Lemma sanitize_no_lt (s : jsstring) :
  Forall (λ c, c ≠ chr "<") s →
  Part000.sanitize (JString s) = JString (trim s).
Proof.
  intros Hs. cbn [Part000.sanitize]. unfold replace_all.
  rewrite replace_go_clean_id by (apply clean_no_lt, Hs). reflexivity.
Qed.

(** X20.  On a string without [<] the sanitizer does nothing but trim
    the surrounding whitespace. *)
Theorem sanitize_without_lt_trims (s : jsstring) :
  (∀ c, c ∈ s → c ≠ chr "<") →
  Part000.sanitize (JString s) = JString (trim s).
Proof.
  intros Hs. cbn [Part000.sanitize]. unfold replace_all.
  rewrite replace_go_clean_id; [reflexivity|].
  apply clean_no_lt, Forall_forall, Hs.
Qed.

Lemma sanitize_plain (s : jsstring) :
  Forall (λ c, c ≠ chr "<" ∧ is_space c = false) s →
  Part000.sanitize (JString s) = JString s.
Proof.
  intros Hs. rewrite sanitize_no_lt
    by (eapply Forall_impl; [exact Hs | cbn; tauto]).
  rewrite trim_no_space by (eapply Forall_impl; [exact Hs | cbn; tauto]).
  reflexivity.
Qed.

Lemma gameId_char_plain (c : cu) :
  gameId_char c → c ≠ chr "<" ∧ is_space c = false.
Proof.
  intros Hc. split; [|apply gameId_char_not_space, Hc].
  unfold gameId_char, in_charset in Hc.
  change (chr "-") with 45%N in Hc. change (chr "<") with 60%N. lia.
Qed.

Lemma phone_char_plain (c : cu) :
  is_digit c ∨ c = chr "+" → c ≠ chr "<" ∧ is_space c = false.
Proof.
  intros Hc. unfold is_digit in Hc. change (chr "+") with 43%N in Hc.
  split; [change (chr "<") with 60%N; lia|].
  apply not_true_iff_false. intros Hsp. unfold is_space in Hsp.
  rewrite !orb_true_iff, !andb_true_iff, !N.leb_le, !N.eqb_eq in Hsp. lia.
Qed.

(** A field of the five that passes its validator is a fixed point of
    the sanitizer. *)
Lemma sanitize_validated_field (H : Host) (now : Z) (f : Field)
    (v : JSValue) :
  f ∈ [username; gameId; platform; issueType; phoneNumber] →
  part000_valid H now f v = true →
  Part000.sanitize v = v.
Proof.
  rewrite !elem_of_cons, elem_of_nil.
  intros [->|[->|[->|[->|[->|[]]]]]] Hv; cbn [part000_valid] in Hv.
  - destruct v as [| | | |s]; try discriminate.
    cbn [Part000.validators.username] in Hv.
    unfold Part000.re_username in Hv. rewrite test_anchored_plus in Hv.
    apply andb_true_iff in Hv as [_ Hre].
    destruct s as [|c s]; [discriminate|]. apply forallb_word in Hre.
    apply sanitize_plain. eapply Forall_impl; [exact Hre|].
    intros x Hx. apply gameId_char_plain. left. exact Hx.
  - destruct v as [| | | |s]; try reflexivity.
    apply gameId_string_chars in Hv.
    apply sanitize_plain. eapply Forall_impl; [exact Hv|].
    apply gameId_char_plain.
  - destruct v as [| | | |s]; try discriminate.
    cbn [Part000.validators.platform] in Hv.
    apply bool_decide_eq_true in Hv. subst s. vm_compute. reflexivity.
  - destruct v as [| | | |s]; try discriminate.
    cbn [Part000.validators.issueType] in Hv.
    apply bool_decide_eq_true in Hv. unfold Part000.validIssueTypes in Hv.
    rewrite !elem_of_cons, elem_of_nil in Hv.
    repeat (destruct Hv as [->|Hv]; [vm_compute; reflexivity|]).
    contradiction.
  - destruct v as [| | | |s]; try discriminate.
    cbn [Part000.validators.phoneNumber] in Hv.
    unfold Part000.re_phoneNumber in Hv.
    apply test_Bol_Matches, phone_pattern in Hv
      as (ds & Hs & _ & Hds).
    apply sanitize_plain.
    assert (Hds' : Forall (λ c, c ≠ chr "<" ∧ is_space c = false) ds).
    { eapply Forall_impl; [exact Hds|]. intros x Hx.
      apply phone_char_plain. left. exact Hx. }
    destruct Hs as [->| ->]; [exact Hds'|].
    constructor; [apply phone_char_plain; right; reflexivity | exact Hds'].
Qed.

(** X21.  Sanitizing changes nothing in a username, a game
    identifier, a platform, an issue type or a phone number that has
    passed its validator in part_000.  So the mail that part_000 hands
    to the relay for a submission that passes validation is written with
    the username, the platform, the issue type and the phone number as
    submitted (they are strings), with the game identifier as submitted
    when it is truthy and with [N/A] in its place when it is falsy, and
    with the email, the date and the description sanitized. *)
Theorem sanitize_keeps_validated (H : Host) (now : Z) (b : Body) :
  (∀ f, part000_valid H now f (b f) = true) →
  (∀ f, f ∈ [username; gameId; platform; issueType; phoneNumber] →
        Part000.sanitize (b f) = b f)
  ∧ (∀ f, f ∈ [username; platform; issueType; phoneNumber] →
          ∃ s, b f = JString s)
  ∧ (∀ req, body req = Some b →
       Part000.handler H req now
         = SendMail (Part000.mailOptions H now b) (refNumber now))
  ∧ subject (Part000.mailOptions H now b) = raw_subject now b
  ∧ text (Part000.mailOptions H now b)
      = raw_text now (MailSpec.free_text_sanitized b).
Proof.
  intros Hv.
  assert (Hfix : ∀ f, f ∈ [username; gameId; platform; issueType; phoneNumber]
                      → Part000.sanitize (b f) = b f).
  { intros f Hf. exact (sanitize_validated_field H now f (b f) Hf (Hv f)). }
  split; [exact Hfix|]. split; [|split; [|split]].
  - intros f Hf. pose proof (Hv f) as Hvf.
    rewrite !elem_of_cons, elem_of_nil in Hf.
    destruct Hf as [->|[->|[->|[->|[]]]]]; cbn [part000_valid] in Hvf;
      destruct (b _) as [| | | |s]; try discriminate; eauto.
  - intros req Hb. rewrite part000_handler_run, Hb.
    rewrite (part000_all_valid H now b Hv). reflexivity.
  - unfold Part000.mailOptions, Part000.sanitizedData, raw_subject.
    cbn [subject].
    rewrite (Hfix issueType) by (do 3 right; left).
    rewrite (Hfix username) by left. reflexivity.
  - unfold Part000.mailOptions, Part000.sanitizedData, raw_text,
      MailSpec.free_text_sanitized, js_or.
    cbn [text].
    rewrite (Hfix username) by left.
    rewrite (Hfix gameId) by (right; left).
    rewrite (Hfix platform) by (do 2 right; left).
    rewrite (Hfix issueType) by (do 3 right; left).
    rewrite (Hfix phoneNumber) by (do 4 right; left).
    destruct (ToBoolean (b gameId)); reflexivity.
Qed.

Lemma length_trim (s : jsstring) : (length (trim s) ≤ length s)%nat.
Proof. apply sublist_length, trim_sublist. Qed.

Lemma after_gt_none (u : jsstring) :
  Forall (λ c, c ≠ chr ">") u → after_gt u = [].
Proof.
  induction 1 as [|c u Hc _ IH]; [reflexivity|]. cbn [after_gt].
  destruct (one ">" c) eqn:Hgt; [|exact IH].
  apply one_eq in Hgt. contradiction.
Qed.

(** X22.  Validation runs on the raw value and the mail is built from
    the sanitized one, so a value can pass and still be mailed empty:
    a [<] followed by one code unit or more, none of them [>], is an
    unclosed tag that the sanitizer removes whole, and if the string
    has at most 2000 code units it passes the description check. *)
Theorem unclosed_tag_mailed_empty (u : jsstring) :
  u ≠ [] →
  (∀ c, c ∈ u → c ≠ chr ">") →
  (length u < 2000)%nat →
  Part000.validators.description (JString (chr "<" :: u)) = true
  ∧ Part000.sanitize (JString (chr "<" :: u)) = JString [].
Proof.
  intros Hne Hu Hlen. split.
  - cbn [Part000.validators.description].
    assert (Ht : trim (chr "<" :: u) = chr "<" :: trimEnd u).
    { unfold trim. cbn [trimStart].
      change (is_space (chr "<")) with false. cbn iota.
      apply trimEnd_cons. reflexivity. }
    rewrite Ht. apply andb_true_iff. split.
    + reflexivity.
    + apply Nat.leb_le. cbn [length].
      destruct (trimEnd_prefix u) as [w Hw].
      apply (f_equal length) in Hw. rewrite length_app in Hw. lia.
  - cbn [Part000.sanitize]. unfold replace_all.
    rewrite replace_go_tag. destruct u as [|d t]; [contradiction|].
    assert (Hd : one ">" d = false).
    { apply not_true_iff_false. rewrite one_eq. apply Hu. left. }
    change (one "<" (chr "<")) with true. rewrite Hd. cbn [andb negb].
    rewrite after_gt_none by (apply Forall_forall, Hu).
    rewrite replace_go_nil. reflexivity.
Qed.

End SanitizerMore.

Section SameMail.
Variable H : Host.

(** X23.  The two programs write the same mail.  When sanitizing
    changes no field of a submission, the mail that part_000 hands to
    the relay for it (sender, recipient, subject and text) is the mail
    that server.js hands to the relay for it at the same time. *)
Theorem mailOptions_agree (now : Z) (b : Body) :
  (∀ f, Part000.sanitize (b f) = b f) →
  Part000.mailOptions H now b = Server.mailOptions H now b.
Proof.
  intros Hfix. unfold Part000.mailOptions, Server.mailOptions,
    Part000.sanitizedData.
  rewrite !Hfix. reflexivity.
Qed.

End SameMail.

(** * Further properties of the reference number *)

Section ReferenceCollisions.
Import FieldSpec.
Local Open Scope N_scope.

Lemma fixed_digits_mod (k : nat) : ∀ n m : N,
  n mod 10 ^ N.of_nat k = m mod 10 ^ N.of_nat k →
  fixed_digits k n = fixed_digits k m.
Proof.
  induction k as [|k IH]; intros n m Hmod; [reflexivity|].
  cbn [fixed_digits].
  rewrite Nat2N.inj_succ, N.pow_succ_r' in Hmod.
  rewrite !N.Div0.mod_mul_r in Hmod.
  assert (Hn : n mod 10 < 10) by (apply N.mod_lt; discriminate).
  assert (Hm : m mod 10 < 10) by (apply N.mod_lt; discriminate).
  revert Hmod Hn Hm.
  generalize (n mod 10) (m mod 10).
  pose proof (IH (n / 10) (m / 10)) as IH'. revert IH'.
  generalize ((n / 10) mod 10 ^ N.of_nat k) ((m / 10) mod 10 ^ N.of_nat k).
  intros y y' IH' x x' Hmod Hx Hx'.
  assert (x = x') by lia. assert (y = y') by lia. subst.
  rewrite IH' by reflexivity. reflexivity.
Qed.

Local Close Scope N_scope.

(** X24.  Reference numbers are not unique.  From 1970-01-01T02:46:40Z
    on, two submissions get the same reference number exactly when
    their times in milliseconds agree modulo 10^8: in the same
    millisecond, or a multiple of 27 h 46 min 40 s apart. *)
Theorem refNumber_collides (a b : Z) :
  10000000 ≤ a → 10000000 ≤ b →
  (refNumber a = refNumber b ↔ a mod 100000000 = b mod 100000000).
Proof.
  intros Ha Hb. rewrite (refNumber_last8 a Ha), (refNumber_last8 b Hb).
  assert (Hmod : ∀ z, 0 ≤ z →
            (Z.to_N z mod 10 ^ N.of_nat 8)%N = Z.to_N (z mod 100000000)).
  { intros z Hz. change (10 ^ N.of_nat 8)%N with (Z.to_N 100000000).
    symmetry. apply Z2N.inj_mod; lia. }
  split.
  - intros Heq. apply app_inv_head in Heq.
    apply (f_equal decimal) in Heq. rewrite !decimal_fixed_digits in Heq.
    injection Heq as Heq. rewrite !Hmod in Heq by lia.
    apply Z2N.inj in Heq; [exact Heq | |]; apply Z.mod_pos_bound; lia.
  - intros Heq. f_equal. apply fixed_digits_mod.
    rewrite !Hmod by lia. rewrite Heq. reflexivity.
Qed.

End ReferenceCollisions.

(** * The CORS policy (src/server.js) *)

Section CorsPolicy.
Import RegExp Cors CorsSpec.

Lemma split_comma_nonempty (s : jsstring) : split_comma s ≠ [].
Proof.
  destruct s as [|c t]; cbn [split_comma]; [discriminate|].
  destruct (one "," c); [discriminate|].
  destruct (split_comma t); discriminate.
Qed.

Lemma join_split_comma (s : jsstring) : join_comma (split_comma s) = s.
Proof.
  induction s as [|c t IH]; [reflexivity|]. cbn [split_comma].
  destruct (one "," c) eqn:Hc.
  - apply one_eq in Hc. subst c. cbn [join_comma].
    destruct (split_comma t) as [|p ps] eqn:Hs;
      [exfalso; exact (split_comma_nonempty t Hs)|].
    rewrite IH. reflexivity.
  - destruct (split_comma t) as [|p ps] eqn:Hs;
      [exfalso; exact (split_comma_nonempty t Hs)|].
    rewrite <- IH. destruct ps; reflexivity.
Qed.

Lemma split_comma_free (s : jsstring) : Forall comma_free (split_comma s).
Proof.
  induction s as [|c t IH]; cbn [split_comma].
  - constructor; [|constructor]. intros Hin. inversion Hin.
  - destruct (one "," c) eqn:Hc.
    + constructor; [|exact IH]. intros Hin. inversion Hin.
    + destruct (split_comma t) as [|p ps];
        [constructor; [|constructor]|].
      * intros Hin. apply list_elem_of_singleton in Hin. subst c.
        discriminate.
      * apply Forall_cons in IH as [Hp Hps]. constructor; [|exact Hps].
        intros Hin. apply elem_of_cons in Hin as [<-|Hin];
          [discriminate | exact (Hp Hin)].
Qed.

Lemma split_comma_piece (p : jsstring) :
  comma_free p → split_comma p = [p].
Proof.
  induction p as [|c p IH]; intros Hp; [reflexivity|]. cbn [split_comma].
  destruct (one "," c) eqn:Hc.
  - apply one_eq in Hc. subst c. exfalso. apply Hp. left.
  - rewrite IH; [reflexivity|]. intros Hin. apply Hp. right. exact Hin.
Qed.

Lemma split_comma_app (p r : jsstring) :
  comma_free p → split_comma (p ++ chr "," :: r) = p :: split_comma r.
Proof.
  induction p as [|c p IH]; intros Hp; [reflexivity|].
  cbn [app split_comma]. destruct (one "," c) eqn:Hc.
  - apply one_eq in Hc. subst c. exfalso. apply Hp. left.
  - rewrite IH; [reflexivity|]. intros Hin. apply Hp. right. exact Hin.
Qed.

Lemma split_join_comma (l : list jsstring) :
  l ≠ [] → Forall comma_free l → split_comma (join_comma l) = l.
Proof.
  intros Hne Hl. induction Hl as [|p l Hp Hl IH]; [contradiction|].
  cbn [join_comma]. destruct l as [|q l].
  - apply split_comma_piece, Hp.
  - rewrite split_comma_app by exact Hp. rewrite IH by discriminate.
    reflexivity.
Qed.

(** X25.  The list of allowed origins.  With ALLOWED_ORIGINS unset or
    empty the list is the one origin https://laporanpenaslot.info.
    Otherwise it is the value cut at its commas: the entries have no
    comma, joined by commas they give the value back, and they are the
    only such list, so that nothing is trimmed and the value written
    from a list of comma-free entries is read back as that list. *)
Theorem allowedOrigins_entries (env : option jsstring) :
  (env = None ∨ env = Some [] →
   allowedOrigins env = [lit "https://laporanpenaslot.info"])
  ∧ (∀ e, env = Some e → e ≠ [] →
       join_comma (allowedOrigins env) = e
       ∧ Forall comma_free (allowedOrigins env)
       ∧ ∀ l, Forall comma_free l → join_comma l = e →
              allowedOrigins env = l).
Proof.
  split.
  - intros [->| ->]; reflexivity.
  - intros e -> He. destruct e as [|c e]; [contradiction|].
    cbn [allowedOrigins Server.truthy].
    split; [apply join_split_comma|]. split; [apply split_comma_free|].
    intros l Hl Hjoin. rewrite <- Hjoin. apply split_join_comma; [|exact Hl].
    intros ->. discriminate.
Qed.

(** X26.  The origin check.  A request is allowed exactly when it
    has no Origin header (or an empty one) or its origin is, code unit
    for code unit, an entry of the list of allowed origins; any other
    request is refused with the error "Not allowed by CORS".  With
    ALLOWED_ORIGINS set, an origin that contains a comma is always
    refused. *)
Theorem cors_origin_decision (env o : option jsstring) :
  (origin env o = Allow
   ↔ o = None ∨ o = Some [] ∨ ∃ x, o = Some x ∧ x ∈ allowedOrigins env)
  ∧ (origin env o = Allow ∨ origin env o = Deny (lit "Not allowed by CORS"))
  ∧ (∀ e x, env = Some e → e ≠ [] → o = Some x → chr "," ∈ x →
       origin env o = Deny (lit "Not allowed by CORS")).
Proof.
  assert (Hiff : origin env o = Allow
            ↔ o = None ∨ o = Some [] ∨ ∃ x, o = Some x ∧ x ∈ allowedOrigins env).
  { unfold origin. destruct o as [[|c x]|]; cbn [Server.truthy].
    - split; auto.
    - case_bool_decide as Hin.
      + split; [intros _; right; right; eauto | reflexivity].
      + split; [discriminate|].
        intros [?|[?|(x' & [= <-] & Hx)]]; try discriminate.
        contradiction.
    - split; auto. }
  assert (Hcases : origin env o = Allow
                   ∨ origin env o = Deny (lit "Not allowed by CORS")).
  { unfold origin. destruct (Server.truthy o); [|auto].
    case_bool_decide; auto. }
  split; [exact Hiff|]. split; [exact Hcases|].
  intros e x -> He -> Hx. destruct Hcases as [Hallow|Hdeny]; [|exact Hdeny].
  exfalso. apply Hiff in Hallow as [?|[[= ->]|(x' & [= <-] & Hin)]];
    [discriminate | inversion Hx |].
  destruct e as [|c e]; [contradiction|].
  cbn [allowedOrigins Server.truthy] in Hin.
  pose proof (split_comma_free (c :: e)) as Hfree.
  rewrite Forall_forall in Hfree. exact (Hfree _ Hin Hx).
Qed.

End CorsPolicy.

(** * Instances *)

Section MoreInstances.
Import Server StoreSpec HexSpec FieldSpec.

Lemma reachable_store_inv_witness :
  reachable Sample.host Sample.issued.2 ∧ store_inv Sample.issued.2.
Proof.
  split; [exact issued_reachable|].
  exact (reachable_store_inv Sample.host Sample.issued.2 issued_reachable).
Defined.

(** The visitor of the sample asks for a second token one second
    after the first. *)
Lemma get_csrf_token_rotates_witness :
  sessionId (cookies Sample.submission)
    = Some (value (set_sessionId Sample.issued.1))
  ∧ randomBytes 32 Sample.entropy_a ≠ randomBytes 32 Sample.entropy_b
  ∧ value (set_sessionId
             (get_csrf_token Sample.host Sample.submission Sample.entropy_b
                Sample.entropy_a (Sample.now + 1000) Sample.issued.2).1)
      = value (set_sessionId Sample.issued.1)
  ∧ rejected_403
      (validateCsrfToken
         {| cookies := cookies_of Sample.issued.1; body := None |}
         (Sample.now + 2000)
         (get_csrf_token Sample.host Sample.submission Sample.entropy_b
            Sample.entropy_a (Sample.now + 1000) Sample.issued.2).2).1.
Proof.
  assert (H1 : sessionId (cookies Sample.submission)
               = Some (value (set_sessionId Sample.issued.1)))
    by reflexivity.
  assert (H2 : randomBytes 32 Sample.entropy_a
               ≠ randomBytes 32 Sample.entropy_b)
    by (vm_compute; discriminate).
  split; [exact H1|]. split; [exact H2|].
  exact (get_csrf_token_rotates Sample.host Sample.no_cookies
           Sample.entropy_a Sample.entropy_b Sample.now ∅ Sample.issued
           Sample.submission Sample.entropy_b Sample.entropy_a
           (Sample.now + 1000) _ None (Sample.now + 2000)
           eq_refl H1 H2 eq_refl).
Defined.

(** A second visitor, with the session cookie of the sample jar, asks
    for a token and posts a complaint while the first one waits. *)
Lemma validateCsrfToken_other_session_witness :
  sessionId (cookies Sample.submission)
    = Some (value (set_sessionId Sample.issued.1))
  ∧ issued_sid (Sample.request Sample.good) Sample.entropy_a
      ≠ value (set_sessionId Sample.issued.1)
  ∧ Sample.now + 1 ≤ Sample.now + 2
  ∧ (validateCsrfToken Sample.submission (Sample.now + 2)
       (get_csrf_token Sample.host (Sample.request Sample.good)
          Sample.entropy_a Sample.entropy_a (Sample.now + 1)
          Sample.issued.2).2).1
      = (validateCsrfToken Sample.submission (Sample.now + 2)
           Sample.issued.2).1
  ∧ (validateCsrfToken Sample.submission (Sample.now + 2)
       (send_complaint Sample.host (Sample.request Sample.good)
          (Sample.now + 1) false Sample.issued.2).2).1
      = (validateCsrfToken Sample.submission (Sample.now + 2)
           Sample.issued.2).1.
Proof.
  assert (H1 : sessionId (cookies Sample.submission)
               = Some (value (set_sessionId Sample.issued.1)))
    by reflexivity.
  assert (H2 : issued_sid (Sample.request Sample.good) Sample.entropy_a
               ≠ value (set_sessionId Sample.issued.1))
    by (vm_compute; discriminate).
  assert (H3 : Sample.now + 1 ≤ Sample.now + 2) by lia.
  split; [exact H1|]. split; [exact H2|]. split; [exact H3|].
  exact (validateCsrfToken_other_session Sample.host Sample.submission
           (value (set_sessionId Sample.issued.1))
           (Sample.request Sample.good) Sample.entropy_a Sample.entropy_a
           (Sample.now + 1) (Sample.now + 2) false Sample.issued.2
           H1 H2 H3).
Defined.

(** The relay fails on the first submission of the sample, and sends
    the mail of the second one, a minute later. *)
Lemma failed_submission_keeps_token_witness :
  status (send_complaint Sample.host
            {| cookies := cookies_of Sample.issued.1;
               body := Some Sample.good |}
            (Sample.now + 60000) true Sample.issued.2).1 ≠ 200
  ∧ Sample.now + 120000 ≤ Sample.now + 1800000
  ∧ validationErrors Sample.host (Sample.now + 120000) Sample.good = Ok []
  ∧ (send_complaint Sample.host
       {| cookies := cookies_of Sample.issued.1; body := Some Sample.good |}
       (Sample.now + 60000) true Sample.issued.2).2 = Sample.issued.2
  ∧ send_complaint Sample.host
      {| cookies := cookies_of Sample.issued.1; body := Some Sample.good |}
      (Sample.now + 120000) false
      (send_complaint Sample.host
         {| cookies := cookies_of Sample.issued.1;
            body := Some Sample.good |}
         (Sample.now + 60000) true Sample.issued.2).2
    = (success_response (refNumber (Sample.now + 120000)),
       delete (value (set_sessionId Sample.issued.1)) Sample.issued.2).
Proof.
  assert (H1 : status (send_complaint Sample.host
                         {| cookies := cookies_of Sample.issued.1;
                            body := Some Sample.good |}
                         (Sample.now + 60000) true Sample.issued.2).1 ≠ 200)
    by (vm_compute; discriminate).
  assert (H2 : Sample.now + 120000 ≤ Sample.now + 1800000) by lia.
  assert (H3 : validationErrors Sample.host (Sample.now + 120000)
                 Sample.good = Ok [])
    by (vm_compute; reflexivity).
  split; [exact H1|]. split; [exact H2|]. split; [exact H3|].
  exact (failed_submission_keeps_token Sample.host Sample.no_cookies
           Sample.entropy_a Sample.entropy_b Sample.now ∅ Sample.issued
           (Some Sample.good) (Sample.now + 60000) true _ Sample.good
           (Sample.now + 120000) eq_refl eq_refl H1 H2 H3).
Defined.

Lemma part000_valid_passes_server_witness :
  (∀ f, part000_valid Sample.host Sample.now f (Sample.good f) = true)
  ∧ (∀ s, Sample.good description = JString s → (length s ≤ 2000)%nat)
  ∧ ToBoolean (Sample.good dateOfIssue) = true
  ∧ validationErrors Sample.host Sample.now Sample.good = Ok [].
Proof.
  assert (H1 : ∀ f, part000_valid Sample.host Sample.now f (Sample.good f)
                    = true)
    by (intros f; destruct f; vm_compute; reflexivity).
  assert (H2 : ∀ s, Sample.good description = JString s
                    → (length s ≤ 2000)%nat)
    by (intros s [= <-]; vm_compute; lia).
  assert (H3 : ToBoolean (Sample.good dateOfIssue) = true) by reflexivity.
  split; [exact H1|]. split; [exact H2|]. split; [exact H3|].
  exact (part000_valid_passes_server Sample.host Sample.now Sample.good
           H1 H2 H3).
Defined.

End MoreInstances.

Section TextInstances.
Import FieldSpec.

Lemma sanitize_only_removes_witness :
  Part000.sanitize (JString (lit "  <b>halo</b> dunia "))
    = JString (lit "halo dunia")
  ∧ lit "halo dunia" `sublist_of` lit "  <b>halo</b> dunia "
  ∧ (length (lit "halo dunia") ≤ length (lit "  <b>halo</b> dunia "))%nat.
Proof.
  assert (H1 : Part000.sanitize (JString (lit "  <b>halo</b> dunia "))
               = JString (lit "halo dunia"))
    by (vm_compute; reflexivity).
  split; [exact H1|].
  exact (sanitize_only_removes (lit "  <b>halo</b> dunia ")
           (lit "halo dunia") H1).
Defined.

Lemma sanitize_without_lt_trims_witness :
  (∀ c, c ∈ lit " 3 > 2 " → c ≠ chr "<")
  ∧ Part000.sanitize (JString (lit " 3 > 2 "))
      = JString (trim (lit " 3 > 2 ")).
Proof.
  assert (H1 : ∀ c, c ∈ lit " 3 > 2 " → c ≠ chr "<").
  { apply Forall_forall. vm_compute.
    repeat (constructor; [discriminate|]). constructor. }
  split; [exact H1|].
  exact (sanitize_without_lt_trims (lit " 3 > 2 ") H1).
Defined.

Lemma sanitize_keeps_validated_witness :
  (∀ f, part000_valid Sample.host Sample.now f (Sample.good f) = true)
  ∧ (∀ f, f ∈ [username; gameId; platform; issueType; phoneNumber] →
          Part000.sanitize (Sample.good f) = Sample.good f)
  ∧ (∀ f, f ∈ [username; platform; issueType; phoneNumber] →
          ∃ s, Sample.good f = JString s)
  ∧ (∀ req, body req = Some Sample.good →
       Part000.handler Sample.host req Sample.now
         = SendMail (Part000.mailOptions Sample.host Sample.now Sample.good)
             (refNumber Sample.now))
  ∧ subject (Part000.mailOptions Sample.host Sample.now Sample.good)
      = raw_subject Sample.now Sample.good
  ∧ text (Part000.mailOptions Sample.host Sample.now Sample.good)
      = raw_text Sample.now (MailSpec.free_text_sanitized Sample.good).
Proof.
  assert (H1 : ∀ f, part000_valid Sample.host Sample.now f (Sample.good f)
                    = true)
    by (intros f; destruct f; vm_compute; reflexivity).
  split; [exact H1|].
  exact (sanitize_keeps_validated Sample.host Sample.now Sample.good H1).
Defined.

Lemma unclosed_tag_mailed_empty_witness :
  lit "img src=x onerror=alert(1)" ≠ []
  ∧ (∀ c, c ∈ lit "img src=x onerror=alert(1)" → c ≠ chr ">")
  ∧ (length (lit "img src=x onerror=alert(1)") < 2000)%nat
  ∧ Part000.validators.description
      (JString (chr "<" :: lit "img src=x onerror=alert(1)")) = true
  ∧ Part000.sanitize
      (JString (chr "<" :: lit "img src=x onerror=alert(1)")) = JString [].
Proof.
  assert (H1 : lit "img src=x onerror=alert(1)" ≠ [])
    by (vm_compute; discriminate).
  assert (H2 : ∀ c, c ∈ lit "img src=x onerror=alert(1)" → c ≠ chr ">").
  { apply Forall_forall. vm_compute.
    repeat (constructor; [discriminate|]). constructor. }
  assert (H3 : (length (lit "img src=x onerror=alert(1)") < 2000)%nat)
    by (vm_compute; lia).
  split; [exact H1|]. split; [exact H2|]. split; [exact H3|].
  exact (unclosed_tag_mailed_empty (lit "img src=x onerror=alert(1)")
           H1 H2 H3).
Defined.

Lemma mailOptions_agree_witness :
  (∀ f, Part000.sanitize (Sample.good f) = Sample.good f)
  ∧ Part000.mailOptions Sample.host Sample.now Sample.good
      = Server.mailOptions Sample.host Sample.now Sample.good.
Proof.
  assert (H1 : ∀ f, Part000.sanitize (Sample.good f) = Sample.good f)
    by (intros f; destruct f; vm_compute; reflexivity).
  split; [exact H1|].
  exact (mailOptions_agree Sample.host Sample.now Sample.good H1).
Defined.

(** Two submissions 10^8 milliseconds apart. *)
Lemma refNumber_collides_witness :
  10000000 ≤ Sample.now
  ∧ 10000000 ≤ Sample.now + 100000000
  ∧ (refNumber Sample.now = refNumber (Sample.now + 100000000)
     ↔ Sample.now mod 100000000
       = (Sample.now + 100000000) mod 100000000).
Proof.
  assert (H1 : 10000000 ≤ Sample.now) by (vm_compute; discriminate).
  assert (H2 : 10000000 ≤ Sample.now + 100000000)
    by (vm_compute; discriminate).
  split; [exact H1|]. split; [exact H2|].
  exact (refNumber_collides Sample.now (Sample.now + 100000000) H1 H2).
Defined.

End TextInstances.

(** * The field constraints of the specification and the two programs *)

Section Rules.
Import RegExp TextSpec FormatSpec FieldSpec RuleSpec.
Variable H : Host.

Lemma validators_email_rule (v : JSValue) :
  Part000.validators.email v = true ↔ email_rule v.
Proof.
  unfold email_rule.
  destruct v as [| | | |s]; cbn [Part000.validators.email];
    try (split; [discriminate | intros (s & [=] & _)]).
  unfold Part000.re_email.
  rewrite andb_true_iff, Nat.leb_le, test_Bol_Matches.
  rewrite (email_pattern _ _ s not_space_at_iff).
  split; [intros [? ?]; eauto | intros (s' & [= <-] & ? & ?); auto].
Qed.

Lemma validators_gameId_rule (v : JSValue) :
  Part000.validators.gameId v = true ↔ gameId_rule v.
Proof.
  unfold Part000.validators.gameId, gameId_rule.
  destruct (ToBoolean v) eqn:Hb; cbn [negb]; [|split; auto].
  destruct v as [| | | |s];
    try (split; [discriminate | intros [?|(s & [=] & _)]; discriminate]).
  destruct s as [|c s]; [discriminate|].
  unfold Part000.re_gameId. rewrite test_anchored_plus, andb_true_iff.
  rewrite Nat.leb_le, (forallb_Forall_iff _ _ _ gameId_class). split.
  - intros [Hlen Hre]. right. eauto.
  - intros [?|(s' & [= <-] & Hlen & Hs)]; [discriminate | auto].
Qed.

Lemma validators_phoneNumber_rule (v : JSValue) :
  Part000.validators.phoneNumber v = true ↔ phoneNumber_rule v.
Proof.
  unfold phoneNumber_rule.
  destruct v as [| | | |s]; cbn [Part000.validators.phoneNumber];
    try (split; [discriminate | intros (s & [=] & _)]).
  unfold Part000.re_phoneNumber. rewrite test_Bol_Matches, phone_pattern.
  split; [eauto | intros (s' & [= <-] & Hr); exact Hr].
Qed.

(** Each entry of the [validators] table of part_000 accepts exactly
    the values that meet the constraint of its field. *)
Lemma part000_valid_rule (now : Z) (f : Field) (v : JSValue) :
  part000_valid H now f v = true ↔ field_rule H now f v.
Proof.
  destruct f; cbn [part000_valid field_rule].
  - apply validators_username_iff.
  - apply validators_email_rule.
  - apply validators_gameId_rule.
  - unfold platform_rule.
    destruct v as [| | | |s]; cbn [Part000.validators.platform];
      try (split; discriminate).
    rewrite bool_decide_eq_true. split; [intros -> | intros [= ->]];
      reflexivity.
  - unfold issueType_rule.
    destruct v as [| | | |s]; cbn [Part000.validators.issueType];
      try (split; [discriminate | intros (s & [=] & _)]).
    rewrite bool_decide_eq_true.
    split; [eauto | intros (s' & [= <-] & Hs); exact Hs].
  - unfold description_rule.
    destruct v as [| | | |s]; cbn [Part000.validators.description];
      try (split; [discriminate | intros (s & [=] & _)]).
    rewrite andb_true_iff, Nat.ltb_lt, Nat.leb_le.
    split; [eauto | intros (s' & [= <-] & Hs); exact Hs].
  - unfold dateOfIssue_rule, Part000.validators.dateOfIssue.
    destruct (Date_new H v) as [t|].
    + rewrite Z.leb_le. split; [eauto | intros (t' & [= <-] & ?); auto].
    + split; [discriminate | intros (? & [=] & _)].
  - apply validators_phoneNumber_rule.
Qed.

Lemma part000_invalid_rule (now : Z) (f : Field) (v : JSValue) :
  negb (part000_valid H now f v) = true ↔ ¬ field_rule H now f v.
Proof.
  rewrite <- part000_valid_rule, negb_true_iff.
  destruct (part000_valid H now f v); split; congruence.
Qed.

(** The errors object of part_000 is exhaustive for the constraints
    of the specification. *)
Lemma part000_exhaustive_for (now : Z) (b : Body) :
  exhaustive_for (λ f, field_rule H now f (b f))
    (Part000.validationErrors H now b).
Proof.
  destruct (part000_exhaustive H now b) as (Hnd & Hkeys & Hmsg).
  split; [exact Hnd|]. split; [|exact Hmsg].
  intros f. rewrite Hkeys. apply part000_invalid_rule.
Qed.

Lemma part000_rule_all_valid (now : Z) (b : Body) :
  (∀ f, field_rule H now f (b f)) → Part000.validationErrors H now b = [].
Proof.
  intros Hv. apply part000_all_valid. intros f.
  apply part000_valid_rule, Hv.
Qed.

(** A 200 of the submission route of server.js carries the reference
    number of the current time. *)
Lemma server_success_response (req : Request) (now : Z) (error : bool)
    (m : Server.TokenStore) :
  status (Server.send_complaint H req now error m).1 = 200 →
  (Server.send_complaint H req now error m).1
    = success_response (refNumber now).
Proof.
  rewrite send_complaint_run.
  destruct (validateCsrfToken_outcomes req now m) as [->|[msg ->]];
    [|discriminate].
  rewrite server_handler_run. destruct (body req) as [b|]; [|discriminate].
  destruct (collect _ server_table); [|discriminate].
  destruct error; [discriminate | reflexivity].
Qed.

End Rules.

Section RuleClaims.
Import FieldSpec RuleSpec StoreSpec.

(** C4.  Field validation against the constraints of the
    specification.  In part_000, for every submission, the errors
    object has one entry, with a non-empty message, for each field that
    breaks its constraint and none for a field that meets it; when it
    is not empty it is sent with status 400; and when one field alone
    breaks its constraint the object has that key alone.  server.js
    does not do so: its validation block files entries for its six own
    conditions only, and a submission whose platform is [OTHER], the
    other fields meeting their constraints, gets the [platform] entry
    in part_000 and no entry at all in server.js, where, with a good
    token, it is answered 200. *)
Theorem exhaustive_errors_missed_by_server :
  (∀ (H : Host) (now : Z) (b : Body),
     exhaustive_for (λ f, field_rule H now f (b f))
       (Part000.validationErrors H now b)
     ∧ (∀ req error, body req = Some b →
          Part000.validationErrors H now b ≠ [] →
          Part000.send_complaint H req now error
            = invalid_response (Part000.validationErrors H now b))
     ∧ (∀ f, ¬ field_rule H now f (b f) →
             (∀ g, g ≠ f → field_rule H now g (b g)) →
             (Part000.validationErrors H now b).*1 = [f]))
  ∧ (∀ (H : Host) (now : Z) (b : Body),
       ∃ errs, Server.validationErrors H now b = Ok errs
               ∧ exhaustive (λ f, server_invalid H now f (b f)) errs)
  ∧ ¬ field_rule Sample.host Faults.now platform
        (Faults.other_platform platform)
  ∧ (∀ g, g ≠ platform →
          field_rule Sample.host Faults.now g (Faults.other_platform g))
  ∧ (Part000.validationErrors Sample.host Faults.now
       Faults.other_platform).*1 = [platform]
  ∧ Server.validationErrors Sample.host Faults.now Faults.other_platform
      = Ok []
  ∧ (Server.validateCsrfToken (Faults.request Faults.other_platform)
       Faults.now Sample.issued.2).1 = Server.Next
  ∧ (Server.send_complaint Sample.host
       (Faults.request Faults.other_platform) Faults.now false
       Sample.issued.2).1
      = success_response (refNumber Faults.now).
Proof.
  split; [|split].
  - intros H now b.
    pose proof (part000_exhaustive H now b) as He.
    split; [apply part000_exhaustive_for|]. split.
    + intros req error Hb Hne. unfold Part000.send_complaint.
      rewrite part000_handler_run, Hb.
      destruct (Part000.validationErrors H now b); [contradiction|].
      reflexivity.
    + intros f Hf Hg. apply (exhaustive_single _ _ f He).
      * apply part000_invalid_rule, Hf.
      * intros g Hne. apply negb_false_iff, part000_valid_rule, Hg, Hne.
  - intros H now b. eexists.
    split; [apply server_validationErrors_collect | apply server_exhaustive].
  - split; [|split; [|split; [|split; [|split]]]].
    + apply part000_invalid_rule. vm_compute. reflexivity.
    + intros g Hg. apply part000_valid_rule.
      destruct g; try contradiction; vm_compute; reflexivity.
    + vm_compute. reflexivity.
    + vm_compute. reflexivity.
    + vm_compute. reflexivity.
    + vm_compute. reflexivity.
Qed.

(** C7.  The reference number of a valid submission.  In part_000
    every submission whose fields meet the constraints of the
    specification, the relay having sent the mail, is answered 200 with
    [success: true] and the reference number [PENA-] followed by
    exactly eight decimal digits, the last eight of the epoch
    milliseconds timestamp.  In server.js an answer of 200 carries that
    reference number too, but not every such submission is answered
    200: a description of 1999 letters followed by two blanks meets its
    constraint (1999 code units once trimmed), the other fields and the
    token being good, and server.js, which measures the description
    untrimmed, answers 400 with the [description] entry. *)
Theorem valid_submission_refused_by_server :
  (∀ (H : Host) (now : Z) (req : Request) (b : Body),
     10000000 ≤ now → body req = Some b →
     (∀ f, field_rule H now f (b f)) →
     Part000.send_complaint H req now false
       = success_response (lit "PENA-" ++ fixed_digits 8 (Z.to_N now))
     ∧ length (fixed_digits 8 (Z.to_N now)) = 8%nat
     ∧ decimal (fixed_digits 8 (Z.to_N now))
         = Some (Z.to_N now mod 100000000)%N)
  ∧ (∀ (H : Host) (now : Z) (req : Request) (error : bool)
       (m : Server.TokenStore),
       10000000 ≤ now →
       status (Server.send_complaint H req now error m).1 = 200 →
       (Server.send_complaint H req now error m).1
         = success_response (lit "PENA-" ++ fixed_digits 8 (Z.to_N now)))
  ∧ (∀ f, field_rule Sample.host Faults.now f (Faults.padded_description f))
  ∧ Part000.send_complaint Sample.host
      (Faults.request Faults.padded_description) Faults.now false
      = success_response (lit "PENA-" ++ fixed_digits 8 (Z.to_N Faults.now))
  ∧ (Server.validateCsrfToken (Faults.request Faults.padded_description)
       Faults.now Sample.issued.2).1 = Server.Next
  ∧ (Server.send_complaint Sample.host
       (Faults.request Faults.padded_description) Faults.now false
       Sample.issued.2).1
      = invalid_response [(description, lit "Deskripsi tidak valid")].
Proof.
  assert (Hpart : ∀ (H : Host) (now : Z) (req : Request) (b : Body),
            10000000 ≤ now → body req = Some b →
            (∀ f, field_rule H now f (b f)) →
            Part000.send_complaint H req now false
              = success_response (lit "PENA-" ++ fixed_digits 8 (Z.to_N now))).
  { intros H now req b Hnow Hb Hv. unfold Part000.send_complaint.
    rewrite part000_handler_run, Hb, (part000_rule_all_valid H now b Hv).
    cbn [Part000.sendMail_callback]. rewrite (refNumber_last8 now Hnow).
    reflexivity. }
  assert (Hvalid : ∀ f, field_rule Sample.host Faults.now f
                          (Faults.padded_description f)).
  { intros f. apply part000_valid_rule. destruct f; vm_compute; reflexivity. }
  assert (Hnow : 10000000 ≤ Faults.now) by (vm_compute; discriminate).
  split; [|split; [|split; [|split; [|split]]]].
  - intros H now req b Hn Hb Hv.
    split; [exact (Hpart H now req b Hn Hb Hv)|].
    split; [apply length_fixed_digits | apply (decimal_fixed_digits 8)].
  - intros H now req error m Hn Hst.
    rewrite (server_success_response H req now error m Hst).
    rewrite (refNumber_last8 now Hn). reflexivity.
  - exact Hvalid.
  - exact (Hpart Sample.host Faults.now
             (Faults.request Faults.padded_description)
             Faults.padded_description Hnow eq_refl Hvalid).
  - vm_compute. reflexivity.
  - vm_compute. reflexivity.
Qed.

End RuleClaims.
